(** * Stratus ATC core: a shallow embedding of the Python client

    The development follows the modules of [client/src/core]:
    [squawk.py], [flight_phase.py], [handoff.py], [response_cache.py],
    [streaming_llm.py] and [validation.py].

    Conventions of the embedding.
    - A Python [str] is a [list ascii]; a character is a code point in
      U+0000..U+00FF and the character classes below ([str.isspace],
      [str.isdigit], the [re] classes) are the ones Python assigns to these
      code points.  String literals are written as Rocq strings and coerced.
    - A float read from the simulator (a speed, an altitude) is a [float]:
      a rational number, an infinity or NaN, with the comparisons of
      Python, which all fail on NaN.  The configured thresholds and the
      clock readings are rational numbers [Q]: only their order and
      differences are used by the code.
    - [time.time()] is an explicit argument of every function that reads the
      clock.
    - [logger] calls are kept where they are the only observable trace of an
      event (a committed phase transition, the outcome of an assignment). *)

From Stdlib Require Import Ascii String DecimalString.
From Stdlib Require Import List Bool Arith Lia NArith ZArith QArith Lqa Sorted.
From Stdlib Require Import Permutation.
Import ListNotations.

Local Open Scope string_scope.
Local Open Scope list_scope.
Local Open Scope nat_scope.

(** ** Python strings *)

Definition str := list ascii.

Coercion list_ascii_of_string : string >-> list.

Definition ord (c : ascii) : nat := nat_of_ascii c.

Definition in_range (lo hi : nat) (c : ascii) : bool :=
  (lo <=? ord c) && (ord c <=? hi).

(** [str.isspace] on one character; also the class [\s] of [re]. *)
Definition py_isspace (c : ascii) : bool :=
  in_range 9 13 c || in_range 28 32 c || (ord c =? 133) || (ord c =? 160).

(** The class [\d] of [re]: the decimal digits. *)
Definition re_digit (c : ascii) : bool := in_range 48 57 c.

(** [str.isdigit] on one character: decimal digits and the superscript
    digits U+00B2, U+00B3, U+00B9. *)
Definition py_isdigit_char (c : ascii) : bool :=
  re_digit c || (ord c =? 178) || (ord c =? 179) || (ord c =? 185).

(** [str.isdigit]: false on the empty string. *)
Definition py_isdigit (s : str) : bool :=
  match s with
  | [] => false
  | _ => forallb py_isdigit_char s
  end.

(** The class [\w] of [re] on U+0000..U+00FF. *)
Definition re_word (c : ascii) : bool :=
  in_range 48 57 c || in_range 65 90 c || in_range 97 122 c || (ord c =? 95)
  || (ord c =? 170) || (ord c =? 178) || (ord c =? 179) || (ord c =? 181)
  || (ord c =? 185) || (ord c =? 186) || in_range 188 190 c
  || in_range 192 214 c || in_range 216 246 c || in_range 248 255 c.

(** [str.lower] on one character. *)
Definition py_lower_char (c : ascii) : ascii :=
  if in_range 65 90 c || in_range 192 214 c || in_range 216 222 c
  then ascii_of_nat (ord c + 32) else c.

Definition py_lower (s : str) : str := map py_lower_char s.

Fixpoint lstrip (s : str) : str :=
  match s with
  | c :: s' => if py_isspace c then lstrip s' else s
  | [] => []
  end.

Definition rstrip (s : str) : str := rev (lstrip (rev s)).

(** [str.strip()] *)
Definition strip (s : str) : str := rstrip (lstrip s).

(** The characters of a text that are not whitespace. *)
Definition visible (s : str) : str :=
  filter (fun c => negb (py_isspace c)) s.

Definition ascii_eqb (a b : ascii) : bool := Ascii.eqb a b.

Fixpoint str_eqb (a b : str) : bool :=
  match a, b with
  | [], [] => true
  | x :: a', y :: b' => ascii_eqb x y && str_eqb a' b'
  | _, _ => false
  end.

Fixpoint startswith (s p : str) : bool :=
  match p, s with
  | [], _ => true
  | x :: p', y :: s' => ascii_eqb x y && startswith s' p'
  | _ :: _, [] => false
  end.

Definition endswith (s p : str) : bool := startswith (rev s) (rev p).

(** [p in s] for strings: [p] occurs as a substring of [s]. *)
Fixpoint str_in (p s : str) : bool :=
  startswith s p ||
  match s with
  | [] => false
  | _ :: s' => str_in p s'
  end.

(** [c in s] for a one-character [c]. *)
Definition char_in (c : ascii) (s : str) : bool := existsb (ascii_eqb c) s.

(** [str(n)] for a natural number. *)
Definition str_of_nat (n : nat) : str :=
  list_ascii_of_string (NilEmpty.string_of_uint (Nat.to_uint n)).

Definition str_of_N (n : N) : str :=
  list_ascii_of_string (NilEmpty.string_of_uint (N.to_uint n)).

(** [s.zfill(w)] for a string without sign. *)
Definition zfill (w : nat) (s : str) : str :=
  repeat "0"%char (w - length s) ++ s.

(** A log record: level and message. *)
Inductive LogLevel := DEBUG | INFO | WARNING | ERROR.
Definition LogRecord : Type := LogLevel * str.

(** ** squawk.py *)

Module Squawk.

Inductive SquawkType := NORMAL | VFR | STANDBY | HIJACK | NORDO | EMERGENCY.

Record SquawkInfo := {
  code : str;
  type : SquawkType;
  description : str;
  is_emergency : bool;
  atc_response_required : bool
}.

Record SquawkHandler := {
  _current_code : str;
  _last_emergency : option SquawkInfo;
  _assigned_code : option str
}.

(** [SquawkHandler.__init__] *)
Definition init : SquawkHandler :=
  {| _current_code := "1200"; _last_emergency := None; _assigned_code := None |}.

(** [_normalize_code]: keep the characters [0-7], pad to four, cut at four. *)
Definition _normalize_code (code : str) : str :=
  let digits := filter (in_range 48 55) code in
  firstn 4 (zfill 4 digits).

(** [validate_code] *)
Definition validate_code (code : str) : bool * str :=
  let code := strip code in
  if negb (length code =? 4) then
    (false, "Squawk must be 4 digits, got " ++ str_of_nat (length code))
  else if negb (py_isdigit code) then
    (false, list_ascii_of_string "Squawk must be numeric")
  else if existsb (fun d => char_in d code) "89" then
    (false, list_ascii_of_string "Squawk codes are octal (0-7 only)")
  else (true, []).

(** [set_assigned_code]: the method has no [return]; its result is Python's
    [None], here [tt].  The second component is the record it logs. *)
Definition set_assigned_code (h : SquawkHandler) (code : str)
  : SquawkHandler * unit * LogRecord :=
  let '(valid, error) := validate_code code in
  if valid then
    let a := _normalize_code code in
    ({| _current_code := _current_code h;
        _last_emergency := _last_emergency h;
        _assigned_code := Some a |}, tt,
     (INFO, "[SQUAWK] ATC assigned code: " ++ a))
  else
    (h, tt,
     (WARNING, "[SQUAWK] Invalid assigned code '" ++ code ++ "': " ++ error)).

(** [get_assigned_code] *)
Definition get_assigned_code (h : SquawkHandler) : option str := _assigned_code h.

(** [EMERGENCY_CODES], as the lookup [EMERGENCY_CODES.get(code)] *)
Definition EMERGENCY_CODES (c : str) : option SquawkInfo :=
  if str_eqb c "7500" then
    Some {| code := "7500"; type := HIJACK; description := "Hijack";
            is_emergency := true; atc_response_required := true |}
  else if str_eqb c "7600" then
    Some {| code := "7600"; type := NORDO;
            description := "Radio failure - NORDO";
            is_emergency := true; atc_response_required := false |}
  else if str_eqb c "7700" then
    Some {| code := "7700"; type := EMERGENCY;
            description := "General emergency";
            is_emergency := true; atc_response_required := true |}
  else None.

(** [SPECIAL_CODES], as the lookup [SPECIAL_CODES.get(code)] *)
Definition SPECIAL_CODES (c : str) : option SquawkInfo :=
  if str_eqb c "1200" then
    Some {| code := "1200"; type := VFR; description := "VFR";
            is_emergency := false; atc_response_required := false |}
  else if str_eqb c "0000" then
    Some {| code := "0000"; type := STANDBY; description := "Standby";
            is_emergency := false; atc_response_required := false |}
  else None.

(** The property [SquawkHandler.is_emergency] *)
Definition handler_is_emergency (h : SquawkHandler) : bool :=
  match EMERGENCY_CODES (_current_code h) with
  | Some _ => true
  | None => false
  end.

(** [update]: the new handler and the returned info. *)
Definition update (h : SquawkHandler) (code : str)
  : SquawkHandler * option SquawkInfo :=
  let code := _normalize_code code in
  if str_eqb code (_current_code h) then (h, None)
  else
    match EMERGENCY_CODES code with
    | Some info =>
      ({| _current_code := code;
          _last_emergency := Some info;
          _assigned_code := _assigned_code h |}, Some info)
    | None =>
      ({| _current_code := code;
          _last_emergency := _last_emergency h;
          _assigned_code := _assigned_code h |}, SPECIAL_CODES code)
    end.

(** [generate_atc_response] *)
Definition generate_atc_response (h : SquawkHandler) (pilot_callsign : str)
  : option str :=
  if str_eqb (_current_code h) "7700" then
    Some (pilot_callsign
          ++ ", I see you squawking emergency. Say nature of emergency.")
  else if str_eqb (_current_code h) "7600" then
    Some (pilot_callsign
          ++ ", if you read, squawk ident. No voice communication required.")
  else if str_eqb (_current_code h) "7500" then
    Some (pilot_callsign ++ ", roger, squawk confirmed.")
  else None.

(** The handler after a sequence of [update] calls. *)
Definition updates (h : SquawkHandler) (codes : list str) : SquawkHandler :=
  fold_left (fun h c => fst (update h c)) codes h.

(** Four characters, each an octal digit. *)
Definition four_octal (c : str) : Prop :=
  length c = 4 /\ forallb (in_range 48 55) c = true.

End Squawk.

(** ** Telemetry and numbers *)

Definition Qltb (x y : Q) : bool := negb (Qle_bool y x).
Definition Qleb (x y : Q) : bool := Qle_bool x y.

(** A Python [float] as the simulator may deliver it: a number, an
    infinity, or NaN. *)
Inductive float := Num (q : Q) | PInf | NInf | NaN.

Coercion Num : Q >-> float.
Bind Scope Q_scope with float.

(** [x < y] on floats: false as soon as one side is NaN. *)
Definition flt (x y : float) : bool :=
  match x, y with
  | Num a, Num b => Qltb a b
  | NInf, Num _ | NInf, PInf | Num _, PInf => true
  | _, _ => false
  end.

(** [x > y] *)
Definition fgt (x y : float) : bool := flt y x.

(** The [SimTelemetry] object handed to the trackers.  [altitude_agl] may be
    missing ([getattr] with a default in [_detect_phase]). *)
Record Telemetry := {
  connected : bool;
  on_ground : bool;
  ias : float;
  vertical_speed : float;
  altitude_msl : float;
  altitude_agl : option float
}.

(** ** flight_phase.py *)

Module FlightPhase.

Inductive FlightPhase :=
  | UNKNOWN | PARKED | TAXI_OUT | TAKEOFF | DEPARTURE | CRUISE
  | DESCENT | APPROACH | LANDING | TAXI_IN.

Definition phase_eqb (a b : FlightPhase) : bool :=
  match a, b with
  | UNKNOWN, UNKNOWN | PARKED, PARKED | TAXI_OUT, TAXI_OUT
  | TAKEOFF, TAKEOFF | DEPARTURE, DEPARTURE | CRUISE, CRUISE
  | DESCENT, DESCENT | APPROACH, APPROACH | LANDING, LANDING
  | TAXI_IN, TAXI_IN => true
  | _, _ => false
  end.

(** [detected_phase == self._pending_phase], the right side being optional. *)
Definition is_pending (d : FlightPhase) (p : option FlightPhase) : bool :=
  match p with
  | Some q => phase_eqb d q
  | None => false
  end.

Record PhaseThresholds := {
  taxi_speed_max : Q;
  takeoff_speed_min : Q;
  climb_vs_threshold : Q;
  descent_vs_threshold : Q;
  pattern_altitude_agl : Q;
  departure_altitude_msl : Q;
  phase_confirm_time : Q
}.

(** The defaults of the dataclass. *)
Definition default_thresholds : PhaseThresholds :=
  {| taxi_speed_max := 40;
     takeoff_speed_min := 50;
     climb_vs_threshold := 300;
     descent_vs_threshold := -300;
     pattern_altitude_agl := 2000;
     departure_altitude_msl := 10000;
     phase_confirm_time := 3 |}.

Record FlightPhaseTracker := {
  _thresholds : PhaseThresholds;
  _current_phase : FlightPhase;
  _pending_phase : option FlightPhase;
  _phase_start_time : Q;
  _last_update_time : Q;
  _max_altitude_reached : float;
  _was_airborne : bool
}.

(** [FlightPhaseTracker.__init__] *)
Definition init (thresholds : option PhaseThresholds) : FlightPhaseTracker :=
  {| _thresholds := match thresholds with
                    | Some t => t
                    | None => default_thresholds
                    end;
     _current_phase := UNKNOWN;
     _pending_phase := None;
     _phase_start_time := 0;
     _last_update_time := 0;
     _max_altitude_reached := Num 0;
     _was_airborne := false |}.

(** [_detect_phase] *)
Definition _detect_phase (self : FlightPhaseTracker) (telemetry : Telemetry)
  : FlightPhase :=
  let vs := vertical_speed telemetry in
  let alt_msl := altitude_msl telemetry in
  let alt_agl := match altitude_agl telemetry with
                 | Some a => a
                 | None => alt_msl
                 end in
  let t := _thresholds self in
  if on_ground telemetry then
    if flt (ias telemetry) (Num 10) then
      if _was_airborne self then TAXI_IN else PARKED
    else if flt (ias telemetry) (Num (taxi_speed_max t)) then
      if _was_airborne self then TAXI_IN else TAXI_OUT
    else
      if _was_airborne self then LANDING else TAKEOFF
  else
    if fgt vs (Num (climb_vs_threshold t)) then
      if flt alt_msl (Num (departure_altitude_msl t)) then DEPARTURE
      else CRUISE
    else if flt vs (Num (descent_vs_threshold t)) then
      if flt alt_agl (Num (pattern_altitude_agl t)) then APPROACH
      else DESCENT
    else
      if flt alt_agl (Num (pattern_altitude_agl t)) then APPROACH
      else CRUISE.

(** A committed transition as [_transition_to] logs it: old and new phase. *)
Definition Transition : Type := FlightPhase * FlightPhase.

(** [_transition_to] *)
Definition _transition_to (self : FlightPhaseTracker) (new_phase : FlightPhase)
  : FlightPhaseTracker * list Transition :=
  let old_phase := _current_phase self in
  let reset := phase_eqb new_phase PARKED in
  ({| _thresholds := _thresholds self;
      _current_phase := new_phase;
      _pending_phase := None;
      _phase_start_time := _phase_start_time self;
      _last_update_time := _last_update_time self;
      _max_altitude_reached :=
        if reset then Num 0 else _max_altitude_reached self;
      _was_airborne := if reset then false else _was_airborne self |},
   [(old_phase, new_phase)]).

Definition set_tracking (self : FlightPhaseTracker) (alt : float)
  (airborne : bool)
  : FlightPhaseTracker :=
  {| _thresholds := _thresholds self;
     _current_phase := _current_phase self;
     _pending_phase := _pending_phase self;
     _phase_start_time := _phase_start_time self;
     _last_update_time := _last_update_time self;
     _max_altitude_reached := alt;
     _was_airborne := airborne |}.

Definition set_pending (self : FlightPhaseTracker) (p : option FlightPhase)
  (start : Q) : FlightPhaseTracker :=
  {| _thresholds := _thresholds self;
     _current_phase := _current_phase self;
     _pending_phase := p;
     _phase_start_time := start;
     _last_update_time := _last_update_time self;
     _max_altitude_reached := _max_altitude_reached self;
     _was_airborne := _was_airborne self |}.

Definition set_last_update (self : FlightPhaseTracker) (now : Q)
  : FlightPhaseTracker :=
  {| _thresholds := _thresholds self;
     _current_phase := _current_phase self;
     _pending_phase := _pending_phase self;
     _phase_start_time := _phase_start_time self;
     _last_update_time := now;
     _max_altitude_reached := _max_altitude_reached self;
     _was_airborne := _was_airborne self |}.

(** [update].  [telemetry] is [None] when the caller passes no object;
    [current_time] is the reading of [time.time()].  The result carries the
    new tracker, the returned phase and the transitions logged by the call. *)
Definition update (self : FlightPhaseTracker) (telemetry : option Telemetry)
  (current_time : Q) : FlightPhaseTracker * FlightPhase * list Transition :=
  match telemetry with
  | None => (self, UNKNOWN, [])
  | Some telemetry =>
    if negb (connected telemetry) then (self, UNKNOWN, []) else
    let detected_phase := _detect_phase self telemetry in
    let self1 :=
      set_tracking self
        (if fgt (altitude_msl telemetry) (_max_altitude_reached self)
         then altitude_msl telemetry else _max_altitude_reached self)
        (if negb (on_ground telemetry) then true else _was_airborne self) in
    let '(self2, log) :=
      if negb (phase_eqb detected_phase (_current_phase self1)) then
        if is_pending detected_phase (_pending_phase self1) then
          let elapsed := (current_time - _phase_start_time self1)%Q in
          if Qleb (phase_confirm_time (_thresholds self1)) elapsed
          then _transition_to self1 detected_phase
          else (self1, [])
        else (set_pending self1 (Some detected_phase) current_time, [])
      else (set_pending self1 None (_phase_start_time self1), []) in
    let self3 := set_last_update self2 current_time in
    (self3, _current_phase self3, log)
  end.

(** A sequence of calls of [update]: each with the clock reading and the
    telemetry of the call. *)
Definition Call : Type := Q * option Telemetry.

(** The tracker after a sequence of calls. *)
Fixpoint run (self : FlightPhaseTracker) (calls : list Call)
  : FlightPhaseTracker :=
  match calls with
  | [] => self
  | (now, tel) :: rest => run (fst (fst (update self tel now))) rest
  end.

(** A committed transition of a run: the clock reading of the call, the
    tracker as it was when the call began, the telemetry of the call and
    the logged pair. *)
Record Commit := {
  at_time : Q;
  before : FlightPhaseTracker;
  seen : Telemetry;
  transition : Transition
}.

Definition observed (now : Q) (self : FlightPhaseTracker)
  (tel : option Telemetry) (log : list Transition) : list Commit :=
  match tel with
  | Some t =>
    map (fun tr => {| at_time := now; before := self; seen := t;
                      transition := tr |}) log
  | None => []
  end.

(** The committed transitions of a run, in order. *)
Fixpoint commits (self : FlightPhaseTracker) (calls : list Call)
  : list Commit :=
  match calls with
  | [] => []
  | (now, tel) :: rest =>
    observed now self tel (snd (update self tel now))
    ++ commits (fst (fst (update self tel now))) rest
  end.

(** Their clock readings. *)
Definition commit_times (self : FlightPhaseTracker) (calls : list Call)
  : list Q :=
  map at_time (commits self calls).

(** [not telemetry or not telemetry.connected] *)
Definition disconnected (tel : option Telemetry) : bool :=
  match tel with
  | None => true
  | Some t => negb (connected t)
  end.

(** [reset] *)
Definition reset (self : FlightPhaseTracker) : FlightPhaseTracker :=
  {| _thresholds := _thresholds self;
     _current_phase := UNKNOWN;
     _pending_phase := None;
     _phase_start_time := _phase_start_time self;
     _last_update_time := _last_update_time self;
     _max_altitude_reached := Num 0;
     _was_airborne := false |}.

(** The phases returned by a sequence of calls of [update]. *)
Fixpoint returned (self : FlightPhaseTracker) (calls : list Call)
  : list FlightPhase :=
  match calls with
  | [] => []
  | (now, tel) :: rest =>
    snd (fst (update self tel now))
    :: returned (fst (fst (update self tel now))) rest
  end.

End FlightPhase.

(** ** handoff.py *)

Module Handoff.

Inductive FacilityType :=
  | UNKNOWN | CLEARANCE | GROUND | TOWER | DEPARTURE | APPROACH | CENTER
  | UNICOM | FLIGHT_SERVICE.

Definition type_eqb (a b : FacilityType) : bool :=
  match a, b with
  | UNKNOWN, UNKNOWN | CLEARANCE, CLEARANCE | GROUND, GROUND | TOWER, TOWER
  | DEPARTURE, DEPARTURE | APPROACH, APPROACH | CENTER, CENTER
  | UNICOM, UNICOM | FLIGHT_SERVICE, FLIGHT_SERVICE => true
  | _, _ => false
  end.

(** [FacilityType.to_name] *)
Definition to_name (self : FacilityType) (identifier : str) : str :=
  let name : str :=
    match self with
    | CLEARANCE => "Clearance"
    | GROUND => "Ground"
    | TOWER => "Tower"
    | DEPARTURE => "Departure"
    | APPROACH => "Approach"
    | CENTER => "Center"
    | UNICOM => "Traffic"
    | FLIGHT_SERVICE => "Radio"
    | UNKNOWN => "ATC"
    end in
  match identifier with
  | [] => name
  | _ => identifier ++ " " ++ name
  end.

Record Facility := {
  type : FacilityType;
  identifier : str;
  frequency : str
}.

(** The property [Facility.name] *)
Definition name (f : Facility) : str := to_name (type f) (identifier f).

Record HandoffManager := {
  _current_facility : option Facility;
  _departure_airport : option str;
  _arrival_airport : option str;
  _last_handoff_altitude : float;
  _handoff_history : list (str * str)
}.

(** [HandoffManager.__init__] *)
Definition init : HandoffManager :=
  {| _current_facility := None;
     _departure_airport := None;
     _arrival_airport := None;
     _last_handoff_altitude := Num 0;
     _handoff_history := [] |}.

(** [x or ""] for an optional string *)
Definition or_empty (x : option str) : str :=
  match x with
  | Some (c :: r) => c :: r
  | _ => []
  end.

(** An early [return] inside an [if]: the first block that returns decides. *)
Definition or_else {A} (x y : option A) : option A :=
  match x with
  | Some a => Some a
  | None => y
  end.

(** [_determine_expected_facility] *)
Definition _determine_expected_facility (self : HandoffManager) (phase : str)
  (altitude : float) (on_ground : bool) : option Facility :=
  let p := py_lower phase in
  or_else
    (if on_ground then
       if str_in "parked" p || str_in "taxi" p then
         Some {| type := GROUND;
                 identifier := or_empty (_departure_airport self);
                 frequency := "121.900" |}
       else None
     else None)
  (or_else
    (if str_in "takeoff" p || str_in "departure" p then
       if flt altitude (Num 3000) then
         Some {| type := TOWER;
                 identifier := or_empty (_departure_airport self);
                 frequency := "118.300" |}
       else if flt altitude (Num 10000) then
         Some {| type := DEPARTURE; identifier := []; frequency := "124.000" |}
       else None
     else None)
  (or_else
    (if str_in "cruise" p || fgt altitude (Num 18000) then
       Some {| type := CENTER; identifier := []; frequency := "127.750" |}
     else None)
    (if str_in "descent" p || str_in "approach" p then
       if fgt altitude (Num 10000) then
         Some {| type := CENTER; identifier := []; frequency := "127.750" |}
       else
         Some {| type := APPROACH; identifier := []; frequency := "124.350" |}
     else None))).

(** [_generate_handoff]: appends to the history and returns the phraseology. *)
Definition _generate_handoff (self : HandoffManager) (to_facility : Facility)
  : HandoffManager * str :=
  let from_name : str :=
    match _current_facility self with
    | Some f => name f
    | None => "frequency"
    end in
  ({| _current_facility := _current_facility self;
      _departure_airport := _departure_airport self;
      _arrival_airport := _arrival_airport self;
      _last_handoff_altitude := _last_handoff_altitude self;
      _handoff_history :=
        _handoff_history self ++ [(from_name, name to_facility)] |},
   "Contact " ++ name to_facility ++ " on " ++ frequency to_facility).

Definition needs_handoff (self : HandoffManager) (expected : Facility) : bool :=
  match _current_facility self with
  | None => true
  | Some cur => negb (type_eqb (type expected) (type cur))
  end.

(** [update] *)
Definition update (self : HandoffManager) (telemetry : option Telemetry)
  (flight_phase : str) : HandoffManager * option str :=
  match telemetry with
  | None => (self, None)
  | Some telemetry =>
    if negb (connected telemetry) then (self, None) else
    let alt_msl := altitude_msl telemetry in
    match _determine_expected_facility self flight_phase alt_msl
            (on_ground telemetry) with
    | Some expected_facility =>
      if needs_handoff self expected_facility then
        let '(self1, phraseology) := _generate_handoff self expected_facility in
        ({| _current_facility := Some expected_facility;
            _departure_airport := _departure_airport self1;
            _arrival_airport := _arrival_airport self1;
            _last_handoff_altitude := alt_msl;
            _handoff_history := _handoff_history self1 |},
         Some phraseology)
      else (self, None)
    | None => (self, None)
    end
  end.

(** The property [current_facility_name] *)
Definition current_facility_name (self : HandoffManager) : str :=
  match _current_facility self with
  | Some f => name f
  | None => "Unknown"
  end.

(** [set_departure_airport] *)
Definition set_departure_airport (self : HandoffManager) (icao : str)
  : HandoffManager :=
  {| _current_facility := _current_facility self;
     _departure_airport := Some icao;
     _arrival_airport := _arrival_airport self;
     _last_handoff_altitude := _last_handoff_altitude self;
     _handoff_history := _handoff_history self |}.

(** [set_arrival_airport] *)
Definition set_arrival_airport (self : HandoffManager) (icao : str)
  : HandoffManager :=
  {| _current_facility := _current_facility self;
     _departure_airport := _departure_airport self;
     _arrival_airport := Some icao;
     _last_handoff_altitude := _last_handoff_altitude self;
     _handoff_history := _handoff_history self |}.

(** [force_handoff_to] *)
Definition force_handoff_to (self : HandoffManager)
  (facility_type : FacilityType) (identifier frequency : str)
  : HandoffManager * str :=
  let new_facility :=
    {| type := facility_type; identifier := identifier;
       frequency := frequency |} in
  let '(self1, phraseology) := _generate_handoff self new_facility in
  ({| _current_facility := Some new_facility;
      _departure_airport := _departure_airport self1;
      _arrival_airport := _arrival_airport self1;
      _last_handoff_altitude := _last_handoff_altitude self1;
      _handoff_history := _handoff_history self1 |},
   phraseology).

(** [reset] *)
Definition reset (self : HandoffManager) : HandoffManager :=
  {| _current_facility := None;
     _departure_airport := None;
     _arrival_airport := None;
     _last_handoff_altitude := Num 0;
     _handoff_history := [] |}.

(** [get_atc_context] *)
Definition get_atc_context (self : HandoffManager) : str :=
  match _current_facility self with
  | Some f => "Currently with: " ++ name f
  | None => "Facility: Unknown"
  end.

End Handoff.

(** ** response_cache.py *)

Module Cache.

Inductive FlightPhase :=
  | PARKED | TAXI_OUT | HOLDING | TAKEOFF | DEPARTURE | CRUISE | DESCENT
  | APPROACH | LANDING | TAXI_IN.

(** [FlightPhase.value] *)
Definition value (p : FlightPhase) : str :=
  match p with
  | PARKED => "parked"
  | TAXI_OUT => "taxi_out"
  | HOLDING => "holding"
  | TAKEOFF => "takeoff"
  | DEPARTURE => "departure"
  | CRUISE => "cruise"
  | DESCENT => "descent"
  | APPROACH => "approach"
  | LANDING => "landing"
  | TAXI_IN => "taxi_in"
  end.

Record CachedResponse := {
  intent_key : str;
  prompt_template : str;
  response_text : str;
  flight_phase : FlightPhase;
  context_hash : str;
  generated_at : Q;
  hit_count : Z
}.

Record CacheStats := {
  hits : Z;
  misses : Z;
  generations : Z;
  invalidations : Z
}.

(** [PHASE_INTENTS] *)
Definition PHASE_INTENTS (p : FlightPhase) : list (str * str) :=
  let e (k d : string) : str * str := (list_ascii_of_string k, list_ascii_of_string d) in
  match p with
  | PARKED =>
    [e "request_taxi" "Pilot requests taxi clearance";
     e "request_ifr_clearance" "Pilot requests IFR clearance";
     e "atis_check" "Pilot has ATIS information"]
  | TAXI_OUT =>
    [e "hold_short_readback" "Pilot reads back hold short";
     e "ready_for_departure" "Pilot reports ready for departure";
     e "request_intersection" "Pilot requests intersection departure"]
  | HOLDING =>
    [e "ready_for_takeoff" "Pilot reports ready for takeoff";
     e "line_up_and_wait" "Pilot acknowledges line up and wait"]
  | TAKEOFF =>
    [e "contact_departure" "Pilot contacts departure";
     e "airborne_check_in" "Pilot checks in after takeoff"]
  | DEPARTURE =>
    [e "altitude_leaving" "Pilot reports leaving altitude";
     e "request_flight_following" "Pilot requests VFR flight following"]
  | CRUISE =>
    [e "position_report" "Pilot gives position report";
     e "request_altitude_change" "Pilot requests altitude change";
     e "weather_request" "Pilot requests weather update";
     e "radio_check" "Pilot requests radio check"]
  | DESCENT =>
    [e "request_lower" "Pilot requests lower altitude";
     e "atis_received" "Pilot reports ATIS received"]
  | APPROACH =>
    [e "airport_in_sight" "Pilot reports airport in sight";
     e "request_straight_in" "Pilot requests straight-in approach";
     e "request_pattern" "Pilot requests pattern entry"]
  | LANDING =>
    [e "clear_of_runway" "Pilot reports clear of runway";
     e "request_taxi_parking" "Pilot requests taxi to parking"]
  | TAXI_IN =>
    [e "at_gate" "Pilot reports at gate/parking"]
  end.

(** *** A Python [dict] with string keys: insertion-ordered, keys unique. *)

Section Dict.
Context {V : Type}.

Fixpoint dict_get (k : str) (d : list (str * V)) : option V :=
  match d with
  | [] => None
  | (k', v) :: d' => if str_eqb k k' then Some v else dict_get k d'
  end.

(** [d[k] = v]: an existing key keeps its place, a new one goes last. *)
Fixpoint dict_set (k : str) (v : V) (d : list (str * V)) : list (str * V) :=
  match d with
  | [] => [(k, v)]
  | (k', v') :: d' =>
    if str_eqb k k' then (k, v) :: d' else (k', v') :: dict_set k v d'
  end.

(** [del d[k]] for a key that is present; keys are unique in a [dict]. *)
Definition dict_del (k : str) (d : list (str * V)) : list (str * V) :=
  filter (fun kv => negb (str_eqb k (fst kv))) d.
End Dict.

Record SpeculativeCache := {
  generate_func : str -> option str;
  max_cache_size : Z;
  ttl_seconds : Q;
  _cache : list (str * CachedResponse);
  _stats : CacheStats;
  _current_context_hash : str;
  _generation_queue : list (str * str * FlightPhase)
}.

(** [SpeculativeCache.__init__].  [generate_func] returns [None] when the
    injected callable raises. *)
Definition init (generate_func : str -> option str) (max_cache_size : Z)
  (ttl_seconds : Q) : SpeculativeCache :=
  {| generate_func := generate_func;
     max_cache_size := max_cache_size;
     ttl_seconds := ttl_seconds;
     _cache := [];
     _stats := {| hits := 0; misses := 0; generations := 0; invalidations := 0 |};
     _current_context_hash := [];
     _generation_queue := [] |}.

Definition with_cache (self : SpeculativeCache)
  (c : list (str * CachedResponse)) (st : CacheStats) : SpeculativeCache :=
  {| generate_func := generate_func self;
     max_cache_size := max_cache_size self;
     ttl_seconds := ttl_seconds self;
     _cache := c;
     _stats := st;
     _current_context_hash := _current_context_hash self;
     _generation_queue := _generation_queue self |}.

Definition count_miss (st : CacheStats) : CacheStats :=
  {| hits := hits st; misses := (misses st + 1)%Z;
     generations := generations st; invalidations := invalidations st |}.

Definition count_hit (st : CacheStats) : CacheStats :=
  {| hits := (hits st + 1)%Z; misses := misses st;
     generations := generations st; invalidations := invalidations st |}.

Definition bump_hit_count (e : CachedResponse) : CachedResponse :=
  {| intent_key := intent_key e;
     prompt_template := prompt_template e;
     response_text := response_text e;
     flight_phase := flight_phase e;
     context_hash := context_hash e;
     generated_at := generated_at e;
     hit_count := (hit_count e + 1)%Z |}.

(** [get]; [now] is the reading of [time.time()]. *)
Definition get (self : SpeculativeCache) (now : Q) (intent_key : str)
  : SpeculativeCache * option str :=
  match dict_get intent_key (_cache self) with
  | None => (with_cache self (_cache self) (count_miss (_stats self)), None)
  | Some entry =>
    let age := (now - generated_at entry)%Q in
    if Qltb (ttl_seconds self) age then
      (with_cache self (dict_del intent_key (_cache self))
         (count_miss (_stats self)), None)
    else if negb (str_eqb (context_hash entry) (_current_context_hash self)) then
      (with_cache self (_cache self) (count_miss (_stats self)), None)
    else
      (with_cache self
         (dict_set intent_key (bump_hit_count entry) (_cache self))
         (count_hit (_stats self)),
       Some (response_text entry))
  end.

(** [_invalidate_cache] *)
Definition _invalidate_cache (self : SpeculativeCache) : SpeculativeCache :=
  with_cache self []
    {| hits := hits (_stats self); misses := misses (_stats self);
       generations := generations (_stats self);
       invalidations := (invalidations (_stats self) + 1)%Z |}.

Definition newline : str := [ascii_of_nat 10].

(** [_build_prompt] *)
Definition _build_prompt (intent airport runway callsign frequency : str) : str :=
  "You are ATC at " ++ airport ++ ". Active runway is " ++ runway ++ "."
  ++ newline ++ "        " ++ newline
  ++ "The pilot (" ++ callsign ++ ") on frequency " ++ frequency
  ++ " makes this request:" ++ newline
  ++ intent ++ newline ++ newline
  ++ "Respond with proper ATC phraseology. Be brief and realistic.".

(** [_queue_phase_generations] *)
Definition _queue_phase_generations (self : SpeculativeCache)
  (phase : FlightPhase) (airport runway callsign frequency : str)
  : SpeculativeCache :=
  let intents := PHASE_INTENTS phase in
  {| generate_func := generate_func self;
     max_cache_size := max_cache_size self;
     ttl_seconds := ttl_seconds self;
     _cache := _cache self;
     _stats := _stats self;
     _current_context_hash := _current_context_hash self;
     _generation_queue :=
       _generation_queue self ++
       map (fun i => (fst i,
                      _build_prompt (snd i) airport runway callsign frequency,
                      phase)) intents |}.

Section Context_hash.
(** [hashlib.md5(s.encode()).hexdigest()], from the Python library. *)
Variable md5_hexdigest : str -> str.

(** The fingerprint computed by [update_context]. *)
Definition fingerprint (phase : FlightPhase)
  (airport runway callsign frequency : str) : str :=
  let context_str :=
    value phase ++ "|" ++ airport ++ "|" ++ runway ++ "|" ++ callsign
    ++ "|" ++ frequency in
  firstn 8 (md5_hexdigest context_str).

(** [update_context] *)
Definition update_context (self : SpeculativeCache) (phase : FlightPhase)
  (airport runway callsign frequency : str) : SpeculativeCache :=
  let new_hash := fingerprint phase airport runway callsign frequency in
  if negb (str_eqb new_hash (_current_context_hash self)) then
    let self1 := _invalidate_cache self in
    let self2 :=
      {| generate_func := generate_func self1;
         max_cache_size := max_cache_size self1;
         ttl_seconds := ttl_seconds self1;
         _cache := _cache self1;
         _stats := _stats self1;
         _current_context_hash := new_hash;
         _generation_queue := _generation_queue self1 |} in
    _queue_phase_generations self2 phase airport runway callsign frequency
  else self.
End Context_hash.

(** [sorted(items, key=generated_at)]: a stable insertion sort. *)
Fixpoint insert_by_age (x : str * CachedResponse)
  (l : list (str * CachedResponse)) : list (str * CachedResponse) :=
  match l with
  | [] => [x]
  | y :: l' =>
    if Qltb (generated_at (snd y)) (generated_at (snd x))
    then y :: insert_by_age x l'
    else x :: l
  end.

Definition sorted_by_age (l : list (str * CachedResponse))
  : list (str * CachedResponse) :=
  fold_right insert_by_age [] l.

(** [_trim_cache] *)
Definition _trim_cache (self : SpeculativeCache) : SpeculativeCache :=
  if (Z.of_nat (length (_cache self)) <=? max_cache_size self)%Z then self
  else
    let sorted_entries := sorted_by_age (_cache self) in
    let to_remove :=
      Z.to_nat (Z.of_nat (length (_cache self)) - max_cache_size self) in
    with_cache self
      (fold_left (fun c e => dict_del (fst e) c)
         (firstn to_remove sorted_entries) (_cache self))
      (_stats self).

(** [_generate_and_cache]; [now] is the clock reading once the generation
    has returned.  The entry is tagged with the fingerprint current then. *)
Definition _generate_and_cache (self : SpeculativeCache) (now : Q)
  (intent_key prompt : str) (phase : FlightPhase) : SpeculativeCache :=
  match generate_func self prompt with
  | Some (c :: r) =>
    let response := c :: r in
    let entry :=
      {| intent_key := intent_key;
         prompt_template := prompt;
         response_text := response;
         flight_phase := phase;
         context_hash := _current_context_hash self;
         generated_at := now;
         hit_count := 0 |} in
    _trim_cache
      (with_cache self (dict_set intent_key entry (_cache self))
         {| hits := hits (_stats self); misses := misses (_stats self);
            generations := (generations (_stats self) + 1)%Z;
            invalidations := invalidations (_stats self) |})
  | _ => self
  end.

(** One turn of [_generation_loop] with a non-empty queue. *)
Definition generation_step (self : SpeculativeCache) (now : Q)
  : SpeculativeCache :=
  match _generation_queue self with
  | [] => self
  | (intent_key, prompt, phase) :: rest =>
    _generate_and_cache
      {| generate_func := generate_func self;
         max_cache_size := max_cache_size self;
         ttl_seconds := ttl_seconds self;
         _cache := _cache self;
         _stats := _stats self;
         _current_context_hash := _current_context_hash self;
         _generation_queue := rest |}
      now intent_key prompt phase
  end.

(** The [keywords_map] of [fuzzy_match], in its order. *)
Definition keywords_map : list (str * list str) :=
  let e (k : string) (kws : list string) : str * list str :=
    (list_ascii_of_string k, map list_ascii_of_string kws) in
  [ e "request_taxi" ["taxi"; "clearance"; "ground"];
    e "ready_for_departure" ["ready"; "departure"; "takeoff"];
    e "hold_short_readback" ["hold short"; "holding short"];
    e "request_flight_following" ["flight following"; "vfr"; "advisories"];
    e "position_report" ["position"; "over"; "reporting"];
    e "airport_in_sight" ["airport in sight"; "field in sight"];
    e "clear_of_runway" ["clear"; "runway"; "off the runway"];
    e "radio_check" ["radio check"; "how do you read"] ].

(** The loop of [fuzzy_match] over the entries still to be tried.  Each
    [get] reads the clock; [now_of] gives the reading of the call made for
    an intent. *)
Fixpoint fuzzy_loop (self : SpeculativeCache) (now_of : str -> Q)
  (message_lower : str) (entries : list (str * list str))
  : SpeculativeCache * option (str * str) :=
  match entries with
  | [] => (self, None)
  | (intent_key, keywords) :: rest =>
    if existsb (fun kw => str_in kw message_lower) keywords then
      match get self (now_of intent_key) intent_key with
      | (self1, Some (c :: r)) => (self1, Some (intent_key, c :: r))
      | (self1, _) => fuzzy_loop self1 now_of message_lower rest
      end
    else fuzzy_loop self now_of message_lower rest
  end.

(** [fuzzy_match] *)
Definition fuzzy_match (self : SpeculativeCache) (now_of : str -> Q)
  (pilot_message : str) : SpeculativeCache * option (str * str) :=
  fuzzy_loop self now_of (py_lower pilot_message) keywords_map.

(** [get_stats] *)
Definition get_stats (self : SpeculativeCache) : CacheStats := _stats self.

(** The property [CacheStats.hit_rate] *)
Definition hit_rate (st : CacheStats) : Q :=
  let total := (hits st + misses st)%Z in
  if (0 <? total)%Z then (inject_Z (hits st) / inject_Z total)%Q else 0.

End Cache.

(** ** streaming_llm.py *)

Module Streaming.

(** [PHRASE_BOUNDARIES.search(buffer)]: one of [. ! ? , ; :] or a newline
    occurs in the buffer. *)
Definition is_boundary_char (c : ascii) : bool :=
  char_in c ".!?,;:" || (ord c =? 10).

Definition has_phrase_boundary (buffer : str) : bool :=
  existsb is_boundary_char buffer.

Record StreamChunk := {
  text : str;
  is_final : bool;
  latency_ms : Q
}.

Record StreamingLLM := {
  model : str;
  ollama_url : str;
  min_chunk_chars : Z;
  max_chunk_chars : Z
}.

(** One line delivered by [response.iter_lines()]: an empty keep-alive line,
    a line [json.loads] rejects, or an object with its ["response"] and
    ["done"] members (absent members take the defaults [""] and [False]). *)
Inductive Line :=
  | Blank
  | Malformed
  | Data (token : str) (done : bool).

(** What the loop observes when a line arrives: whether [_stop_event] is
    set, the clock reading, and the line. *)
Record Arrival := {
  stop_set : bool;
  now : Q;
  line : Line
}.

(** [_should_emit_chunk] *)
Definition _should_emit_chunk (self : StreamingLLM) (buffer : str)
  (is_done : bool) : bool :=
  if is_done then true
  else if (max_chunk_chars self <=? Z.of_nat (length buffer))%Z then true
  else if (min_chunk_chars self <=? Z.of_nat (length buffer))%Z
          && has_phrase_boundary buffer then true
  else false.

(** [_extract_chunk] *)
Definition _extract_chunk (buffer : str) (is_final : bool)
  (start_time clock : Q) : StreamChunk :=
  {| text := strip buffer;
     is_final := is_final;
     latency_ms := ((clock - start_time) * 1000)%Q |}.

Definition nonempty (s : str) : bool :=
  match s with
  | [] => false
  | _ => true
  end.

(** The [for line in response.iter_lines()] loop of [generate_stream], with
    the buffer as accumulator; the result is the sequence of yielded chunks. *)
Fixpoint consume (self : StreamingLLM) (start_time : Q) (buffer : str)
  (lines : list Arrival) : list StreamChunk :=
  match lines with
  | [] => []
  | a :: rest =>
    if stop_set a then []
    else
      match line a with
      | Blank => consume self start_time buffer rest
      | Malformed => consume self start_time buffer rest
      | Data token done =>
        let '(buffer1, emitted) :=
          if nonempty token then
            let buffer' := buffer ++ token in
            if _should_emit_chunk self buffer' done
            then ([], [_extract_chunk buffer' done start_time (now a)])
            else (buffer', [])
          else (buffer, []) in
        if done then
          emitted ++
          (if nonempty (strip buffer1)
           then [{| text := strip buffer1;
                    is_final := true;
                    latency_ms := ((now a - start_time) * 1000)%Q |}]
           else [])
        else emitted ++ consume self start_time buffer1 rest
      end
  end.

(** The outcome of [requests.post] and [raise_for_status]. *)
Inductive Backend :=
  | Timeout (clock : Q)
  | ConnectionError
  | OtherError
  | Streamed (lines : list Arrival).

(** [generate_stream] without callback: the chunks the generator yields. *)
Definition generate_stream (self : StreamingLLM) (start_time : Q)
  (backend : Backend) : list StreamChunk :=
  match backend with
  | Timeout clock =>
    [{| text := []; is_final := true;
        latency_ms := ((clock - start_time) * 1000)%Q |}]
  | ConnectionError => [{| text := []; is_final := true; latency_ms := 0 |}]
  | OtherError => [{| text := []; is_final := true; latency_ms := 0 |}]
  | Streamed lines => consume self start_time [] lines
  end.

(** The lines of a backend that sends the given tokens one per line at the
    given clock reading, the last one carrying [done]. *)
Fixpoint token_lines (clock : Q) (tokens : list str) : list Arrival :=
  match tokens with
  | [] => []
  | [t] => [{| stop_set := false; now := clock; line := Data t true |}]
  | t :: rest =>
    {| stop_set := false; now := clock; line := Data t false |}
    :: token_lines clock rest
  end.

(** [" ".join(parts)] *)
Fixpoint join_space (parts : list str) : str :=
  match parts with
  | [] => []
  | [p] => p
  | p :: rest => p ++ " " ++ join_space rest
  end.

(** The chunks received by a [for] loop that leaves at the first final
    chunk; the generator is not resumed after the [break]. *)
Fixpoint until_final (chunks : list StreamChunk) : list StreamChunk :=
  match chunks with
  | [] => []
  | c :: rest => if is_final c then [c] else c :: until_final rest
  end.

(** What [StreamingATCController.process_request] does: its result, the
    texts passed to [speak_func], in order, and the text computed for
    [on_complete]. *)
Record Processed := {
  started : bool;
  spoken : list str;
  complete_text : option str
}.

(** [process_request], for a [speak_func] that returns; [available] is the
    answer of [llm.is_available()]. *)
Definition process_request (llm : StreamingLLM) (available : bool)
  (start_time : Q) (backend : Backend) : Processed :=
  if negb available then
    {| started := false; spoken := []; complete_text := None |}
  else
    let chunks := until_final (generate_stream llm start_time backend) in
    let full_response := filter nonempty (map text chunks) in
    {| started := true;
       spoken := full_response;
       complete_text := Some (join_space full_response) |}.

End Streaming.

(** ** The fragment of [re] used by validation.py

    A backtracking matcher with Python's priorities: alternatives left to
    right, greedy repetition longest first, lazy repetition shortest first,
    the first success wins.  Repetition is over a character class, which is
    all the patterns of the module need.  The matcher is written in
    continuation-passing style: the continuation receives the character
    before the current position (for [\b]) and the rest of the text. *)

Module Re.

Inductive re :=
  | Eps
  | Chr (p : ascii -> bool)
  | Cat (a b : re)
  | Alt (a b : re)
  | Star (p : ascii -> bool)
  | StarLazy (p : ascii -> bool)
  | WordB.

Definition is_word (c : option ascii) : bool :=
  match c with
  | Some c => re_word c
  | None => false
  end.

(** [\b]: exactly one side is a word character. *)
Definition at_boundary (prev : option ascii) (s : str) : bool :=
  xorb (is_word prev) (is_word (hd_error s)).

Section Matcher.
Context {A : Type}.

Fixpoint star_greedy (p : ascii -> bool) (prev : option ascii) (s : str)
  (k : option ascii -> str -> option A) : option A :=
  match s with
  | c :: s' =>
    if p c then
      match star_greedy p (Some c) s' k with
      | Some x => Some x
      | None => k prev s
      end
    else k prev s
  | [] => k prev s
  end.

Fixpoint star_lazy (p : ascii -> bool) (prev : option ascii) (s : str)
  (k : option ascii -> str -> option A) : option A :=
  match k prev s with
  | Some x => Some x
  | None =>
    match s with
    | c :: s' => if p c then star_lazy p (Some c) s' k else None
    | [] => None
    end
  end.

Fixpoint exec (r : re) (prev : option ascii) (s : str)
  (k : option ascii -> str -> option A) : option A :=
  match r with
  | Eps => k prev s
  | Chr p =>
    match s with
    | c :: s' => if p c then k (Some c) s' else None
    | [] => None
    end
  | Cat a b => exec a prev s (fun prev' s' => exec b prev' s' k)
  | Alt a b =>
    match exec a prev s k with
    | Some x => Some x
    | None => exec b prev s k
    end
  | Star p => star_greedy p prev s k
  | StarLazy p => star_lazy p prev s k
  | WordB => if at_boundary prev s then k prev s else None
  end.
End Matcher.

(** A pattern with one capturing group: what precedes the group, the group,
    what follows it. *)
Record pattern := {
  before : re;
  group : re;
  after : re
}.

Definition plain (r : re) : pattern :=
  {| before := r; group := Eps; after := Eps |}.

(** A match at the current position: the captured text and the number of
    characters consumed. *)
Definition match_here (p : pattern) (prev : option ascii) (s : str)
  : option (str * nat) :=
  exec (before p) prev s (fun p1 s1 =>
  exec (group p) p1 s1 (fun p2 s2 =>
  exec (after p) p2 s2 (fun _ s3 =>
    Some (firstn (length s1 - length s2) s1, length s - length s3)))).

(** [re.search(p, s)] as a truth value. *)
Fixpoint search_from (p : pattern) (prev : option ascii) (s : str) : bool :=
  match match_here p prev s with
  | Some _ => true
  | None =>
    match s with
    | c :: s' => search_from p (Some c) s'
    | [] => false
    end
  end.

Definition search (r : re) (s : str) : bool := search_from (plain r) None s.

(** The scan shared by [re.sub] and [re.findall]: leftmost matches that do
    not overlap.  [skip] counts the characters of the current match still to
    be passed over.  The patterns of the module match no empty string; an
    empty match is treated as no match. *)
Fixpoint sub_from (p : pattern) (repl : str) (skip : nat)
  (prev : option ascii) (s : str) : str :=
  match s with
  | [] => []
  | c :: s' =>
    match skip with
    | S n => sub_from p repl n (Some c) s'
    | O =>
      match match_here p prev s with
      | Some (_, S n) => repl ++ sub_from p repl n (Some c) s'
      | _ => c :: sub_from p repl 0 (Some c) s'
      end
    end
  end.

(** [re.sub(p, repl, s)] *)
Definition sub (r : re) (repl : str) (s : str) : str :=
  sub_from (plain r) repl 0 None s.

Fixpoint findall_from (p : pattern) (skip : nat) (prev : option ascii)
  (s : str) : list str :=
  match s with
  | [] => []
  | c :: s' =>
    match skip with
    | S n => findall_from p n (Some c) s'
    | O =>
      match match_here p prev s with
      | Some (g, S n) => g :: findall_from p n (Some c) s'
      | _ => findall_from p 0 (Some c) s'
      end
    end
  end.

(** [re.findall(p, s)] for a pattern with one group. *)
Definition findall (p : pattern) (s : str) : list str :=
  findall_from p 0 None s.

(** [re.search(p, s).group(1)]: the text captured by the leftmost match,
    [None] when there is no match. *)
Fixpoint search_group_from (p : pattern) (prev : option ascii) (s : str)
  : option str :=
  match match_here p prev s with
  | Some (g, _) => Some g
  | None =>
    match s with
    | c :: s' => search_group_from p (Some c) s'
    | [] => None
    end
  end.

Definition search_group (p : pattern) (s : str) : option str :=
  search_group_from p None s.

(** *** Building patterns *)

(** A literal character under [re.IGNORECASE]. *)
Definition ci (x : ascii) : ascii -> bool :=
  fun c => ascii_eqb (py_lower_char c) (py_lower_char x).

(** A literal character, case-sensitive. *)
Definition cs (x : ascii) : ascii -> bool := fun c => ascii_eqb c x.

Fixpoint lit_i (s : str) : re :=
  match s with
  | [] => Eps
  | [c] => Chr (ci c)
  | c :: s' => Cat (Chr (ci c)) (lit_i s')
  end.

Fixpoint seq (rs : list re) : re :=
  match rs with
  | [] => Eps
  | [r] => r
  | r :: rs' => Cat r (seq rs')
  end.

Fixpoint alts (rs : list re) : re :=
  match rs with
  | [] => Eps
  | [r] => r
  | r :: rs' => Alt r (alts rs')
  end.

(** [.]: any character but the newline. *)
Definition dot : ascii -> bool := fun c => negb (ord c =? 10).

(** [r{n}] *)
Fixpoint rep (n : nat) (r : re) : re :=
  match n with
  | O => Eps
  | S n' => Cat r (rep n' r)
  end.

(** [r{0,n}], greedy *)
Fixpoint upto (n : nat) (r : re) : re :=
  match n with
  | O => Eps
  | S n' => Alt (Cat r (upto n' r)) Eps
  end.

(** [c+] and [c*] for a class *)
Definition plus (p : ascii -> bool) : re := Cat (Chr p) (Star p).

(** [(?:r)?], greedy *)
Definition opt (r : re) : re := Alt r Eps.

End Re.

(** ** validation.py *)

Module Validation.
Import Re.

Record ValidationResult := {
  valid : bool;
  cleaned_response : str;
  issues : list str;
  original_response : str;
  warnings : list str
}.

Definition sp : ascii -> bool := py_isspace.
Definition d : re := Chr re_digit.
Definition lit (s : string) : re := lit_i (list_ascii_of_string s).

(** [SUSPICIOUS_PATTERNS] *)
Definition SUSPICIOUS_PATTERNS : list (re * str) :=
  let e (r : re) (desc : string) : re * str := (r, list_ascii_of_string desc) in
  [ e (seq [lit "<|"; StarLazy dot; lit "|>"]) "LLM control token";
    e (lit "[INST]") "Instruction marker";
    e (lit "[/INST]") "Instruction marker";
    e (lit "<<SYS>>") "System prompt marker";
    e (lit "<</SYS>>") "System prompt marker";
    e (seq [lit "###"; Star sp;
            alts [lit "Human"; lit "Assistant"; lit "System"]; lit ":"])
      "Chat role marker";
    e (lit "```") "Code block";
    e (lit "<script") "Script tag";
    e (seq [lit "function"; Star sp; lit "("]) "JavaScript function";
    e (seq [lit "def"; plus sp; plus re_word; Star sp; lit "("])
      "Python function";
    e (lit "As an AI") "AI self-reference";
    e (lit "I'm an AI") "AI self-reference";
    e (lit "language model") "AI self-reference";
    e (lit "I cannot") "Refusal phrase";
    e (lit "I'm sorry, but") "Apology phrase" ].

(** [[A-Z]] under [re.IGNORECASE] *)
Definition letter : ascii -> bool :=
  fun c => in_range 65 90 c || in_range 97 122 c.

(** [PROHIBITED_PHRASES] *)
Definition PROHIBITED_PHRASES : list (re * str) :=
  let e (r : re) (desc : string) : re * str := (r, list_ascii_of_string desc) in
  [ e (seq [WordB; lit "cleared to take"; Star sp; lit "off"; WordB])
      "Use 'cleared for takeoff' (Tower only)";
    e (seq [WordB; lit "taking off"; WordB]) "Use 'departing' instead";
    e (seq [WordB; lit "with you"; WordB])
      "Just state position, don't say 'with you'";
    e (seq [WordB; lit "back to you"; WordB]) "Use proper handoff phraseology";
    e (seq [WordB; lit "affirmative"; WordB])
      "Use specific readback for clearances";
    e (seq [WordB; lit "this is "; Chr letter])
      "Don't say 'this is', start with callsign";
    e (seq [WordB; lit "any traffic"; plus dot; lit "advise"; WordB])
      "Discouraged - use standard position reports instead" ].

(** [IFR_SCOPE_VIOLATIONS] *)
Definition IFR_SCOPE_VIOLATIONS : list (re * str) :=
  let e (r : re) (desc : string) : re * str := (r, list_ascii_of_string desc) in
  [ e (seq [WordB; lit "cleared"; Star dot; lit "ILS"; WordB])
      "IFR approach - out of scope";
    e (seq [WordB; lit "cleared"; Star dot; lit "approach"; WordB])
      "IFR approach - out of scope";
    e (seq [WordB; lit "cleared"; Star dot; lit "SID"; WordB])
      "SID - out of scope";
    e (seq [WordB; lit "cleared"; Star dot; lit "STAR"; WordB])
      "STAR - out of scope";
    e (seq [WordB; lit "hold as published"; WordB])
      "Holding pattern - out of scope";
    e (seq [WordB; lit "expect"; Star dot; lit "vectors"; WordB])
      "IFR vectors - out of scope";
    e (seq [WordB; lit "cleared to"; Star dot; lit "via"; WordB])
      "IFR routing - out of scope" ].

(** [ATC_VALIDATION_RULES] *)
Definition altitude_max : N := 60000.
Definition freq_min : Q := 118.
Definition freq_max : Q := 137.
Definition squawk_max : N := 7777.

(** [(\d{1,6})\s*(?:feet|ft|')] *)
Definition altitude_pattern : pattern :=
  {| before := Eps;
     group := Cat d (upto 5 d);
     after := Cat (Star sp) (alts [lit "feet"; lit "ft"; lit "'"]) |}.

(** [FL\s*(\d{2,3})] *)
Definition fl_pattern : pattern :=
  {| before := Cat (lit "FL") (Star sp);
     group := Cat (rep 2 d) (upto 1 d);
     after := Eps |}.

(** [(\d{3}[.,]\d{1,3})] *)
Definition freq_pattern : pattern :=
  {| before := Eps;
     group := seq [rep 3 d; Chr (fun c => cs "." c || cs "," c); d; upto 2 d];
     after := Eps |}.

(** [squawk\s*(\d{4})] *)
Definition squawk_pattern : pattern :=
  {| before := Cat (lit "squawk") (Star sp);
     group := rep 4 d;
     after := Eps |}.

Definition digit_value (c : ascii) : N := N.of_nat (ord c - 48).

(** [int(s)] on a string of decimal digits; [None] stands for [ValueError]. *)
Definition py_int (s : str) : option N :=
  match s with
  | [] => None
  | _ =>
    if forallb re_digit s
    then Some (fold_left (fun acc c => (10 * acc + digit_value c)%N) s 0%N)
    else None
  end.

Fixpoint split_at_dot (s : str) : option (str * str) :=
  match s with
  | [] => None
  | c :: s' =>
    if cs "." c then Some ([], s')
    else match split_at_dot s' with
         | Some (a, b) => Some (c :: a, b)
         | None => None
         end
  end.

(** [float(s)] on a decimal numeral with digits on both sides of the point,
    the only shape [freq_pattern] captures; [None] stands for [ValueError]. *)
Definition py_float (s : str) : option Q :=
  match split_at_dot s with
  | Some (a, b) =>
    match py_int a, py_int b with
    | Some ip, Some fp =>
      let scale := (10 ^ Z.of_nat (length b))%Z in
      Some ((Z.of_N ip * scale + Z.of_N fp)%Z # Z.to_pos scale)
    | _, _ => None
    end
  | None => None
  end.

(** [s.replace(",", ".")] *)
Definition comma_to_dot (s : str) : str :=
  map (fun c => if cs "," c then "."%char else c) s.

(** The body of the loop over [SUSPICIOUS_PATTERNS]: the issues recorded so
    far and the text with the matches found so far removed. *)
Definition suspicious_step (acc : list str * str) (pd : re * str)
  : list str * str :=
  let '(issues, cleaned) := acc in
  if search (fst pd) cleaned
  then (issues ++ ["Contains " ++ snd pd], sub (fst pd) [] cleaned)
  else (issues, cleaned).

Definition scan_suspicious (cleaned : str) : list str * str :=
  fold_left suspicious_step SUSPICIOUS_PATTERNS ([], cleaned).

Definition scan_warnings (label : str) (table : list (re * str))
  (cleaned : str) : list str :=
  flat_map
    (fun pd => if search (fst pd) cleaned then [label ++ snd pd] else [])
    table.

Definition altitude_issues (cleaned : str) : list str :=
  flat_map
    (fun alt_str =>
       match py_int alt_str with
       | Some alt =>
         if (altitude_max <? alt)%N
         then ["Unrealistic altitude: " ++ str_of_N alt ++ "ft"]
         else []
       | None => []
       end)
    (findall altitude_pattern cleaned).

Definition flight_level_issues (cleaned : str) : list str :=
  flat_map
    (fun fl_str =>
       match py_int fl_str with
       | Some n =>
         let fl := (n * 100)%N in
         if (altitude_max <? fl)%N
         then ["Unrealistic flight level: FL" ++ fl_str]
         else []
       | None => []
       end)
    (findall fl_pattern cleaned).

Definition frequency_issues (cleaned : str) : list str :=
  flat_map
    (fun freq_str =>
       match py_float (comma_to_dot freq_str) with
       | Some freq =>
         if negb (Qleb freq_min freq && Qleb freq freq_max) then
           if negb (Qleb 0 freq && Qleb freq 7777)
           then ["Invalid frequency: " ++ freq_str]
           else []
         else []
       | None => []
       end)
    (findall freq_pattern cleaned).

Definition squawk_issues (cleaned : str) : list str :=
  flat_map
    (fun squawk_str =>
       if existsb (fun c => char_in c squawk_str) "89"
       then ["Invalid squawk code (contains 8 or 9): " ++ squawk_str]
       else
         match py_int squawk_str with
         | Some n =>
           if (squawk_max <? n)%N
           then ["Invalid squawk code: " ++ squawk_str]
           else []
         | None => []
         end)
    (findall squawk_pattern cleaned).

Definition taxi_warning (cleaned : str) : list str :=
  if search (seq [WordB; lit "taxi"; WordB; Star dot; WordB; lit "runway"; WordB])
       cleaned
  then
    if negb (search (lit "hold short") cleaned)
    then [list_ascii_of_string
            "Taxi instruction should include 'hold short' when crossing runways"]
    else []
  else [].

Definition dquote : str := [ascii_of_nat 34].
Definition squote : str := [ascii_of_nat 39].

(** [s[1:-1]] *)
Definition slice_1_m1 (s : str) : str := removelast (tl s).

Definition unquote (q : str) (s : str) : str :=
  if startswith s q && endswith s q then slice_1_m1 s else s.

(** The cleanup before the length check: strip, drop one pair of enclosing
    quotes of each kind, collapse runs of whitespace. *)
Definition tidy (cleaned : str) : str :=
  sub (plus sp) " " (unquote squote (unquote dquote (strip cleaned))).

(** The keywords that make an issue count against validity. *)
Definition critical_keywords : list str :=
  map list_ascii_of_string
    ["LLM control"; "System prompt"; "Script tag"; "Empty"; "too short"].

Definition is_critical (i : str) : bool :=
  existsb (fun kw => str_in kw i) critical_keywords.

(** [validate_atc_response] *)
Definition validate_atc_response (response : str) : ValidationResult :=
  match response with
  | [] =>
    {| valid := false;
       cleaned_response := [];
       issues := [list_ascii_of_string "Empty response"];
       original_response := [];
       warnings := [] |}
  | _ =>
    let cleaned := strip response in
    let original := cleaned in
    let '(issues, cleaned) := scan_suspicious cleaned in
    let warnings := scan_warnings "Prohibited: " PROHIBITED_PHRASES cleaned in
    let warnings :=
      warnings ++ scan_warnings "SCOPE: " IFR_SCOPE_VIOLATIONS cleaned in
    let issues := issues ++ altitude_issues cleaned in
    let issues := issues ++ flight_level_issues cleaned in
    let issues := issues ++ frequency_issues cleaned in
    let issues := issues ++ squawk_issues cleaned in
    let warnings := warnings ++ taxi_warning cleaned in
    let cleaned := tidy cleaned in
    let issues :=
      issues ++
      (if length cleaned <? 5
       then [list_ascii_of_string "Response too short"] else []) in
    let critical_issues := filter is_critical issues in
    {| valid := length critical_issues =? 0;
       cleaned_response :=
         match cleaned with
         | [] => "Say again"
         | _ => cleaned
         end;
       issues := issues;
       original_response := original;
       warnings := warnings |}
  end.

(** [(\d+[LRC]?)] under [re.IGNORECASE] *)
Definition runway_id : re :=
  Cat (plus re_digit)
      (opt (Chr (fun c => ci "L" c || ci "R" c || ci "C" c))).

(** [hold short (?:of )?runway (\d+[LRC]?)] *)
Definition hold_short_pattern : pattern :=
  {| before := seq [lit "hold short "; opt (lit "of "); lit "runway "];
     group := runway_id;
     after := Eps |}.

(** [cleared (?:for |to )?(?:takeoff|land|the option)] *)
Definition clearance : re :=
  seq [lit "cleared "; opt (alts [lit "for "; lit "to "]);
       alts [lit "takeoff"; lit "land"; lit "the option"]].

(** [runway (\d+[LRC]?)] *)
Definition runway_pattern : pattern :=
  {| before := lit "runway "; group := runway_id; after := Eps |}.

(** [(?:contact|monitor).*?(\d{3}\.\d{1,3})] *)
Definition contact_pattern : pattern :=
  {| before := Cat (alts [lit "contact"; lit "monitor"]) (StarLazy dot);
     group := seq [rep 3 d; Chr (cs "."); d; upto 2 d];
     after := Eps |}.

(** [check_readback_required] *)
Definition check_readback_required (atc_instruction : str) : list str :=
  let requires_readback :=
    if search (lit "hold short") atc_instruction then
      match search_group hold_short_pattern atc_instruction with
      | Some g => ["Hold short runway " ++ g]
      | None => [list_ascii_of_string "Hold short instruction"]
      end
    else [] in
  let requires_readback :=
    requires_readback ++
    (if search clearance atc_instruction then
       match search_group runway_pattern atc_instruction with
       | Some g => ["Runway " ++ g]
       | None => []
       end
     else []) in
  let requires_readback :=
    requires_readback ++
    match search_group contact_pattern atc_instruction with
    | Some g => ["Frequency " ++ g]
    | None => []
    end in
  requires_readback ++
  match search_group squawk_pattern atc_instruction with
  | Some g => ["Squawk " ++ g]
  | None => []
  end.

(** The class [[<>{}[\]|\\^~`]] of [sanitize_for_tts]. *)
Definition tts_unsafe (c : ascii) : bool := char_in c "<>{}[]|\^~`".

(** [s.replace(x, '')] for a one-character [x]. *)
Definition remove_char (x : ascii) (s : str) : str :=
  filter (fun c => negb (ascii_eqb c x)) s.

(** [sanitize_for_tts] *)
Definition sanitize_for_tts (text : str) : str :=
  let text := sub (Chr tts_unsafe) [] text in
  let text := remove_char (ascii_of_nat 39) (remove_char (ascii_of_nat 34) text) in
  let text := sub (plus sp) " " text in
  strip text.

(** [get_fallback_response] *)
Definition get_fallback_response : str := "Stand by".

(** [is_within_scope] *)
Definition is_within_scope (response : str) : bool * str :=
  match filter (fun pd => search (fst pd) response) IFR_SCOPE_VIOLATIONS with
  | pd :: _ => (false, snd pd)
  | [] => (true, [])
  end.

End Validation.

(** ** copilot.py, and the parser of squawk.py it calls *)

Module CoPilot.
Import Re Squawk.

(** A literal, case-sensitive. *)
Fixpoint lit_s (s : str) : re :=
  match s with
  | [] => Eps
  | [c] => Chr (cs c)
  | c :: s' => Cat (Chr (cs c)) (lit_s s')
  end.

(** [s.replace(old, new)] for a non-empty [old]: the occurrences found
    from the left, not overlapping.  [skip] counts the characters of the
    current occurrence still to be passed over. *)
Fixpoint replace_from (old new : str) (skip : nat) (s : str) : str :=
  match s with
  | [] => []
  | c :: s' =>
    match skip with
    | S n => replace_from old new n s'
    | O =>
      if startswith s old
      then new ++ replace_from old new (length old - 1) s'
      else c :: replace_from old new 0 s'
    end
  end.

Definition replace (old new s : str) : str := replace_from old new 0 s.

(** [squawk\s+(\d{4})].  On the code points of [str] the class [\d] is
    the digits 0 to 9; on wider text Python's [\d] also takes the other
    decimal digits, so no statement below relies on a captured code being
    written with the digits 0 to 9. *)
Definition numeric_pattern : pattern :=
  {| before := Cat (lit_s "squawk") (plus py_isspace);
     group := rep 4 (Chr re_digit);
     after := Eps |}.

(** [(zero|one|two|three|four|five|six|seven|oh)] *)
Definition spoken_digit : re :=
  alts (map (fun w : string => lit_s w)
          ["zero"; "one"; "two"; "three"; "four"; "five"; "six"; "seven";
           "oh"]).

(** [[\s-]*] *)
Definition spoken_gap : re := Star (fun c => py_isspace c || cs "-" c).

(** What a group captured: the text between two positions. *)
Definition captured (from to : str) : str :=
  firstn (length from - length to) from.

(** A match of the spoken pattern at the current position: its four
    groups. *)
Definition match_spoken (prev : option ascii) (s : str) : option (list str) :=
  exec (Cat (lit_s "squawk") (plus py_isspace)) prev s (fun p0 s0 =>
  exec spoken_digit p0 s0 (fun p1 s1 =>
  exec spoken_gap p1 s1 (fun p2 s2 =>
  exec spoken_digit p2 s2 (fun p3 s3 =>
  exec spoken_gap p3 s3 (fun p4 s4 =>
  exec spoken_digit p4 s4 (fun p5 s5 =>
  exec spoken_gap p5 s5 (fun p6 s6 =>
  exec spoken_digit p6 s6 (fun _ s7 =>
    Some [captured s0 s1; captured s2 s3; captured s4 s5;
          captured s6 s7])))))))).

(** [re.search(spoken_pattern, s).groups()] *)
Fixpoint search_spoken (prev : option ascii) (s : str) : option (list str) :=
  match match_spoken prev s with
  | Some groups => Some groups
  | None =>
    match s with
    | c :: s' => search_spoken (Some c) s'
    | [] => None
    end
  end.

(** [word_to_digit.get(w, "0")] *)
Definition word_to_digit (w : str) : ascii :=
  if str_eqb w "zero" then "0"
  else if str_eqb w "oh" then "0"
  else if str_eqb w "one" then "1"
  else if str_eqb w "two" then "2"
  else if str_eqb w "three" then "3"
  else if str_eqb w "four" then "4"
  else if str_eqb w "five" then "5"
  else if str_eqb w "six" then "6"
  else if str_eqb w "seven" then "7"
  else "0".

(** [SquawkHandler.parse_squawk_from_atc] *)
Definition parse_squawk_from_atc (atc_message : str) : option str :=
  let message_lower := py_lower atc_message in
  if str_in "squawk vfr" message_lower then Some (list_ascii_of_string "1200")
  else if str_in "squawk ident" message_lower
          && negb (str_in "squawk" (replace "squawk ident" [] message_lower))
  then None
  else
    match search_group numeric_pattern message_lower with
    | Some g => Some g
    | None =>
      match search_spoken None message_lower with
      | Some groups => Some (map word_to_digit groups)
      | None => None
      end
    end.

(** The calls made on [sim_data]. *)
Inductive SimCall :=
  | set_com1_active (frequency : str)
  | set_transponder_code (code : str).

Record CoPilot := {
  enabled : bool;
  squawk_handler : SquawkHandler
}.

(** [set_enabled] *)
Definition set_enabled (self : CoPilot) (on : bool) : CoPilot :=
  {| enabled := on; squawk_handler := squawk_handler self |}.

(** [\b(1[1-3]\d\.\d{1,3})\b] *)
Definition com_pattern : pattern :=
  {| before := WordB;
     group := seq [Chr (cs "1"); Chr (in_range 49 51); Chr re_digit;
                   Chr (cs "."); Chr re_digit; upto 2 (Chr re_digit)];
     after := WordB |}.

(** The loop over the frequency matches: the calls made and the actions
    recorded so far. *)
Definition tune_step (acc : list SimCall * list str) (freq_str : str)
  : list SimCall * list str :=
  let '(calls, actions_taken) := acc in
  match Validation.py_float freq_str with
  | Some f_val =>
    if Qleb 118 f_val && Qltb f_val 137 then
      let action := "Tuned COM1 to " ++ freq_str in
      (calls ++ [set_com1_active freq_str],
       if existsb (str_eqb action) actions_taken then actions_taken
       else actions_taken ++ [action])
    else acc
  | None => acc
  end.

(** [process_atc_instruction]: the co-pilot afterwards, the calls made on
    [sim_data], in order, and the returned list of actions. *)
Definition process_atc_instruction (self : CoPilot) (text : str)
  : CoPilot * list SimCall * list str :=
  if negb (enabled self) then (self, [], [])
  else
    let '(calls, actions_taken) :=
      fold_left tune_step (findall com_pattern text) ([], []) in
    match parse_squawk_from_atc text with
    | Some (c :: r) =>
      let squawk_code := c :: r in
      if fst (validate_code squawk_code) then
        ({| enabled := enabled self;
            squawk_handler :=
              fst (fst (set_assigned_code (squawk_handler self)
                          squawk_code)) |},
         calls ++ [set_transponder_code squawk_code],
         actions_taken ++ ["Set Transponder to " ++ squawk_code])
      else (self, calls, actions_taken)
    | _ => (self, calls, actions_taken)
    end.

End CoPilot.

(** ** Vocabulary of the statements *)

(** What [validate_code] accepts, read on the stripped argument. *)
Definition octal_code (code : str) : Prop :=
  length code = 4 /\ Forall (fun c => py_isdigit_char c = true) code
  /\ ~ In "8"%char code /\ ~ In "9"%char code.

Module FlightPhaseSpec.
Import FlightPhase.

(** The four outcomes of a connected call: the detected phase is the
    current one and the pending phase is cleared; it is new and becomes
    pending with the clock reading of the call; it is already pending and
    the confirmation time has not elapsed, and pending phase and timestamp
    stay; it is already pending, the confirmation time has elapsed since the
    timestamp, and the transition is committed and logged. *)
Inductive outcome (self : FlightPhaseTracker) (t : Telemetry) (now : Q)
  : FlightPhaseTracker -> list Transition -> Prop :=
  | Same self' :
      _detect_phase self t = _current_phase self ->
      _current_phase self' = _current_phase self ->
      _pending_phase self' = None ->
      outcome self t now self' []
  | Proposed self' :
      _detect_phase self t <> _current_phase self ->
      _pending_phase self <> Some (_detect_phase self t) ->
      _current_phase self' = _current_phase self ->
      _pending_phase self' = Some (_detect_phase self t) ->
      _phase_start_time self' = now ->
      outcome self t now self' []
  | Waiting self' :
      _detect_phase self t <> _current_phase self ->
      _pending_phase self = Some (_detect_phase self t) ->
      (now - _phase_start_time self < phase_confirm_time (_thresholds self))%Q ->
      _current_phase self' = _current_phase self ->
      _pending_phase self' = _pending_phase self ->
      _phase_start_time self' = _phase_start_time self ->
      outcome self t now self' []
  | Committed self' :
      _detect_phase self t <> _current_phase self ->
      _pending_phase self = Some (_detect_phase self t) ->
      (phase_confirm_time (_thresholds self) <= now - _phase_start_time self)%Q ->
      _current_phase self' = _detect_phase self t ->
      _pending_phase self' = None ->
      outcome self t now self' [(_current_phase self, _detect_phase self t)].

(** Two trackers that differ at most in [_last_update_time] and, while no
    phase is pending, in [_phase_start_time]. *)
Definition same_flight (a b : FlightPhaseTracker) : Prop :=
  _thresholds a = _thresholds b
  /\ _current_phase a = _current_phase b
  /\ _pending_phase a = _pending_phase b
  /\ _max_altitude_reached a = _max_altitude_reached b
  /\ _was_airborne a = _was_airborne b
  /\ (_pending_phase a = None \/ _phase_start_time a = _phase_start_time b).

(** What a commit shows to an observer: clock reading, telemetry, pair. *)
Definition shown_commit (c : Commit) : Q * Telemetry * Transition :=
  (at_time c, seen c, transition c).

(** The phases detected only before the first lift-off. *)
Definition pre_flight (p : FlightPhase) : bool :=
  match p with
  | PARKED | TAXI_OUT | TAKEOFF => true
  | _ => false
  end.

(** The clock readings of a sequence of calls never decrease. *)
Definition clock_monotone (calls : list Call) : Prop :=
  Sorted Qle (map fst calls).

(** Two commits, the first at [t1] and a later one at [t2], are at least
    the confirmation time apart. *)
Definition spaced (confirm : Q) (t1 t2 : Q) : Prop := (t1 + confirm <= t2)%Q.

(** A sample run: parked for three seconds, then rolling at 45 kt. *)
Definition on_the_ground (v : Q) : Telemetry :=
  {| connected := true; on_ground := true; ias := v; vertical_speed := 0;
     altitude_msl := 0; altitude_agl := None |}.

Definition sample_calls : list Call :=
  [(0%Q, Some (on_the_ground 0)); (3%Q, Some (on_the_ground 0));
   (4%Q, Some (on_the_ground 45)); (7%Q, Some (on_the_ground 45))].

(** The same run read off a clock that is set back by two seconds after
    the second call: the readings are 0, 3, 1 and 4. *)
Definition clock_set_back : list Call :=
  [(0%Q, Some (on_the_ground 0)); (3%Q, Some (on_the_ground 0));
   (1%Q, Some (on_the_ground 45)); (4%Q, Some (on_the_ground 45))].

(** The second commit of the sample run. *)
Definition sample_commit : Commit :=
  {| at_time := 7;
     before := {| _thresholds := default_thresholds;
                  _current_phase := PARKED;
                  _pending_phase := Some TAKEOFF;
                  _phase_start_time := 4;
                  _last_update_time := 4;
                  _max_altitude_reached := 0;
                  _was_airborne := false |};
     seen := on_the_ground 45;
     transition := (PARKED, TAKEOFF) |}.

End FlightPhaseSpec.

Module HandoffSpec.
Import Handoff.

(** A connected telemetry reading at the given altitude; the other fields
    are those of [t]. *)
Definition flying_at (t : Telemetry) (alt : Q) : option Telemetry :=
  Some {| connected := true; on_ground := on_ground t; ias := ias t;
          vertical_speed := vertical_speed t; altitude_msl := alt;
          altitude_agl := altitude_agl t |}.

(** The manager [m] with the given facility, last handoff altitude and
    history. *)
Definition handed (m : HandoffManager) (f : option Facility) (alt : float)
  (history : list (str * str)) : HandoffManager :=
  {| _current_facility := f;
     _departure_airport := _departure_airport m;
     _arrival_airport := _arrival_airport m;
     _last_handoff_altitude := alt;
     _handoff_history := history |}.

Definition center : Facility :=
  {| type := CENTER; identifier := []; frequency := "127.750" |}.

Definition approach : Facility :=
  {| type := APPROACH; identifier := []; frequency := "124.350" |}.

(** A call on a manager. *)
Inductive Op :=
  | Update (telemetry : option Telemetry) (flight_phase : str)
  | Force (facility_type : FacilityType) (identifier frequency : str)
  | SetDeparture (icao : str)
  | SetArrival (icao : str)
  | Reset.

Definition apply_op (m : HandoffManager) (op : Op) : HandoffManager :=
  match op with
  | Update tel phase => fst (update m tel phase)
  | Force t i f => fst (force_handoff_to m t i f)
  | SetDeparture icao => set_departure_airport m icao
  | SetArrival icao => set_arrival_airport m icao
  | Reset => reset m
  end.

Definition apply_ops (m : HandoffManager) (ops : list Op) : HandoffManager :=
  fold_left apply_op ops m.

(** Every entry of a history starts where the one before it ended, the
    first at [start]. *)
Fixpoint linked (start : str) (history : list (str * str)) : Prop :=
  match history with
  | [] => True
  | (a, b) :: rest => a = start /\ linked b rest
  end.

(** Where a history ends. *)
Definition tip (start : str) (history : list (str * str)) : str :=
  fold_left (fun _ e => snd e) history start.

(** The history is a chain from ["frequency"] to the name of the current
    facility, and is empty when there is none. *)
Definition chained (m : HandoffManager) : Prop :=
  linked "frequency" (_handoff_history m)
  /\ match _current_facility m with
     | Some f =>
       _handoff_history m <> [] /\ name f = tip "frequency" (_handoff_history m)
     | None => _handoff_history m = []
     end.

(** The phase text names one of the given words. *)
Definition names (phase : str) (words : list string) : bool :=
  existsb (fun w => str_in (list_ascii_of_string w) (py_lower phase)) words.

End HandoffSpec.

Module CacheSpec.
Import Cache.

(** The entry stored for [key] can be served at [now] with text [txt]. *)
Definition servable (self : SpeculativeCache) (now : Q) (key txt : str)
  : Prop :=
  exists e, dict_get key (_cache self) = Some e
    /\ response_text e = txt
    /\ context_hash e = _current_context_hash self
    /\ (now - generated_at e <= ttl_seconds self)%Q.

(** A cache holding one response, generated at time 0 under fingerprint
    ["aaaaaaaa"], while the current fingerprint is [current]. *)
Definition sample_entry : CachedResponse :=
  {| intent_key := "ready_for_departure";
     prompt_template := "prompt";
     response_text := "Runway 28, cleared for takeoff";
     flight_phase := TAXI_OUT;
     context_hash := "aaaaaaaa";
     generated_at := 0;
     hit_count := 0 |}.

Definition sample_cache (current : str) : SpeculativeCache :=
  {| generate_func := fun _ => None;
     max_cache_size := 20;
     ttl_seconds := 300;
     _cache := [(list_ascii_of_string "ready_for_departure", sample_entry)];
     _stats := {| hits := 0; misses := 0; generations := 0;
                  invalidations := 0 |};
     _current_context_hash := current;
     _generation_queue := [] |}.

(** The keys of the cache are pairwise different, as in a [dict], and
    there are at most [max_cache_size] of them. *)
Definition within_capacity (self : SpeculativeCache) : Prop :=
  NoDup (map fst (_cache self))
  /\ (Z.of_nat (length (_cache self)) <= max_cache_size self)%Z.

(** [x] was generated no later than [y]. *)
Definition older (x y : str * CachedResponse) : Prop :=
  (generated_at (snd x) <= generated_at (snd y))%Q.

(** A cache of capacity 1 that holds three responses, generated at the
    times 5, 1 and 3. *)
Definition aged_entry (key : string) (at_time : Q) : str * CachedResponse :=
  (list_ascii_of_string key,
   {| intent_key := key;
      prompt_template := "prompt";
      response_text := "Roger";
      flight_phase := CRUISE;
      context_hash := "aaaaaaaa";
      generated_at := at_time;
      hit_count := 0 |}).

Definition crowded_cache : SpeculativeCache :=
  {| generate_func := fun _ => None;
     max_cache_size := 1;
     ttl_seconds := 300;
     _cache := [aged_entry "position_report" 5;
                aged_entry "radio_check" 1;
                aged_entry "weather_request" 3];
     _stats := {| hits := 0; misses := 0; generations := 0;
                  invalidations := 0 |};
     _current_context_hash := "aaaaaaaa";
     _generation_queue := [] |}.

(** No counter of [b] is below the one of [a]. *)
Definition stats_le (a b : CacheStats) : Prop :=
  (hits a <= hits b)%Z /\ (misses a <= misses b)%Z
  /\ (generations a <= generations b)%Z
  /\ (invalidations a <= invalidations b)%Z.

(** A call on the cache; the digest function is the one of the section. *)
Inductive Op :=
  | Get (now : Q) (intent_key : str)
  | Fuzzy (now_of : str -> Q) (pilot_message : str)
  | UpdateContext (phase : FlightPhase)
      (airport runway callsign frequency : str)
  | GenerationStep (now : Q)
  | GenerateAndCache (now : Q) (intent_key prompt : str)
      (phase : FlightPhase).

Definition apply_op (md5_hexdigest : str -> str) (self : SpeculativeCache)
  (op : Op) : SpeculativeCache :=
  match op with
  | Get now k => fst (get self now k)
  | Fuzzy now_of msg => fst (fuzzy_match self now_of msg)
  | UpdateContext ph a r c f => update_context md5_hexdigest self ph a r c f
  | GenerationStep now => generation_step self now
  | GenerateAndCache now k p ph => _generate_and_cache self now k p ph
  end.

End CacheSpec.

Module StreamingSpec.
Import Streaming.

(** The consumer of the test vector. *)
Definition sample_llm : StreamingLLM :=
  {| model := "llama3.2:3b";
     ollama_url := "http://localhost:11434/api/generate";
     min_chunk_chars := 5;
     max_chunk_chars := 100 |}.

(** The tokens of the test vector, one per line. *)
Definition sample_tokens : list str :=
  map list_ascii_of_string
    ["Cessna"; " 1"; " 2"; " 3"; " ,"; " taxi"; " to"; " runway"; " 2";
     " 8"; " ."].

(** The same tokens with the completion flag on a separate last line whose
    token is empty. *)
Definition sample_lines_done_apart (clock : Q) : list Arrival :=
  map (fun t => {| stop_set := false; now := clock; line := Data t false |})
    sample_tokens
  ++ [{| stop_set := false; now := clock; line := Data [] true |}].

(** Text and final flag of a chunk. *)
Definition shown (c : StreamChunk) : str * bool := (text c, is_final c).

(** The line that signals completion, carrying [token]. *)
Definition done_line (clock : Q) (token : str) : Arrival :=
  {| stop_set := false; now := clock; line := Data token true |}.

(** The completion flag arrives, before [_stop_event] is seen set and
    before the lines run out. *)
Fixpoint completes (lines : list Arrival) : bool :=
  match lines with
  | [] => false
  | a :: rest =>
    if stop_set a then false
    else
      match line a with
      | Data _ true => true
      | _ => completes rest
      end
  end.

(** The tokens received up to the line carrying the completion flag. *)
Fixpoint received (lines : list Arrival) : str :=
  match lines with
  | [] => []
  | a :: rest =>
    if stop_set a then []
    else
      match line a with
      | Data token true => token
      | Data token false => token ++ received rest
      | _ => received rest
      end
  end.

End StreamingSpec.

Module ValidationSpec.
Import Re Validation.

(** The text left by the scan for suspicious patterns. *)
Definition scanned_text (response : str) : str :=
  snd (scan_suspicious (strip response)).

(** The text whose length is checked and which is returned when it is not
    empty. *)
Definition cleaned_text (response : str) : str :=
  tidy (scanned_text response).

(** All issues recorded before the length check. *)
Definition content_issues (response : str) : list str :=
  (((fst (scan_suspicious (strip response))
     ++ altitude_issues (scanned_text response))
    ++ flight_level_issues (scanned_text response))
   ++ frequency_issues (scanned_text response))
  ++ squawk_issues (scanned_text response).

(** The issues that count against validity. *)
Definition fatal_issues : list str :=
  map list_ascii_of_string
    ["Contains LLM control token"; "Contains System prompt marker";
     "Contains Script tag"; "Empty response"; "Response too short"].

(** The first and the second pattern of [SUSPICIOUS_PATTERNS]. *)
Definition llm_control_token : re := seq [lit "<|"; StarLazy dot; lit "|>"].
Definition instruction_marker : re := lit "[INST]".

(** The system-prompt markers and the script tag of [SUSPICIOUS_PATTERNS]. *)
Definition system_prompt_open : re := lit "<<SYS>>".
Definition system_prompt_close : re := lit "<</SYS>>".
Definition script_tag : re := lit "<script".

(** The letters by which the keywords of [critical_keywords] are told
    apart from the other issues. *)
Definition telltale (c : ascii) : bool := char_in c "MSEho".

(** A text holding an M, an S, an E, or both an h and an o: every text in
    which a keyword of [critical_keywords] occurs is such. *)
Definition marked (i : str) : bool :=
  char_in "M" i || char_in "S" i || char_in "E" i
  || (char_in "h" i && char_in "o" i).

(** The characters of a captured frequency. *)
Definition freq_char (c : ascii) : bool := re_digit c || cs "." c || cs "," c.

(** Every character class of a pattern lies within [P]. *)
Fixpoint classes_within (P : ascii -> bool) (r : re) : Prop :=
  match r with
  | Eps | WordB => True
  | Chr p | Star p | StarLazy p => forall c, p c = true -> P c = true
  | Cat a b | Alt a b => classes_within P a /\ classes_within P b
  end.

(** The texts a pattern can consume, whatever the context. *)
Fixpoint denotes (r : re) (w : str) : Prop :=
  match r with
  | Eps | WordB => w = []
  | Chr p => exists c, w = [c] /\ p c = true
  | Cat a b => exists u v, w = u ++ v /\ denotes a u /\ denotes b v
  | Alt a b => denotes a w \/ denotes b w
  | Star p | StarLazy p => forallb p w = true
  end.

(** Runs of whitespace replaced by one space each; [in_run] tells that
    the character before was whitespace. *)
Fixpoint squeeze_from (in_run : bool) (s : str) : str :=
  match s with
  | [] => []
  | c :: s' =>
    if py_isspace c
    then if in_run then squeeze_from true s'
         else " "%char :: squeeze_from true s'
    else c :: squeeze_from false s'
  end.

(** The only whitespace is the space character, and no two of them are
    adjacent; [after_space] tells that the character before was one. *)
Fixpoint single_spaced (after_space : bool) (s : str) : bool :=
  match s with
  | [] => true
  | c :: s' =>
    if py_isspace c
    then negb after_space && ascii_eqb c " " && single_spaced true s'
    else single_spaced false s'
  end.

(** One or more digits, then at most one of the letters L, R, C in
    either case. *)
Definition runway_letter (c : ascii) : bool := char_in c "LRClrc".

Fixpoint digits_then_letter (g : str) : bool :=
  match g with
  | [] => true
  | [c] => re_digit c || runway_letter c
  | c :: g' => re_digit c && digits_then_letter g'
  end.

Definition is_runway_id (g : str) : bool :=
  match g with
  | c :: _ => re_digit c && digits_then_letter g
  | [] => false
  end.

(** Three digits, a point, one to three digits. *)
Definition is_frequency (g : str) : bool :=
  match g with
  | a :: b :: c :: p :: rest =>
    re_digit a && re_digit b && re_digit c && cs "." p
    && (1 <=? length rest) && (length rest <=? 3) && forallb re_digit rest
  | _ => false
  end.

(** Exactly four digits. *)
Definition is_four_digits (g : str) : bool :=
  (length g =? 4) && forallb re_digit g.

(** The characters [sanitize_for_tts] removes. *)
Definition tts_dropped (c : ascii) : bool :=
  tts_unsafe c || ascii_eqb c (ascii_of_nat 34)
  || ascii_eqb c (ascii_of_nat 39).

(** A pattern has a match in a text: some part of the text is one of the
    texts the pattern can consume. *)
Definition occurs (r : re) (s : str) : Prop :=
  exists a m b, s = a ++ m ++ b /\ denotes r m.

(** A pattern without [\b]: whether it matches at a position does not
    depend on the character before. *)
Fixpoint context_free (r : re) : Prop :=
  match r with
  | WordB => False
  | Cat a b | Alt a b => context_free a /\ context_free b
  | Eps | Chr _ | Star _ | StarLazy _ => True
  end.

(** Every match of the pattern begins with a character of [F]. *)
Fixpoint starts_with (F : ascii -> bool) (r : re) : Prop :=
  match r with
  | Chr p => forall c, p c = true -> F c = true
  | Cat a _ => starts_with F a
  | Alt a b => starts_with F a /\ starts_with F b
  | Eps | Star _ | StarLazy _ | WordB => False
  end.

(** Every match of the pattern ends with a character of [L]. *)
Fixpoint ends_with (L : ascii -> bool) (r : re) : Prop :=
  match r with
  | Chr p => forall c, p c = true -> L c = true
  | Cat _ b => ends_with L b
  | Alt a b => ends_with L a /\ ends_with L b
  | Eps | Star _ | StarLazy _ | WordB => False
  end.

(** The less-than sign, with which the fatal markers begin. *)
Definition lt_sign (c : ascii) : bool := ci "<" c.

(** The characters with which the instruction markers, the chat role
    marker and the code fence begin. *)
Definition opener (c : ascii) : bool := ci "[" c || ci "#" c || ci "`" c.

(** A character that is not whitespace. *)
Definition shown (c : ascii) : bool := negb (py_isspace c).

(** A pattern whose matches begin with an opener and hold no less-than
    sign. *)
Definition removable (r : re) : Prop :=
  starts_with opener r /\ classes_within (fun c => negb (lt_sign c)) r.

(** A pattern without [\b] whose matches begin with the less-than sign, end
    with a character that is not whitespace and hold no opener. *)
Definition marker (mk : re) : Prop :=
  context_free mk /\ starts_with lt_sign mk /\ ends_with shown mk
  /\ classes_within (fun c => negb (opener c)) mk.

End ValidationSpec.

Module CoPilotSpec.
Import Squawk CoPilot.

(** A frequency the co-pilot tunes: it reads as a number from 118
    inclusive to 137 exclusive. *)
Definition com_ok (f : str) : Prop :=
  exists q, Validation.py_float f = Some q /\ (118 <= q)%Q /\ (q < 137)%Q.

(** What the loop over the frequency matches keeps true of the calls made
    and the actions recorded. *)
Definition tuned_only (acc : list SimCall * list str) : Prop :=
  (forall x, In x (fst acc) ->
     exists f, x = set_com1_active f /\ com_ok f
       /\ In ("Tuned COM1 to " ++ f) (snd acc))
  /\ NoDup (snd acc)
  /\ (forall a, In a (snd acc) -> exists f, a = "Tuned COM1 to " ++ f).

End CoPilotSpec.

(** * Properties *)

(** ** Strings *)

Lemma str_eqb_eq (a b : str) : str_eqb a b = true <-> a = b.
Proof.
  revert b; induction a as [|x a IH]; intros [|y b]; simpl; split;
    try congruence; try reflexivity.
  - intros H. apply andb_true_iff in H as [H1 H2].
    apply Ascii.eqb_eq in H1. apply IH in H2. congruence.
  - intros H. injection H as -> ->. apply andb_true_iff. split.
    + apply Ascii.eqb_refl.
    + now apply IH.
Qed.

Lemma str_eqb_refl (a : str) : str_eqb a a = true.
Proof. now apply str_eqb_eq. Qed.

Lemma str_eqb_neq (a b : str) : str_eqb a b = false <-> a <> b.
Proof.
  split.
  - intros H E. apply str_eqb_eq in E. congruence.
  - intros H. destruct (str_eqb a b) eqn:E; [|reflexivity].
    apply str_eqb_eq in E. contradiction.
Qed.

Lemma char_in_In (c : ascii) (s : str) : char_in c s = true <-> In c s.
Proof.
  unfold char_in. rewrite existsb_exists. split.
  - intros (x & Hx & E). apply Ascii.eqb_eq in E. now subst.
  - intros H. exists c. split; [assumption|apply Ascii.eqb_refl].
Qed.

Lemma char_in_false (c : ascii) (s : str) : char_in c s = false <-> ~ In c s.
Proof.
  rewrite <- char_in_In. destruct (char_in c s); intuition congruence.
Qed.

(** ** squawk.py *)

Section SquawkProperties.
Import Squawk.

Lemma validate_code_true (code : str) :
    fst (validate_code code) = true <-> octal_code (strip code).
  Proof.
    unfold validate_code, octal_code.
    set (c := strip code).
    destruct (length c =? 4) eqn:Hlen; simpl.
    - apply Nat.eqb_eq in Hlen.
      destruct (py_isdigit c) eqn:Hdig; simpl.
      + assert (Hall : Forall (fun x => py_isdigit_char x = true) c).
        { destruct c as [|x c']; [discriminate|].
          apply Forall_forall. now apply forallb_forall. }
        destruct (char_in "8" c) eqn:H8; simpl.
        * split; [discriminate|]. intros (_ & _ & N8 & _).
          apply char_in_In in H8. contradiction.
        * destruct (char_in "9" c) eqn:H9; simpl.
          -- split; [discriminate|]. intros (_ & _ & _ & N9).
             apply char_in_In in H9. contradiction.
          -- apply char_in_false in H8, H9. tauto.
      + split; [discriminate|]. intros (_ & Hall & _).
        destruct c as [|x c']; [discriminate|].
        assert (E : py_isdigit (x :: c') = true).
        { apply forallb_forall. now apply Forall_forall. }
        congruence.
    - apply Nat.eqb_neq in Hlen. split; [discriminate|]. tauto.
  Qed.
End SquawkProperties.

Section SquawkClaims.
Import Squawk.

(** C8 (as amended).  [validate_code] accepts exactly the arguments that,
    once surrounding whitespace is stripped, are four characters long, all
    digits, with no 8 and no 9; so ["4591"] is rejected and ["4521"]
    accepted.  [set_assigned_code] stores the normalised code and touches
    nothing else when the code is accepted, leaves the handler as it was
    when it is rejected, and in both cases returns Python's [None]: the
    outcome is only logged. *)
Theorem squawk_validate_and_assign (h : SquawkHandler) (code : str) :
  (fst (validate_code code) = true <-> octal_code (strip code))
  /\ fst (validate_code "4591") = false
  /\ fst (validate_code "4521") = true
  /\ set_assigned_code h code =
     if fst (validate_code code)
     then ({| _current_code := _current_code h;
              _last_emergency := _last_emergency h;
              _assigned_code := Some (_normalize_code code) |}, tt,
           (INFO, "[SQUAWK] ATC assigned code: " ++ _normalize_code code))
     else (h, tt,
           (WARNING, "[SQUAWK] Invalid assigned code '" ++ code ++ "': "
                     ++ snd (validate_code code))).
Proof.
  split; [apply validate_code_true|].
  split; [reflexivity|]. split; [reflexivity|].
  unfold set_assigned_code.
  destruct (validate_code code) as [[|] error]; reflexivity.
Qed.

Lemma squawk_validate_and_assign_witness : octal_code (strip " 4521 ").
Proof.
  apply (proj1 (squawk_validate_and_assign init " 4521 ")).
  reflexivity.
Defined.

(** C8 as stated fails: a code with surrounding whitespace is accepted
    although it is not four characters long. *)
Lemma squawk_validate_unstripped_refuted :
  ~ (forall code : str, fst (validate_code code) = true <-> octal_code code).
Proof.
  intros H. destruct (H " 4521") as [Hacc _].
  destruct (Hacc eq_refl) as [Hlen _]. discriminate Hlen.
Qed.

End SquawkClaims.

(** ** Rational comparisons *)

Lemma Qltb_lt (x y : Q) : Qltb x y = true <-> (x < y)%Q.
Proof.
  unfold Qltb. rewrite negb_true_iff. split.
  - intros H. apply Qnot_le_lt. intros L. apply Qle_bool_iff in L. congruence.
  - intros H. destruct (Qle_bool y x) eqn:E; [|reflexivity].
    apply Qle_bool_iff in E. exfalso. revert E. now apply Qlt_not_le.
Qed.

Lemma Qltb_ge (x y : Q) : Qltb x y = false <-> (y <= x)%Q.
Proof.
  unfold Qltb. rewrite negb_false_iff. apply Qle_bool_iff.
Qed.

Lemma Qleb_le (x y : Q) : Qleb x y = true <-> (x <= y)%Q.
Proof. apply Qle_bool_iff. Qed.

Lemma Qleb_gt (x y : Q) : Qleb x y = false <-> (y < x)%Q.
Proof.
  unfold Qleb. split.
  - intros H. apply Qnot_le_lt. intros L. apply Qle_bool_iff in L. congruence.
  - intros H. destruct (Qle_bool x y) eqn:E; [|reflexivity].
    apply Qle_bool_iff in E. exfalso. revert E. now apply Qlt_not_le.
Qed.

(** ** flight_phase.py *)

Section FlightPhaseProperties.
Import FlightPhase FlightPhaseSpec.

Lemma phase_eqb_eq (a b : FlightPhase) : phase_eqb a b = true <-> a = b.
Proof. destruct a, b; simpl; split; congruence. Qed.

Lemma phase_eqb_refl (a : FlightPhase) : phase_eqb a a = true.
Proof. now destruct a. Qed.

Lemma is_pending_iff (d : FlightPhase) (p : option FlightPhase) :
  is_pending d p = true <-> p = Some d.
Proof.
  destruct p as [q|]; simpl; [|split; discriminate].
  rewrite phase_eqb_eq. split; congruence.
Qed.

(** The detector never answers [UNKNOWN]. *)
Lemma detect_known (self : FlightPhaseTracker) (t : Telemetry) :
  _detect_phase self t <> UNKNOWN.
Proof.
  unfold _detect_phase.
  repeat match goal with
         | |- context [if ?b then _ else _] => destruct b
         end; discriminate.
Qed.

(** A disconnected call changes nothing and logs nothing. *)
Lemma update_disconnected (self : FlightPhaseTracker) (tel : option Telemetry)
  (now : Q) :
  disconnected tel = true -> update self tel now = (self, UNKNOWN, []).
Proof.
  destruct tel as [t|]; simpl; [|reflexivity].
  intros H. now rewrite H.
Qed.

Lemma update_connected (self : FlightPhaseTracker) (t : Telemetry) (now : Q) :
  connected t = true ->
  outcome self t now (fst (fst (update self (Some t) now)))
    (snd (update self (Some t) now))
  /\ _thresholds (fst (fst (update self (Some t) now))) = _thresholds self
  /\ snd (fst (update self (Some t) now))
     = _current_phase (fst (fst (update self (Some t) now))).
Proof.
  intros Hc. unfold update. rewrite Hc. simpl negb. cbv iota.
  set (d := _detect_phase self t).
  destruct (phase_eqb d (_current_phase self)) eqn:Hcur.
  - apply phase_eqb_eq in Hcur. simpl.
    split; [|split; reflexivity]. now apply Same.
  - assert (Hne : d <> _current_phase self).
    { intros E. apply phase_eqb_eq in E. congruence. }
    simpl.
    destruct (is_pending d (_pending_phase self)) eqn:Hp.
    + apply is_pending_iff in Hp.
      destruct (Qleb (phase_confirm_time (_thresholds self))
                  (now - _phase_start_time self)) eqn:He.
      * apply Qleb_le in He. simpl.
        split; [|split; reflexivity]. now apply Committed.
      * apply Qleb_gt in He. simpl.
        split; [|split; reflexivity]. now apply Waiting.
    + simpl. split; [|split; reflexivity].
      apply Proposed; try reflexivity; try assumption.
      intros E. apply (proj2 (is_pending_iff _ _)) in E.
      unfold d in Hp. congruence.
Qed.

Lemma detect_takeoff (self : FlightPhaseTracker) (t : Telemetry) :
  _detect_phase self t = TAKEOFF ->
  _was_airborne self = false /\ on_ground t = true
  /\ flt (ias t) 10 = false
  /\ flt (ias t) (taxi_speed_max (_thresholds self)) = false.
Proof.
  unfold _detect_phase.
  destruct (on_ground t);
    [destruct (flt (ias t) 10) eqn:H10;
     [|destruct (flt (ias t) (taxi_speed_max (_thresholds self))) eqn:Hmax];
     destruct (_was_airborne self); try discriminate
    |repeat match goal with
            | |- context [if ?b then _ else _] => destruct b
            end; discriminate].
  intros _. auto.
Qed.

Lemma detect_landing (self : FlightPhaseTracker) (t : Telemetry) :
  _detect_phase self t = LANDING ->
  _was_airborne self = true /\ on_ground t = true
  /\ flt (ias t) 10 = false
  /\ flt (ias t) (taxi_speed_max (_thresholds self)) = false.
Proof.
  unfold _detect_phase.
  destruct (on_ground t);
    [destruct (flt (ias t) 10) eqn:H10;
     [|destruct (flt (ias t) (taxi_speed_max (_thresholds self))) eqn:Hmax];
     destruct (_was_airborne self); try discriminate
    |repeat match goal with
            | |- context [if ?b then _ else _] => destruct b
            end; discriminate].
  intros _. auto.
Qed.

(** A comparison that fails on a number gives the opposite order. *)
Lemma flt_num_false (a b : Q) : flt a b = false -> (b <= a)%Q.
Proof. cbn [flt]. apply Qltb_ge. Qed.

(** A call commits at most one transition; when it does, the detected
    phase was pending and the confirmation time has elapsed. *)
Lemma observed_shape (self : FlightPhaseTracker) (tel : option Telemetry)
  (now : Q) :
  observed now self tel (snd (update self tel now)) = []
  \/ exists t, tel = Some t /\ connected t = true
    /\ observed now self tel (snd (update self tel now))
       = [{| at_time := now; before := self; seen := t;
             transition := (_current_phase self, _detect_phase self t) |}]
    /\ _pending_phase self = Some (_detect_phase self t)
    /\ (phase_confirm_time (_thresholds self)
        <= now - _phase_start_time self)%Q
    /\ _pending_phase (fst (fst (update self tel now))) = None.
Proof.
  destruct (disconnected tel) eqn:Hd.
  - rewrite (update_disconnected self tel now Hd). simpl.
    left. now destruct tel.
  - destruct tel as [t|]; [|discriminate]. simpl in Hd.
    apply negb_false_iff in Hd.
    destruct (update_connected self t now Hd) as (Ho & _ & _).
    unfold observed.
    destruct Ho as [s' ? ? ?|s' ? ? ? ? ?|s' ? ? ? ? ? ?|s' ? ? ? ? ?];
      simpl; try tauto.
    right. exists t. repeat split; assumption.
Qed.

Lemma observed_call (self : FlightPhaseTracker) (tel : option Telemetry)
  (now : Q) (c : Commit) :
  In c (observed now self tel (snd (update self tel now))) ->
  exists t, tel = Some t /\ connected t = true
    /\ c = {| at_time := now; before := self; seen := t;
              transition := (_current_phase self, _detect_phase self t) |}
    /\ _pending_phase self = Some (_detect_phase self t)
    /\ (phase_confirm_time (_thresholds self)
        <= now - _phase_start_time self)%Q.
Proof.
  destruct (observed_shape self tel now) as [E|(t & Et & Hc & E & Hp & He & _)];
    rewrite E; [intros []|].
  intros [<-|[]]. exists t. repeat split; assumption.
Qed.

(** After a call the pending phase, if any, was proposed at or after any
    bound [tc] that held before and is not later than the call. *)
Lemma pending_since (self : FlightPhaseTracker) (tel : option Telemetry)
  (now tc : Q) :
  (tc <= now)%Q ->
  _pending_phase self = None \/ (tc <= _phase_start_time self)%Q ->
  let self' := fst (fst (update self tel now)) in
  (_pending_phase self' = None \/ (tc <= _phase_start_time self')%Q)
  /\ _thresholds self' = _thresholds self.
Proof.
  intros Hnow Hinv. destruct (disconnected tel) eqn:Hd.
  - rewrite (update_disconnected self tel now Hd). simpl. tauto.
  - destruct tel as [t|]; [|discriminate]. simpl in Hd.
    apply negb_false_iff in Hd.
    destruct (update_connected self t now Hd) as (Ho & Ht & _).
    cbv zeta. split; [|assumption].
    destruct Ho as [s' ? ? Hp|s' ? ? ? Hp Hs|s' ? Hq ? ? Hp Hs|s' ? ? ? ? Hp];
      try (left; assumption).
    + right. rewrite Hs. assumption.
    + rewrite Hp, Hs. destruct Hinv as [Hn|Hle]; [congruence|now right].
Qed.

(** Every commit of a run follows by the confirmation time any instant [tc]
    that bounds from below the timestamp of the pending phase and the
    clock readings of the calls. *)
Lemma commits_after (calls : list Call) :
  forall (self : FlightPhaseTracker) (tc : Q),
  _pending_phase self = None \/ (tc <= _phase_start_time self)%Q ->
  Forall (fun call => (tc <= fst call)%Q) calls ->
  Forall (spaced (phase_confirm_time (_thresholds self)) tc)
    (commit_times self calls).
Proof.
  induction calls as [|[now tel] rest IH]; intros self tc Hinv Hall.
  - constructor.
  - inversion Hall as [|? ? Hnow Hrest]; subst. simpl in Hnow.
    unfold commit_times. simpl. rewrite map_app. apply Forall_app. split.
    + apply Forall_forall. intros x Hx. apply in_map_iff in Hx.
      destruct Hx as (c & <- & Hc).
      apply observed_call in Hc.
      destruct Hc as (t & _ & _ & -> & Hp & He). simpl.
      unfold spaced. destruct Hinv as [Hn|Hle]; [congruence|]. lra.
    + destruct (pending_since self tel now tc Hnow Hinv) as [Hinv' Ht].
      rewrite <- Ht. now apply IH.
Qed.

Lemma commit_times_spaced (calls : list Call) :
  forall self : FlightPhaseTracker,
  StronglySorted Qle (map fst calls) ->
  ForallOrdPairs (spaced (phase_confirm_time (_thresholds self)))
    (commit_times self calls).
Proof.
  induction calls as [|[now tel] rest IH]; intros self Hs.
  - constructor.
  - simpl in Hs. inversion Hs as [|? ? Hs' Hall]; subst.
    assert (Ht : _thresholds (fst (fst (update self tel now)))
                 = _thresholds self).
    { destruct (disconnected tel) eqn:Hd.
      - now rewrite (update_disconnected self tel now Hd).
      - destruct tel as [t|]; [|discriminate]. simpl in Hd.
        apply negb_false_iff in Hd.
        apply (update_connected self t now Hd). }
    unfold commit_times. simpl. rewrite map_app.
    specialize (IH (fst (fst (update self tel now))) Hs').
    rewrite Ht in IH. fold (commit_times (fst (fst (update self tel now))) rest).
    destruct (observed_shape self tel now)
      as [E|(t & Et & Hc & E & Hp & He & Hn)]; rewrite E; simpl.
    + exact IH.
    + constructor; [|exact IH].
      rewrite <- Ht. apply commits_after; [now left|].
      apply Forall_forall. intros call Hin.
      rewrite Forall_forall in Hall. apply Hall. now apply in_map.
Qed.

(** C9.  A call of [update] with absent or disconnected telemetry returns
    [UNKNOWN], logs nothing and leaves the tracker exactly as it was, every
    field included; so any later call behaves as if the disconnected one
    had not been made, and a later connected call on a tracker whose
    committed phase is known returns a known phase. *)
Theorem update_disconnected_is_noop (self : FlightPhaseTracker)
  (tel later : option Telemetry) (now now' : Q) :
  disconnected tel = true ->
  update self tel now = (self, UNKNOWN, [])
  /\ update (fst (fst (update self tel now))) later now'
     = update self later now'
  /\ (disconnected later = false -> _current_phase self <> UNKNOWN ->
      snd (fst (update (fst (fst (update self tel now))) later now'))
      <> UNKNOWN).
Proof.
  intros Hd. rewrite (update_disconnected self tel now Hd). simpl.
  split; [reflexivity|]. split; [reflexivity|].
  intros Hl Hk. destruct later as [t|]; [|discriminate]. simpl in Hl.
  apply negb_false_iff in Hl.
  destruct (update_connected self t now' Hl) as (Ho & _ & ->).
  destruct Ho as [s' ? Hp ?|s' ? ? Hp ? ?|s' ? ? ? Hp ? ?|s' ? ? ? Hp ?];
    rewrite Hp; try assumption.
  apply detect_known.
Qed.

(** X28.  In every run, a committed transition into [TAKEOFF] was detected
    on the ground with [was_airborne] false when the call began, and the
    airspeed of that call was neither below 10 kt nor below
    [taxi_speed_max], as the two comparisons of the detector answer: an
    airspeed that is a number is at least 10 and at least
    [taxi_speed_max], and one that is NaN passes both.  A committed
    transition into [LANDING] was detected in the same way with
    [was_airborne] true.  [takeoff_speed_min] plays no part. *)
Theorem commits_on_the_ground (self : FlightPhaseTracker)
  (calls : list Call) (c : Commit) :
  In c (commits self calls) ->
  (snd (transition c) = TAKEOFF ->
   _was_airborne (before c) = false /\ on_ground (seen c) = true
   /\ flt (ias (seen c)) 10 = false
   /\ flt (ias (seen c)) (taxi_speed_max (_thresholds (before c))) = false)
  /\ (snd (transition c) = LANDING ->
      _was_airborne (before c) = true /\ on_ground (seen c) = true
      /\ flt (ias (seen c)) 10 = false
      /\ flt (ias (seen c)) (taxi_speed_max (_thresholds (before c)))
         = false).
Proof.
  revert self. induction calls as [|[now tel] rest IH]; intros self Hin.
  - destruct Hin.
  - simpl in Hin. apply in_app_or in Hin. destruct Hin as [Hin|Hin].
    + apply observed_call in Hin.
      destruct Hin as (t & _ & _ & -> & _). simpl.
      split; [apply detect_takeoff|apply detect_landing].
    + now apply (IH _ Hin).
Qed.

(** C3 (as amended).  When the clock readings of a sequence of calls never
    decrease,
    any two commits of the run are at least [phase_confirm_time] apart.
    A connected call has one of four outcomes: the detected phase equals
    the current one and pending is cleared; it is new and becomes pending
    with the clock reading as timestamp; it is the pending phase, less than
    [phase_confirm_time] has elapsed since the timestamp, and pending phase
    and timestamp stay as they are; or it is the pending phase, the time
    has elapsed, and the transition commits and pending is cleared. *)
Theorem phase_hysteresis (self : FlightPhaseTracker) (calls : list Call)
  (t : Telemetry) (now : Q) :
  (clock_monotone calls ->
   ForallOrdPairs (spaced (phase_confirm_time (_thresholds self)))
     (commit_times self calls))
  /\ (connected t = true ->
      outcome self t now (fst (fst (update self (Some t) now)))
        (snd (update self (Some t) now))).
Proof.
  split.
  - intros Hs. apply commit_times_spaced.
    apply Sorted_StronglySorted; [|exact Hs].
    intros x y z. apply Qle_trans.
  - intros Hc. apply (update_connected self t now Hc).
Qed.

Lemma update_disconnected_is_noop_witness :
  update (init None) None 5 = (init None, UNKNOWN, []).
Proof.
  apply (update_disconnected_is_noop (init None) None None 5 6).
  reflexivity.
Defined.

Lemma sample_commit_in_run : In sample_commit (commits (init None) sample_calls).
Proof. right. left. reflexivity. Qed.

Lemma commits_on_the_ground_witness :
  _was_airborne (before sample_commit) = false
  /\ on_ground (seen sample_commit) = true
  /\ flt (ias (seen sample_commit)) 10 = false
  /\ flt (ias (seen sample_commit))
       (taxi_speed_max (_thresholds (before sample_commit))) = false.
Proof.
  apply (proj1 (commits_on_the_ground (init None) sample_calls
                  sample_commit sample_commit_in_run)).
  reflexivity.
Defined.

(** C7.  The claim fails on the code.  With the default thresholds,
    parked for three seconds and then rolling at 45 kt, the tracker commits
    the transition from Parked to Takeoff, with [was_airborne] false, at
    an airspeed below [takeoff_speed_min] = 50: the detector compares the
    airspeed with 10 and with [taxi_speed_max] = 40 only, and never reads
    [takeoff_speed_min]. *)
Theorem takeoff_below_takeoff_speed_min :
  exists c : Commit,
    In c (commits (init None) sample_calls)
    /\ transition c = (PARKED, TAKEOFF)
    /\ _was_airborne (before c) = false
    /\ ias (seen c) = Num 45
    /\ takeoff_speed_min (_thresholds (before c)) = 50%Q
    /\ flt (ias (seen c)) (takeoff_speed_min (_thresholds (before c)))
       = true.
Proof.
  exists sample_commit. split; [|repeat split].
  right. left. reflexivity.
Qed.

Lemma sample_calls_monotone : clock_monotone sample_calls.
Proof.
  unfold clock_monotone, sample_calls. simpl.
  repeat constructor; discriminate.
Qed.

Lemma phase_hysteresis_witness :
  ForallOrdPairs (spaced 3) (commit_times (init None) sample_calls)
  /\ commit_times (init None) sample_calls = [3; 7]%Q.
Proof.
  split.
  - apply (proj1 (phase_hysteresis (init None) sample_calls
                    (on_the_ground 0) 0)).
    exact sample_calls_monotone.
  - reflexivity.
Defined.

(** C3 as stated fails: when the clock is set back between two calls, two
    commits can be closer than [phase_confirm_time].  With the readings
    0, 3, 1 and 4 the tracker commits at 3 and again at 4, one second
    later, although the confirmation time is three seconds. *)
Lemma commits_too_close_when_clock_set_back :
  commit_times (init None) clock_set_back = [3; 4]%Q
  /\ ~ ForallOrdPairs (spaced (phase_confirm_time (_thresholds (init None))))
        (commit_times (init None) clock_set_back).
Proof.
  split; [reflexivity|].
  intros H. change (commit_times (init None) clock_set_back)
    with ([3; 4]%Q) in H.
  inversion H as [|? ? Hall _]; subst. inversion Hall as [|? ? Hs _]; subst.
  unfold spaced in Hs. cbn in Hs. revert Hs. apply Qlt_not_le. reflexivity.
Qed.

End FlightPhaseProperties.

(** ** handoff.py *)

Section HandoffClaims.
Import Handoff HandoffSpec.

(** C6.  With no current facility, phase ["cruise"] at 20000 ft gives the
    expected facility Center and the first update hands off to it; an
    update with phase ["approach"] at 8000 ft then hands off to Approach,
    returns ["Contact Approach on 124.350"], appends (Center, Approach) to
    the history and makes Approach the current facility; a further update
    with the same inputs returns nothing and changes nothing. *)
Theorem handoff_cruise_then_approach (m : HandoffManager) (t1 t2 : Telemetry) :
  let m0 := handed m None (_last_handoff_altitude m) (_handoff_history m) in
  let m1 := handed m (Some center) 20000
              (_handoff_history m ++ [("frequency" : str, "Center" : str)]) in
  let m2 := handed m (Some approach) 8000
              (_handoff_history m1 ++ [("Center" : str, "Approach" : str)]) in
  _determine_expected_facility m0 "cruise" 20000 (on_ground t1) = Some center
  /\ update m0 (flying_at t1 20000) "cruise"
     = (m1, Some ("Contact Center on 127.750" : str))
  /\ update m1 (flying_at t2 8000) "approach"
     = (m2, Some ("Contact " ++ name approach ++ " on " ++ frequency approach))
  /\ "Contact " ++ name approach ++ " on " ++ frequency approach
     = ("Contact Approach on 124.350" : str)
  /\ update m2 (flying_at t2 8000) "approach" = (m2, None).
Proof.
  cbv zeta. unfold flying_at.
  destruct (on_ground t1), (on_ground t2); repeat split; reflexivity.
Qed.

End HandoffClaims.

(** ** response_cache.py *)

Section CacheProperties.
Import Cache CacheSpec.

Lemma dict_get_del {V : Type} (k : str) (d : list (str * V)) :
  dict_get k (dict_del k d) = None.
Proof.
  unfold dict_del.
  induction d as [|[k' v] d IH]; simpl; [reflexivity|].
  destruct (str_eqb k k') eqn:E; simpl; [assumption|].
  now rewrite E.
Qed.

(** The three ways [get] can answer. *)
Lemma get_cases (self : SpeculativeCache) (now : Q) (key : str) :
  (dict_get key (_cache self) = None
   /\ get self now key
      = (with_cache self (_cache self) (count_miss (_stats self)), None))
  \/ (exists e, dict_get key (_cache self) = Some e
      /\ (ttl_seconds self < now - generated_at e)%Q
      /\ get self now key
         = (with_cache self (dict_del key (_cache self))
              (count_miss (_stats self)), None))
  \/ (exists e, dict_get key (_cache self) = Some e
      /\ (now - generated_at e <= ttl_seconds self)%Q
      /\ ((context_hash e <> _current_context_hash self
           /\ get self now key
              = (with_cache self (_cache self) (count_miss (_stats self)),
                 None))
          \/ (context_hash e = _current_context_hash self
              /\ get self now key
                 = (with_cache self
                      (dict_set key (bump_hit_count e) (_cache self))
                      (count_hit (_stats self)),
                    Some (response_text e))))).
Proof.
  unfold get. destruct (dict_get key (_cache self)) as [e|]; [|now left].
  right.
  destruct (Qltb (ttl_seconds self) (now - generated_at e)) eqn:Hage.
  - left. exists e. apply Qltb_lt in Hage. auto.
  - right. exists e. apply Qltb_ge in Hage.
    split; [reflexivity|]. split; [assumption|].
    destruct (str_eqb (context_hash e) (_current_context_hash self)) eqn:Hh;
      simpl.
    + right. apply str_eqb_eq in Hh. auto.
    + left. apply str_eqb_neq in Hh. auto.
Qed.

Lemma get_empty (self : SpeculativeCache) (now : Q) (key : str) :
  _cache self = [] ->
  snd (get self now key) = None /\ _cache (fst (get self now key)) = [].
Proof.
  intros E. unfold get. rewrite E. simpl. auto.
Qed.

Section WithDigest.
Variable md5_hexdigest : str -> str.

(** C2 (as amended).  [get] returns the stored text exactly when an entry
    for the intent exists, its fingerprint is the current one and its age
    is at most [ttl_seconds]; otherwise it returns nothing and counts one
    miss and no hit.  A stale entry is deleted by that call; an entry that
    is fresh but was generated under another fingerprint is left in the
    cache.  When [update_context] computes a fingerprint different from the
    stored one, the cache is emptied and the new fingerprint stored, and
    [get] returns nothing, for every intent, while the cache stays empty. *)
Theorem cache_get_and_invalidate (self : SpeculativeCache) (now : Q)
  (key : str) (phase : FlightPhase) (airport runway callsign frequency : str)
  (now' : Q) (key' : str) :
  (forall txt, snd (get self now key) = Some txt <-> servable self now key txt)
  /\ (snd (get self now key) = None ->
      misses (_stats (fst (get self now key))) = (misses (_stats self) + 1)%Z
      /\ hits (_stats (fst (get self now key))) = hits (_stats self))
  /\ (forall e, dict_get key (_cache self) = Some e ->
      (ttl_seconds self < now - generated_at e)%Q ->
      _cache (fst (get self now key)) = dict_del key (_cache self)
      /\ dict_get key (_cache (fst (get self now key))) = None)
  /\ (forall e, dict_get key (_cache self) = Some e ->
      (now - generated_at e <= ttl_seconds self)%Q ->
      context_hash e <> _current_context_hash self ->
      _cache (fst (get self now key)) = _cache self)
  /\ (fingerprint md5_hexdigest phase airport runway callsign frequency
      <> _current_context_hash self ->
      let self' :=
        update_context md5_hexdigest self phase airport runway callsign
          frequency in
      _cache self' = []
      /\ _current_context_hash self'
         = fingerprint md5_hexdigest phase airport runway callsign frequency
      /\ snd (get self' now' key') = None
      /\ _cache (fst (get self' now' key')) = []).
Proof.
  split; [|split; [|split; [|split]]].
  - intros txt. unfold servable.
    destruct (get_cases self now key)
      as [[Hn ->]|[(e & He & Hage & ->)|(e & He & Hage & [[Hh ->]|[Hh ->]])]];
      simpl; split; try discriminate.
    + intros (e & He & _). congruence.
    + intros (e' & He' & _ & _ & Hfresh).
      assert (e' = e) by congruence. subst e'.
      exfalso. revert Hfresh. now apply Qlt_not_le.
    + intros (e' & He' & _ & Hsame & _).
      assert (e' = e) by congruence. subst e'. contradiction.
    + intros [= <-]. exists e. auto.
    + intros (e' & He' & <- & _). congruence.
  - destruct (get_cases self now key)
      as [[Hn ->]|[(e & He & Hage & ->)|(e & He & Hage & [[Hh ->]|[Hh ->]])]];
      simpl; try discriminate; auto.
  - intros e He Hage.
    destruct (get_cases self now key)
      as [[Hn _]|[(e' & He' & _ & ->)|(e' & He' & Hfresh & _)]].
    + congruence.
    + simpl. split; [reflexivity|apply dict_get_del].
    + assert (e' = e) by congruence. subst e'.
      exfalso. revert Hfresh. now apply Qlt_not_le.
  - intros e He Hfresh Hh.
    destruct (get_cases self now key)
      as [[Hn ->]|[(e' & He' & Hage & _)|(e' & He' & _ & [[_ ->]|[Hs _]])]].
    + reflexivity.
    + assert (e' = e) by congruence. subst e'.
      exfalso. revert Hfresh. now apply Qlt_not_le.
    + reflexivity.
    + assert (e' = e) by congruence. subst e'. contradiction.
  - intros Hne. cbv zeta. unfold update_context.
    apply str_eqb_neq in Hne. rewrite Hne. simpl.
    repeat split; reflexivity.
Qed.

End WithDigest.

Lemma cache_get_and_invalidate_witness :
  servable (sample_cache "aaaaaaaa") 10 "ready_for_departure"
    "Runway 28, cleared for takeoff".
Proof.
  apply (proj1 (cache_get_and_invalidate (fun s => s)
                  (sample_cache "aaaaaaaa") 10 "ready_for_departure"
                  CRUISE [] [] [] [] 0 [])).
  reflexivity.
Defined.

(** C2 as stated fails: an entry generated under another fingerprint is
    refused by [get] but stays in the cache. *)
Lemma cache_mismatch_not_evicted :
  let self := sample_cache "bbbbbbbb" in
  snd (get self 10 "ready_for_departure") = None
  /\ dict_get "ready_for_departure"
       (_cache (fst (get self 10 "ready_for_departure")))
     = Some sample_entry.
Proof. split; reflexivity. Qed.

End CacheProperties.

(** ** streaming_llm.py *)

Section StreamingClaims.
Import Streaming StreamingSpec.

(** When the completion flag arrives on a line of its own after a buffer
    that has just been flushed at a boundary, the chunk ending at the
    period has already gone out as non-final and no final chunk follows. *)
Lemma stream_done_on_separate_line (self : StreamingLLM) (start clock : Q) :
  min_chunk_chars self = 5%Z -> max_chunk_chars self = 100%Z ->
  map shown
    (generate_stream self start (Streamed (sample_lines_done_apart clock)))
  = [("Cessna 1 2 3 ," : str, false); ("taxi to runway 2 8 ." : str, false)].
Proof.
  intros Hmin Hmax. unfold generate_stream, sample_lines_done_apart. simpl.
  unfold _should_emit_chunk. rewrite Hmin, Hmax. reflexivity.
Qed.

(** C4 (as amended).  Fed the tokens "Cessna", " 1", " 2", " 3", " ,",
    " taxi", " to", " runway", " 2", " 8", " ." one per line, the last line
    carrying the completion flag, with [min_chunk_chars = 5] and
    [max_chunk_chars = 100], [generate_stream] yields exactly the non-final
    chunk "Cessna 1 2 3 ," and the final chunk "taxi to runway 2 8 .".
    For every stream, on the line that signals completion the buffer,
    extended by the token of that line, is emitted as one final chunk
    whatever its length when the token is not empty or the buffer holds a
    character that is not whitespace; a residual buffer of whitespace alone
    arriving with an empty token is dropped. *)
Theorem stream_chunks_and_final_flush (self : StreamingLLM) (start clock : Q)
  (buffer token : str) (rest : list Arrival) :
  (min_chunk_chars self = 5%Z -> max_chunk_chars self = 100%Z ->
   map shown
     (generate_stream self start (Streamed (token_lines clock sample_tokens)))
   = [("Cessna 1 2 3 ," : str, false); ("taxi to runway 2 8 ." : str, true)])
  /\ consume self start buffer (done_line clock token :: rest)
     = if nonempty token || nonempty (strip buffer)
       then [{| text := strip (buffer ++ token);
                is_final := true;
                latency_ms := ((clock - start) * 1000)%Q |}]
       else [].
Proof.
  split.
  - intros Hmin Hmax. unfold generate_stream. simpl.
    unfold _should_emit_chunk. rewrite Hmin, Hmax. reflexivity.
  - simpl. destruct token as [|c token]; simpl.
    + rewrite app_nil_r. destruct (strip buffer); reflexivity.
    + reflexivity.
Qed.

Lemma stream_chunks_and_final_flush_witness :
  map shown
    (generate_stream sample_llm 0 (Streamed (token_lines 1 sample_tokens)))
  = [("Cessna 1 2 3 ," : str, false); ("taxi to runway 2 8 ." : str, true)].
Proof.
  apply (proj1 (stream_chunks_and_final_flush sample_llm 0 1 [] [] []));
    reflexivity.
Defined.

(** C4 as stated fails: a residual buffer holding one space when the
    backend signals completion is not emitted at all. *)
Lemma stream_whitespace_residue_dropped :
  consume sample_llm 0 " " [done_line 1 []] = []
  /\ generate_stream sample_llm 0
       (Streamed [{| stop_set := false; now := 0; line := Data " " false |};
                  done_line 1 []])
     = [].
Proof. split; reflexivity. Qed.

End StreamingClaims.

(** ** validation.py *)

Section ValidationProperties.
Import Re Validation ValidationSpec.

(** The result on a non-empty response, with the intermediate texts named. *)
Lemma validate_nonempty (response : str) :
  response <> [] ->
  validate_atc_response response =
  let issues :=
    content_issues response ++
    (if length (cleaned_text response) <? 5
     then [list_ascii_of_string "Response too short"] else []) in
  {| valid := length (filter is_critical issues) =? 0;
     cleaned_response :=
       match cleaned_text response with
       | [] => "Say again"
       | _ => cleaned_text response
       end;
     issues := issues;
     original_response := strip response;
     warnings :=
       (scan_warnings "Prohibited: " PROHIBITED_PHRASES (scanned_text response)
        ++ scan_warnings "SCOPE: " IFR_SCOPE_VIOLATIONS
             (scanned_text response))
       ++ taxi_warning (scanned_text response) |}.
Proof.
  intros Hne. destruct response as [|c r]; [contradiction|].
  unfold validate_atc_response, content_issues, cleaned_text, scanned_text.
  destruct (scan_suspicious (strip (c :: r))) as [iss cl]. reflexivity.
Qed.

Lemma issues_nonempty (response : str) :
  response <> [] ->
  issues (validate_atc_response response)
  = content_issues response ++
    (if length (cleaned_text response) <? 5
     then [list_ascii_of_string "Response too short"] else []).
Proof. intros H. now rewrite (validate_nonempty response H). Qed.

Lemma valid_nonempty (response : str) :
  response <> [] ->
  valid (validate_atc_response response)
  = (length (filter is_critical (issues (validate_atc_response response)))
     =? 0).
Proof. intros H. now rewrite (validate_nonempty response H). Qed.

Lemma cleaned_response_of_nonempty (response : str) :
  response <> [] ->
  cleaned_response (validate_atc_response response)
  = match cleaned_text response with
    | [] => list_ascii_of_string "Say again"
    | _ => cleaned_text response
    end.
Proof. intros H. now rewrite (validate_nonempty response H). Qed.

(** *** The matcher consumes a prefix made of the characters its classes
    admit *)

Lemma classes_within_top (r : re) : classes_within (fun _ => true) r.
Proof. induction r; simpl; auto. Qed.

Section Consumed.
Variable P : ascii -> bool.
Context {A : Type}.

Lemma star_greedy_within (p : ascii -> bool) :
  (forall c, p c = true -> P c = true) ->
  forall (s : str) (prev : option ascii)
         (k : option ascii -> str -> option A) (a : A),
  star_greedy p prev s k = Some a ->
  exists pre s' prev',
    s = pre ++ s' /\ forallb P pre = true /\ k prev' s' = Some a.
Proof.
  intros Hp. induction s as [|c s IH]; intros prev k a H; simpl in H.
  - exists [], [], prev. auto.
  - destruct (p c) eqn:Hc.
    + destruct (star_greedy p (Some c) s k) as [x|] eqn:Hs.
      * injection H as ->.
        destruct (IH _ _ _ Hs) as (pre & s' & prev' & -> & Hall & Hk).
        exists (c :: pre), s', prev'. simpl. rewrite (Hp c Hc), Hall. auto.
      * exists [], (c :: s), prev. auto.
    + exists [], (c :: s), prev. auto.
Qed.

Lemma star_lazy_within (p : ascii -> bool) :
  (forall c, p c = true -> P c = true) ->
  forall (s : str) (prev : option ascii)
         (k : option ascii -> str -> option A) (a : A),
  star_lazy p prev s k = Some a ->
  exists pre s' prev',
    s = pre ++ s' /\ forallb P pre = true /\ k prev' s' = Some a.
Proof.
  intros Hp. induction s as [|c s IH]; intros prev k a H; simpl in H.
  - destruct (k prev []) as [x|] eqn:Hk; [|discriminate].
    injection H as ->. exists [], [], prev. auto.
  - destruct (k prev (c :: s)) as [x|] eqn:Hk.
    + injection H as ->. exists [], (c :: s), prev. auto.
    + destruct (p c) eqn:Hc; [|discriminate].
      destruct (IH _ _ _ H) as (pre & s' & prev' & -> & Hall & Hk').
      exists (c :: pre), s', prev'. simpl. rewrite (Hp c Hc), Hall. auto.
Qed.
End Consumed.

Lemma exec_within (P : ascii -> bool) (r : re) :
  classes_within P r ->
  forall (A : Type) (prev : option ascii) (s : str)
         (k : option ascii -> str -> option A) (a : A),
  exec r prev s k = Some a ->
  exists pre s' prev',
    s = pre ++ s' /\ forallb P pre = true /\ k prev' s' = Some a.
Proof.
  induction r as [|p|r1 IH1 r2 IH2|r1 IH1 r2 IH2|p|p|];
    intros Hr A prev s k a H; simpl in H.
  - exists [], s, prev. auto.
  - destruct s as [|c s]; [discriminate|].
    destruct (p c) eqn:Hc; [|discriminate].
    exists [c], s, (Some c). simpl. rewrite (Hr c Hc). auto.
  - destruct Hr as [Hr1 Hr2].
    destruct (IH1 Hr1 _ _ _ _ _ H) as (pre1 & s1 & prev1 & -> & Hall1 & H1).
    destruct (IH2 Hr2 _ _ _ _ _ H1) as (pre2 & s2 & prev2 & -> & Hall2 & H2).
    exists (pre1 ++ pre2), s2, prev2. rewrite forallb_app, Hall1, Hall2.
    rewrite app_assoc. auto.
  - destruct Hr as [Hr1 Hr2].
    destruct (exec r1 prev s k) as [x|] eqn:E.
    + injection H as ->. now apply (IH1 Hr1 _ _ _ _ _ E).
    + now apply (IH2 Hr2 _ _ _ _ _ H).
  - now apply (star_greedy_within P p Hr s prev k a).
  - now apply (star_lazy_within P p Hr s prev k a).
  - destruct (at_boundary prev s); [|discriminate].
    exists [], s, prev. auto.
Qed.

(** The captured group of a match is made of characters its classes admit. *)
Lemma match_here_group (P : ascii -> bool) (p : pattern)
  (prev : option ascii) (s g : str) (n : nat) :
  classes_within P (group p) ->
  match_here p prev s = Some (g, n) -> forallb P g = true.
Proof.
  intros Hg H. unfold match_here in H.
  apply (exec_within _ _ (classes_within_top (before p))) in H.
  destruct H as (pre1 & s1 & prev1 & _ & _ & H).
  apply (exec_within _ _ Hg) in H.
  destruct H as (pre2 & s2 & prev2 & -> & Hall & H).
  apply (exec_within _ _ (classes_within_top (after p))) in H.
  destruct H as (pre3 & s3 & prev3 & _ & _ & H).
  injection H as <- _.
  rewrite length_app, Nat.add_sub.
  rewrite firstn_app, Nat.sub_diag, firstn_all. simpl.
  now rewrite app_nil_r.
Qed.

Lemma findall_within (P : ascii -> bool) (p : pattern) :
  classes_within P (group p) ->
  forall (s : str) (skip : nat) (prev : option ascii) (g : str),
  In g (findall_from p skip prev s) -> forallb P g = true.
Proof.
  intros Hg. induction s as [|c s IH]; intros skip prev g Hin; simpl in Hin.
  - destruct Hin.
  - destruct skip as [|n]; [|now apply (IH _ _ _ Hin)].
    destruct (match_here p prev (c :: s)) as [[g' [|n]]|] eqn:Hm;
      try now apply (IH _ _ _ Hin).
    destruct Hin as [<-|Hin]; [|now apply (IH _ _ _ Hin)].
    now apply (match_here_group P p prev (c :: s) g' (S n)).
Qed.

(** The same for the texts a pattern denotes. *)
Lemma exec_denotes (r : re) :
  forall (A : Type) (prev : option ascii) (s : str)
         (k : option ascii -> str -> option A) (a : A),
  exec r prev s k = Some a ->
  exists pre s' prev',
    s = pre ++ s' /\ denotes r pre /\ k prev' s' = Some a.
Proof.
  induction r as [|p|r1 IH1 r2 IH2|r1 IH1 r2 IH2|p|p|];
    intros A prev s k a H; cbn [exec] in H.
  - exists [], s, prev. cbn [denotes]. auto.
  - destruct s as [|c s]; [discriminate|].
    destruct (p c) eqn:Hc; [|discriminate].
    exists [c], s, (Some c). cbn [denotes]. split; [reflexivity|].
    split; [now exists c|assumption].
  - destruct (IH1 _ _ _ _ _ H) as (pre1 & s1 & prev1 & -> & D1 & H1).
    destruct (IH2 _ _ _ _ _ H1) as (pre2 & s2 & prev2 & -> & D2 & H2).
    exists (pre1 ++ pre2), s2, prev2. rewrite app_assoc.
    split; [reflexivity|]. split; [|assumption].
    cbn [denotes]. now exists pre1, pre2.
  - destruct (exec r1 prev s k) as [x|] eqn:E.
    + injection H as ->.
      destruct (IH1 _ _ _ _ _ E) as (pre & s' & prev' & -> & D & Hk).
      exists pre, s', prev'. cbn [denotes]. auto.
    + destruct (IH2 _ _ _ _ _ H) as (pre & s' & prev' & -> & D & Hk).
      exists pre, s', prev'. cbn [denotes]. auto.
  - apply (star_greedy_within p p (fun c Hc => Hc) s prev k a H).
  - apply (star_lazy_within p p (fun c Hc => Hc) s prev k a H).
  - destruct (at_boundary prev s); [|discriminate].
    exists [], s, prev. cbn [denotes]. auto.
Qed.

Lemma match_here_denotes (p : pattern) (prev : option ascii) (s g : str)
  (n : nat) :
  match_here p prev s = Some (g, n) -> denotes (group p) g.
Proof.
  intros H. unfold match_here in H.
  apply exec_denotes in H. destruct H as (pre1 & s1 & prev1 & _ & _ & H).
  apply exec_denotes in H. destruct H as (pre2 & s2 & prev2 & -> & D & H).
  apply exec_denotes in H. destruct H as (pre3 & s3 & prev3 & _ & _ & H).
  injection H as <- _.
  rewrite length_app, Nat.add_sub.
  rewrite firstn_app, Nat.sub_diag, firstn_all. cbn [firstn].
  now rewrite app_nil_r.
Qed.

Lemma findall_denotes (p : pattern) :
  forall (s : str) (skip : nat) (prev : option ascii) (g : str),
  In g (findall_from p skip prev s) -> denotes (group p) g.
Proof.
  induction s as [|c s IH]; intros skip prev g Hin; cbn [findall_from] in Hin.
  - destruct Hin.
  - destruct skip as [|n]; [|now apply (IH _ _ _ Hin)].
    destruct (match_here p prev (c :: s)) as [[g' [|n]]|] eqn:Hm;
      try now apply (IH _ _ _ Hin).
    destruct Hin as [<-|Hin]; [|now apply (IH _ _ _ Hin)].
    now apply (match_here_denotes p prev (c :: s) g' (S n)).
Qed.

(** *** Which recorded issues are critical *)

Lemma startswith_chars (p s : str) :
  startswith s p = true -> forall x, In x p -> In x s.
Proof.
  revert s. induction p as [|y p IH]; intros s H x Hx; [destruct Hx|].
  destruct s as [|z s]; [discriminate|]. simpl in H.
  apply andb_true_iff in H as [Hy Hp]. apply Ascii.eqb_eq in Hy. subst z.
  destruct Hx as [<-|Hx]; [now left|]. right. now apply (IH s).
Qed.

Lemma str_in_chars (p s : str) :
  str_in p s = true -> forall x, In x p -> In x s.
Proof.
  induction s as [|z s IH]; simpl; intros H x Hx.
  - rewrite orb_false_r in H. exact (startswith_chars p [] H x Hx).
  - apply orb_true_iff in H as [H|H].
    + exact (startswith_chars p (z :: s) H x Hx).
    + right. now apply IH.
Qed.

(** A text in which a critical keyword occurs is marked. *)
Lemma critical_marked (i : str) :
  is_critical i = true -> marked i = true.
Proof.
  unfold is_critical, critical_keywords, marked. simpl.
  rewrite !orb_true_iff.
  intros [H|[H|[H|[H|[H|H]]]]]; try discriminate.
  - left. left. left. apply char_in_In.
    apply (str_in_chars _ _ H). simpl. tauto.
  - left. left. right. apply char_in_In.
    apply (str_in_chars _ _ H). simpl. tauto.
  - left. left. right. apply char_in_In.
    apply (str_in_chars _ _ H). simpl. tauto.
  - left. right. apply char_in_In.
    apply (str_in_chars _ _ H). simpl. tauto.
  - right. apply andb_true_iff. split; apply char_in_In;
      apply (str_in_chars _ _ H); simpl; tauto.
Qed.

Lemma digit_not_telltale (c : ascii) : re_digit c = true -> telltale c = false.
Proof.
  destruct c as [[] [] [] [] [] [] [] []];
    intros H; try reflexivity; discriminate H.
Qed.

Lemma freq_char_not_telltale (c : ascii) :
  freq_char c = true -> telltale c = false.
Proof.
  destruct c as [[] [] [] [] [] [] [] []];
    intros H; try reflexivity; discriminate H.
Qed.

Lemma no_telltale (P : ascii -> bool) (g : str) :
  (forall c, P c = true -> telltale c = false) ->
  forallb P g = true -> existsb telltale g = false.
Proof.
  intros HP. induction g as [|c g IH]; simpl; [reflexivity|].
  intros H. apply andb_true_iff in H as [Hc Hg].
  now rewrite (HP c Hc), (IH Hg).
Qed.

Lemma str_of_N_no_telltale (n : N) : existsb telltale (str_of_N n) = false.
Proof.
  unfold str_of_N. induction (N.to_uint n) as [|u IH|u IH|u IH|u IH|u IH
      |u IH|u IH|u IH|u IH|u IH]; simpl; try reflexivity; exact IH.
Qed.

Lemma no_telltale_char (x : ascii) (g : str) :
  telltale x = true -> existsb telltale g = false -> char_in x g = false.
Proof.
  intros Hx Hg. apply char_in_false. intros Hin.
  assert (E : existsb telltale g = true)
    by (apply existsb_exists; now exists x).
  congruence.
Qed.

(** A part without telltale letters does not decide whether a text is
    marked. *)
Lemma marked_around (pre g post : str) :
  existsb telltale g = false ->
  marked (pre ++ g ++ post) = marked (pre ++ post).
Proof.
  intros Hg. unfold marked, char_in. rewrite !existsb_app.
  fold (char_in "M" g) (char_in "S" g) (char_in "E" g) (char_in "h" g)
       (char_in "o" g).
  now rewrite !(no_telltale_char _ g) by (reflexivity || assumption).
Qed.

Lemma classes_altitude : classes_within re_digit (group altitude_pattern).
Proof. simpl. intuition. Qed.

Lemma classes_fl : classes_within re_digit (group fl_pattern).
Proof. simpl. intuition. Qed.

Lemma classes_squawk : classes_within re_digit (group squawk_pattern).
Proof. simpl. intuition. Qed.

Lemma classes_freq : classes_within freq_char (group freq_pattern).
Proof.
  simpl. unfold freq_char.
  repeat split; intros c H; rewrite ?H, ?orb_true_r; try reflexivity.
  apply orb_true_iff in H as [H|H]; rewrite H, ?orb_true_r; reflexivity.
Qed.

(** The issues about numbers are not marked. *)
Lemma altitude_issues_plain (s i : str) :
  In i (altitude_issues s) -> marked i = false.
Proof.
  unfold altitude_issues. intros H. apply in_flat_map in H.
  destruct H as (g & _ & H).
  destruct (py_int g) as [alt|]; [|destruct H].
  destruct (altitude_max <? alt)%N; [|destruct H].
  destruct H as [<-|[]].
  now rewrite marked_around by apply str_of_N_no_telltale.
Qed.

Lemma flight_level_issues_plain (s i : str) :
  In i (flight_level_issues s) -> marked i = false.
Proof.
  unfold flight_level_issues. intros H. apply in_flat_map in H.
  destruct H as (g & Hg & H).
  apply (findall_within re_digit _ classes_fl) in Hg.
  destruct (py_int g) as [n|]; [|destruct H].
  destruct (altitude_max <? n * 100)%N; [|destruct H].
  destruct H as [<-|[]].
  rewrite <- (app_nil_r g).
  now rewrite marked_around
    by now apply (no_telltale re_digit g digit_not_telltale).
Qed.

Lemma frequency_issues_plain (s i : str) :
  In i (frequency_issues s) -> marked i = false.
Proof.
  unfold frequency_issues. intros H. apply in_flat_map in H.
  destruct H as (g & Hg & H).
  apply (findall_within freq_char _ classes_freq) in Hg.
  destruct (py_float (comma_to_dot g)) as [freq|]; [|destruct H].
  destruct (negb (Qleb freq_min freq && Qleb freq freq_max)); [|destruct H].
  destruct (negb (Qleb 0 freq && Qleb freq 7777)); [|destruct H].
  destruct H as [<-|[]].
  rewrite <- (app_nil_r g).
  now rewrite marked_around
    by now apply (no_telltale freq_char g freq_char_not_telltale).
Qed.

Lemma squawk_issues_plain (s i : str) :
  In i (squawk_issues s) -> marked i = false.
Proof.
  unfold squawk_issues. intros H. apply in_flat_map in H.
  destruct H as (g & Hg & H).
  apply (findall_within re_digit _ classes_squawk) in Hg.
  assert (Hplain : existsb telltale g = false)
    by now apply (no_telltale re_digit g digit_not_telltale).
  destruct (existsb (fun c => char_in c g) "89").
  - destruct H as [<-|[]]. rewrite <- (app_nil_r g).
    now rewrite marked_around by assumption.
  - destruct (py_int g) as [n|]; [|destruct H].
    destruct (squawk_max <? n)%N; [|destruct H].
    destruct H as [<-|[]]. rewrite <- (app_nil_r g).
    now rewrite marked_around by assumption.
Qed.

(** *** The frequency check never fires *)

Lemma digit_value_le9 (c : ascii) :
  re_digit c = true -> (digit_value c <= 9)%N.
Proof.
  destruct c as [[] [] [] [] [] [] [] []];
    intros H; try discriminate H; vm_compute; discriminate.
Qed.

Lemma digit_not_separator (c : ascii) :
  re_digit c = true -> cs "." c = false /\ cs "," c = false.
Proof.
  destruct c as [[] [] [] [] [] [] [] []];
    intros H; try discriminate H; split; reflexivity.
Qed.

Lemma fold_digits_bound (s : str) :
  forall acc : N,
  forallb re_digit s = true ->
  (fold_left (fun acc c => 10 * acc + digit_value c) s acc
   < (acc + 1) * 10 ^ N.of_nat (length s))%N.
Proof.
  induction s as [|c s IH]; intros acc H.
  - cbn [fold_left length]. change (N.of_nat 0) with 0%N.
    rewrite N.pow_0_r. lia.
  - cbn [forallb] in H. apply andb_true_iff in H as [Hc Hs].
    cbn [fold_left length]. rewrite Nat2N.inj_succ, N.pow_succ_r'.
    pose proof (digit_value_le9 c Hc) as Hv.
    specialize (IH (10 * acc + digit_value c)%N Hs).
    set (pw := (10 ^ N.of_nat (length s))%N) in *.
    nia.
Qed.

Lemma py_int_bound (s : str) (n : N) :
  py_int s = Some n -> (n < 10 ^ N.of_nat (length s))%N.
Proof.
  unfold py_int. destruct s as [|c s]; [discriminate|].
  destruct (forallb re_digit (c :: s)) eqn:H; [|discriminate].
  intros [= <-]. pose proof (fold_digits_bound (c :: s) 0 H) as B.
  now rewrite N.add_0_l, N.mul_1_l in B.
Qed.

(** A numeral with three digits before the point is below 1000. *)
Lemma py_float_three_digits (t a b : str) (q : Q) :
  split_at_dot t = Some (a, b) -> length a = 3 ->
  py_float t = Some q ->
  Qleb 0 q = true /\ Qleb q 7777 = true.
Proof.
  intros Hsplit Hlen. unfold py_float. rewrite Hsplit.
  destruct (py_int a) as [ip|] eqn:Ha; [|discriminate].
  destruct (py_int b) as [fp|] eqn:Hb; [|discriminate].
  intros [= <-]. apply py_int_bound in Ha, Hb. rewrite Hlen in Ha.
  change (10 ^ N.of_nat 3)%N with 1000%N in Ha.
  set (scale := (10 ^ Z.of_nat (length b))%Z).
  assert (Hscale : (0 < scale)%Z) by (apply Z.pow_pos_nonneg; lia).
  assert (Hfp : (Z.of_N fp < scale)%Z).
  { unfold scale. rewrite <- nat_N_Z.
    change 10%Z with (Z.of_N 10). rewrite <- N2Z.inj_pow. lia. }
  split; apply Qle_bool_iff; unfold Qle; cbn [Qnum Qden inject_Z];
    rewrite ?Z2Pos.id by assumption; nia.
Qed.

Lemma comma_to_dot_app (u v : str) :
  comma_to_dot (u ++ v) = comma_to_dot u ++ comma_to_dot v.
Proof. apply map_app. Qed.

(** A captured frequency splits after its first three digits. *)
Lemma captured_frequency_splits (g : str) :
  denotes (group freq_pattern) g ->
  exists a b, split_at_dot (comma_to_dot g) = Some (a, b) /\ length a = 3.
Proof.
  unfold freq_pattern. cbn [group seq rep denotes d].
  intros (u & v & -> & Hu & Hv).
  destruct Hu as (u1 & r1 & -> & (d1 & -> & H1) & Hu).
  destruct Hu as (u2 & r2 & -> & (d2 & -> & H2) & Hu).
  destruct Hu as (u3 & r3 & -> & (d3 & -> & H3) & ->).
  destruct Hv as (w & v' & -> & (sep & -> & Hsep) & _).
  destruct (digit_not_separator d1 H1) as [P1 C1].
  destruct (digit_not_separator d2 H2) as [P2 C2].
  destruct (digit_not_separator d3 H3) as [P3 C3].
  exists [d1; d2; d3], (comma_to_dot v'). split; [|reflexivity].
  cbn [app comma_to_dot map split_at_dot].
  rewrite C1, C2, C3, P1, P2, P3.
  assert (E : cs "." (if cs "," sep then "."%char else sep) = true).
  { cbv beta in Hsep. destruct (cs "," sep) eqn:Hc; [reflexivity|].
    now rewrite orb_false_r in Hsep. }
  now rewrite E.
Qed.

(** No text makes the validator record an "Invalid frequency" issue: a
    captured frequency is below 1000 and falls in the tolerated range. *)
Lemma frequency_issue_never_recorded (s : str) : frequency_issues s = [].
Proof.
  unfold frequency_issues.
  assert (G : forall l : list str,
             (forall g, In g l -> denotes (group freq_pattern) g) ->
             flat_map
               (fun freq_str =>
                  match py_float (comma_to_dot freq_str) with
                  | Some freq =>
                    if negb (Qleb freq_min freq && Qleb freq freq_max) then
                      if negb (Qleb 0 freq && Qleb freq 7777)
                      then ["Invalid frequency: " ++ freq_str]
                      else []
                    else []
                  | None => []
                  end) l = []).
  { induction l as [|g l IH]; intros Hl; [reflexivity|].
    cbn [flat_map]. rewrite IH by (intros g' Hg'; apply Hl; now right).
    rewrite app_nil_r.
    destruct (captured_frequency_splits g (Hl g (or_introl eq_refl)))
      as (a & b & Hsplit & Hlen).
    destruct (py_float (comma_to_dot g)) as [freq|] eqn:Hf; [|reflexivity].
    destruct (py_float_three_digits _ _ _ _ Hsplit Hlen Hf) as [L0 L1].
    rewrite L0, L1. cbn [andb negb].
    now destruct (negb (Qleb freq_min freq && Qleb freq freq_max)). }
  apply G. intros g Hg. now apply (findall_denotes freq_pattern _ _ _ _ Hg).
Qed.

(** The issues of the scan for suspicious patterns come from the table. *)
Lemma scan_step_from_table (i : str) (table : list (re * str)) :
  forall (iss : list str) (cl : str),
  In i (fst (fold_left suspicious_step table (iss, cl))) ->
  In i iss \/ In i (map (fun pd => "Contains " ++ snd pd) table).
Proof.
  induction table as [|pd table IH]; intros iss cl H; simpl in H.
  - now left.
  - destruct (search (fst pd) cl).
    + destruct (IH _ _ H) as [Hi|Hi].
      * apply in_app_or in Hi. destruct Hi as [Hi|[<-|[]]].
        -- now left.
        -- right. now left.
      * right. now right.
    + destruct (IH _ _ H) as [Hi|Hi]; [now left|right; now right].
Qed.

Lemma scan_suspicious_from_table (s i : str) :
  In i (fst (scan_suspicious s)) ->
  In i (map (fun pd => "Contains " ++ snd pd) SUSPICIOUS_PATTERNS).
Proof.
  intros H. destruct (scan_step_from_table i _ _ _ H) as [[]|Hi]. exact Hi.
Qed.

(** An issue once recorded stays recorded. *)
Lemma scan_step_keeps (i : str) (table : list (re * str)) :
  forall (iss : list str) (cl : str),
  In i iss -> In i (fst (fold_left suspicious_step table (iss, cl))).
Proof.
  induction table as [|pd table IH]; intros iss cl H; simpl; [assumption|].
  destruct (search (fst pd) cl); apply IH; [|assumption].
  apply in_or_app. now left.
Qed.

(** The first pattern is searched in the stripped response itself. *)
Lemma scan_finds_control_token (s : str) :
  search llm_control_token s = true ->
  In (list_ascii_of_string "Contains LLM control token")
    (fst (scan_suspicious s)).
Proof.
  intros H. unfold scan_suspicious.
  change SUSPICIOUS_PATTERNS
    with ((llm_control_token, list_ascii_of_string "LLM control token")
          :: tl SUSPICIOUS_PATTERNS).
  cbn [fold_left]. unfold suspicious_step at 2. cbn [fst snd]. rewrite H.
  apply scan_step_keeps. now left.
Qed.

(** Among the issues of the table the critical ones are the fatal ones. *)
Lemma table_issue_fatal (i : str) :
  In i (map (fun pd => "Contains " ++ snd pd) SUSPICIOUS_PATTERNS) ->
  is_critical i = true -> In i fatal_issues.
Proof.
  simpl. intros H.
  repeat (destruct H as [<-|H];
          [vm_compute; intros Hc;
           first [discriminate Hc | tauto]|]).
  destruct H.
Qed.

Lemma fatal_is_critical (i : str) :
  In i fatal_issues -> is_critical i = true.
Proof.
  simpl. intros H.
  repeat (destruct H as [<-|H]; [reflexivity|]). destruct H.
Qed.

Lemma fatal_is_marked (i : str) : In i fatal_issues -> marked i = true.
Proof. intros H. apply critical_marked. now apply fatal_is_critical. Qed.

(** The issues about numbers are never fatal. *)
Lemma numeric_issue_not_fatal (response i : str) :
  In i (altitude_issues (scanned_text response)
        ++ flight_level_issues (scanned_text response)
        ++ frequency_issues (scanned_text response)
        ++ squawk_issues (scanned_text response)) ->
  marked i = false.
Proof.
  intros H. repeat (apply in_app_or in H; destruct H as [H|H]).
  - now apply (altitude_issues_plain _ _ H).
  - now apply (flight_level_issues_plain _ _ H).
  - now apply (frequency_issues_plain _ _ H).
  - now apply (squawk_issues_plain _ _ H).
Qed.

Lemma content_issue_fatal (response i : str) :
  In i (content_issues response) -> is_critical i = true ->
  In i fatal_issues.
Proof.
  unfold content_issues. intros H Hc.
  apply in_app_or in H. destruct H as [H|H].
  - apply in_app_or in H. destruct H as [H|H].
    + apply in_app_or in H. destruct H as [H|H].
      * apply in_app_or in H. destruct H as [H|H].
        -- apply table_issue_fatal; [|assumption].
           now apply (scan_suspicious_from_table (strip response)).
        -- apply critical_marked in Hc.
           rewrite (altitude_issues_plain _ _ H) in Hc. discriminate.
      * apply critical_marked in Hc.
        rewrite (flight_level_issues_plain _ _ H) in Hc. discriminate.
    + apply critical_marked in Hc.
      rewrite (frequency_issues_plain _ _ H) in Hc. discriminate.
  - apply critical_marked in Hc.
    rewrite (squawk_issues_plain _ _ H) in Hc. discriminate.
Qed.

(** For a recorded issue, critical and fatal are the same. *)
Lemma empty_or_not (response : str) : response = [] \/ response <> [].
Proof. destruct response; [now left|right; discriminate]. Qed.

Lemma issues_empty :
  issues (validate_atc_response [])
  = [list_ascii_of_string "Empty response"].
Proof. reflexivity. Qed.

Lemma valid_empty : valid (validate_atc_response []) = false.
Proof. reflexivity. Qed.

Lemma recorded_issue_fatal (response i : str) :
  In i (issues (validate_atc_response response)) ->
  is_critical i = true -> In i fatal_issues.
Proof.
  destruct (empty_or_not response) as [->|Hne].
  - rewrite issues_empty. intros [<-|[]] _.
    right. right. right. left. reflexivity.
  - rewrite (issues_nonempty response Hne).
    intros H Hc. apply in_app_or in H. destruct H as [H|H].
    + exact (content_issue_fatal response i H Hc).
    + destruct (length (cleaned_text response) <? 5); [|destruct H].
      destruct H as [<-|[]].
      right. right. right. right. left. reflexivity.
Qed.

Lemma no_critical_iff (l : list str) :
  (length (filter is_critical l) =? 0) = true <->
  forall i, In i l -> is_critical i = false.
Proof.
  induction l as [|x l IH]; cbn [filter length In].
  - split; [intros _ i []|reflexivity].
  - destruct (is_critical x) eqn:Hx; cbn [length Nat.eqb].
    + split; [discriminate|]. intros H.
      specialize (H x (or_introl eq_refl)). congruence.
    + rewrite IH. split.
      * intros H i [<-|Hi]; [assumption|exact (H i Hi)].
      * intros H i Hi. apply H. right. exact Hi.
Qed.

Lemma valid_iff_no_critical (response : str) :
  valid (validate_atc_response response) = true <->
  forall i, In i (issues (validate_atc_response response)) ->
            is_critical i = false.
Proof.
  destruct (empty_or_not response) as [->|Hne].
  - rewrite valid_empty, issues_empty. split; [discriminate|]. intros H.
    specialize (H _ (or_introl eq_refl)). vm_compute in H. discriminate H.
  - rewrite (valid_nonempty response Hne). apply no_critical_iff.
Qed.

(** *** Markers that outlast the removal of other patterns *)

Lemma denotes_starts (F : ascii -> bool) (r : re) :
  starts_with F r ->
  forall w, denotes r w -> exists c w', w = c :: w' /\ F c = true.
Proof.
  induction r as [|p|r1 IH1 r2 IH2|r1 IH1 r2 IH2|p|p|];
    cbn [starts_with denotes]; intros Hr w D; try contradiction.
  - destruct D as (c & -> & Hc). exists c, []. auto.
  - destruct D as (u & v & -> & D1 & _).
    destruct (IH1 Hr _ D1) as (c & u' & -> & Hc). exists c, (u' ++ v). auto.
  - destruct Hr as [H1 H2].
    destruct D as [D|D]; [apply (IH1 H1 _ D)|apply (IH2 H2 _ D)].
Qed.

Lemma denotes_ends (L : ascii -> bool) (r : re) :
  ends_with L r ->
  forall w, denotes r w -> exists w' c, w = w' ++ [c] /\ L c = true.
Proof.
  induction r as [|p|r1 IH1 r2 IH2|r1 IH1 r2 IH2|p|p|];
    cbn [ends_with denotes]; intros Hr w D; try contradiction.
  - destruct D as (c & -> & Hc). exists [], c. auto.
  - destruct D as (u & v & -> & _ & D2).
    destruct (IH2 Hr _ D2) as (v' & c & -> & Hc). exists (u ++ v'), c.
    rewrite app_assoc. auto.
  - destruct Hr as [H1 H2].
    destruct D as [D|D]; [apply (IH1 H1 _ D)|apply (IH2 H2 _ D)].
Qed.

Lemma denotes_within (P : ascii -> bool) (r : re) :
  classes_within P r -> forall w, denotes r w -> forallb P w = true.
Proof.
  induction r as [|p|r1 IH1 r2 IH2|r1 IH1 r2 IH2|p|p|];
    cbn [classes_within denotes]; intros Hr w D.
  - subst. reflexivity.
  - destruct D as (c & -> & Hc). cbn [forallb]. now rewrite (Hr c Hc).
  - destruct Hr as [H1 H2]. destruct D as (u & v & -> & D1 & D2).
    now rewrite forallb_app, (IH1 H1 _ D1), (IH2 H2 _ D2).
  - destruct Hr as [H1 H2].
    destruct D as [D|D]; [apply (IH1 H1 _ D)|apply (IH2 H2 _ D)].
  - rewrite forallb_forall in *. intros x Hx. apply Hr. now apply D.
  - rewrite forallb_forall in *. intros x Hx. apply Hr. now apply D.
  - subst. reflexivity.
Qed.

(** The matcher finds a match wherever the pattern denotes a text and the
    continuation accepts what follows. *)
Lemma star_greedy_complete {A : Type} (p : ascii -> bool) (m : str) :
  forallb p m = true ->
  forall (prev : option ascii) (rest : str)
         (k : option ascii -> str -> option A),
  (forall prev', k prev' rest <> None) ->
  star_greedy p prev (m ++ rest) k <> None.
Proof.
  induction m as [|c m IH]; intros Hm prev rest k Hk; cbn [app].
  - destruct rest as [|c rest']; cbn [star_greedy]; [apply Hk|].
    destruct (p c); [|apply Hk].
    destruct (star_greedy p (Some c) rest' k); [discriminate|apply Hk].
  - cbn [forallb] in Hm. apply andb_true_iff in Hm as [Hc Hm].
    cbn [star_greedy]. rewrite Hc.
    destruct (star_greedy p (Some c) (m ++ rest) k) eqn:E; [discriminate|].
    exfalso. exact (IH Hm (Some c) rest k Hk E).
Qed.

Lemma star_lazy_complete {A : Type} (p : ascii -> bool) (m : str) :
  forallb p m = true ->
  forall (prev : option ascii) (rest : str)
         (k : option ascii -> str -> option A),
  (forall prev', k prev' rest <> None) ->
  star_lazy p prev (m ++ rest) k <> None.
Proof.
  induction m as [|c m IH]; intros Hm prev rest k Hk; cbn [app].
  - destruct rest as [|c rest']; cbn [star_lazy];
      (destruct (k prev _) eqn:E; [discriminate|]);
      exfalso; exact (Hk prev E).
  - cbn [forallb] in Hm. apply andb_true_iff in Hm as [Hc Hm].
    cbn [star_lazy]. destruct (k prev (c :: m ++ rest)); [discriminate|].
    rewrite Hc. now apply IH.
Qed.

Lemma exec_complete (r : re) :
  context_free r ->
  forall m : str, denotes r m ->
  forall (A : Type) (prev : option ascii) (rest : str)
         (k : option ascii -> str -> option A),
  (forall prev', k prev' rest <> None) ->
  exec r prev (m ++ rest) k <> None.
Proof.
  induction r as [|p|r1 IH1 r2 IH2|r1 IH1 r2 IH2|p|p|];
    cbn [context_free denotes]; intros Hr m D A prev rest k Hk; cbn [exec].
  - subst. apply Hk.
  - destruct D as (c & -> & Hc). cbn [app]. rewrite Hc. apply Hk.
  - destruct Hr as [H1 H2]. destruct D as (u & v & -> & D1 & D2).
    rewrite <- app_assoc. apply (IH1 H1 u D1). intros prev'.
    apply (IH2 H2 v D2). exact Hk.
  - destruct Hr as [H1 H2].
    destruct (exec r1 prev (m ++ rest) k) eqn:E; [discriminate|].
    destruct D as [D|D].
    + exfalso. exact (IH1 H1 m D A prev rest k Hk E).
    + apply (IH2 H2 m D). exact Hk.
  - now apply star_greedy_complete.
  - now apply star_lazy_complete.
  - contradiction.
Qed.

Lemma search_from_eq (p : pattern) (prev : option ascii) (s : str) :
  search_from p prev s
  = match match_here p prev s with
    | Some _ => true
    | None =>
      match s with
      | c :: s' => search_from p (Some c) s'
      | [] => false
      end
    end.
Proof. destruct s; reflexivity. Qed.

(** [re.search] succeeds exactly on the texts in which the pattern has a
    match. *)
Lemma occurs_search (r : re) (s : str) :
  context_free r -> occurs r s -> search r s = true.
Proof.
  intros Hr (a & m & b & -> & D). unfold search. generalize (@None ascii).
  induction a as [|x a IH]; intros prev; rewrite search_from_eq.
  - cbn [app].
    destruct (match_here (plain r) prev (m ++ b)) eqn:E; [reflexivity|].
    exfalso. revert E. unfold match_here, plain. cbn [before group after exec].
    apply (exec_complete r Hr m D). intros prev'. discriminate.
  - destruct (match_here (plain r) prev ((x :: a) ++ m ++ b));
      [reflexivity|]. cbn [app]. apply IH.
Qed.

Lemma match_here_consumed (r : re) (prev : option ascii) (s g : str)
  (n : nat) :
  match_here (plain r) prev s = Some (g, n) ->
  exists w rest, s = w ++ rest /\ length w = n /\ denotes r w.
Proof.
  unfold match_here, plain. cbn [before group after exec]. intros H.
  apply exec_denotes in H. destruct H as (pre & s' & prev' & -> & D & H).
  injection H as _ <-. exists pre, s'. split; [reflexivity|].
  split; [|exact D]. rewrite length_app. lia.
Qed.

Lemma search_occurs (r : re) (s : str) : search r s = true -> occurs r s.
Proof.
  unfold search. generalize (@None ascii).
  induction s as [|c s IH]; intros prev; rewrite search_from_eq.
  - destruct (match_here (plain r) prev []) as [[g n]|] eqn:E;
      [|discriminate]. intros _.
    apply match_here_consumed in E as (w & rest & E & _ & D).
    exists [], w, rest. auto.
  - destruct (match_here (plain r) prev (c :: s)) as [[g n]|] eqn:E.
    + intros _. apply match_here_consumed in E as (w & rest & E & _ & D).
      exists [], w, rest. auto.
    + intros H. destruct (IH _ H) as (a & m & b & -> & D).
      exists (c :: a), m, b. auto.
Qed.

(** [strip] keeps a match that begins and ends with a character that is
    not whitespace. *)
Lemma lstrip_keeps (a m b : str) (c : ascii) :
  py_isspace c = false ->
  exists a', lstrip (a ++ (c :: m) ++ b) = a' ++ (c :: m) ++ b.
Proof.
  intros Hc. induction a as [|x a [a' IH]]; cbn [app lstrip].
  - rewrite Hc. now exists [].
  - destruct (py_isspace x); [now exists a'|now exists (x :: a)].
Qed.

Lemma occurs_strip (mk : re) (s : str) :
  starts_with shown mk -> ends_with shown mk ->
  occurs mk s -> occurs mk (strip s).
Proof.
  intros Hs He (a & m & b & -> & D).
  destruct (denotes_starts _ _ Hs _ D) as (c & m' & Em & Hc).
  destruct (denotes_ends _ _ He _ D) as (m'' & e & Em' & Hce).
  unfold shown in Hc, Hce. apply negb_true_iff in Hc, Hce.
  unfold strip, rstrip.
  assert (L : exists a', lstrip (a ++ m ++ b) = a' ++ m ++ b).
  { rewrite Em. now apply lstrip_keeps. }
  destruct L as (a' & ->).
  assert (R : exists b', lstrip (rev (a' ++ m ++ b))
                         = b' ++ rev m ++ rev a').
  { assert (Er : rev m = e :: rev m'')
      by (rewrite Em', rev_app_distr; reflexivity).
    rewrite !rev_app_distr, <- app_assoc, Er. now apply lstrip_keeps. }
  destruct R as (b' & ->).
  exists a', m, (rev b').
  rewrite !rev_app_distr, !rev_involutive, <- app_assoc.
  split; [reflexivity|exact D].
Qed.

Section Removal.
Variables r mk : re.
Hypothesis r_starts : starts_with opener r.
Hypothesis r_within : classes_within (fun c => negb (lt_sign c)) r.
Hypothesis mk_starts : starts_with lt_sign mk.
Hypothesis mk_within : classes_within (fun c => negb (opener c)) mk.

(** No match of [r] begins on a character that is not an opener. *)
Lemma no_match_inside (prev : option ascii) (c : ascii) (s g : str)
  (n : nat) :
  opener c = false ->
  match_here (plain r) prev (c :: s) = Some (g, n) -> n = 0.
Proof.
  intros Hc H. apply match_here_consumed in H as (w & rest & E & <- & D).
  destruct w as [|x w]; [reflexivity|]. exfalso.
  destruct (denotes_starts _ _ r_starts _ D) as (y & w' & E' & Hy).
  injection E' as <- <-. cbn [app] in E. injection E as <- _. congruence.
Qed.

Lemma sub_through (m : str) :
  forallb (fun c => negb (opener c)) m = true ->
  forall (prev : option ascii) (b : str),
  exists prev',
    sub_from (plain r) [] 0 prev (m ++ b)
    = m ++ sub_from (plain r) [] 0 prev' b.
Proof.
  induction m as [|c m IH]; intros Hm prev b; [now exists prev|].
  cbn [forallb] in Hm. apply andb_true_iff in Hm as [Hc Hm].
  apply negb_true_iff in Hc. cbn [app sub_from].
  destruct (IH Hm (Some c) b) as (prev' & E). exists prev'.
  destruct (match_here (plain r) prev (c :: m ++ b)) as [[g [|n]]|] eqn:M;
    try (now rewrite E).
  apply (no_match_inside _ _ _ _ _ Hc) in M. discriminate M.
Qed.

Lemma sub_from_keeps (m b : str) :
  denotes mk m ->
  forall (a : str) (skip : nat) (prev : option ascii),
  skip <= length a ->
  exists a' b', sub_from (plain r) [] skip prev (a ++ m ++ b) = a' ++ m ++ b'.
Proof.
  intros D.
  pose proof (denotes_within _ _ mk_within _ D) as Hm.
  destruct (denotes_starts _ _ mk_starts _ D) as (c0 & m0 & Em & Hc0).
  induction a as [|x a IH]; intros skip prev Hs.
  - cbn [length] in Hs. assert (skip = 0) as -> by lia. cbn [app].
    destruct (sub_through m Hm prev b) as (prev' & ->).
    now exists [], (sub_from (plain r) [] 0 prev' b).
  - cbn [app sub_from]. destruct skip as [|n].
    + assert (Keep : exists a' b',
                x :: sub_from (plain r) [] 0 (Some x) (a ++ m ++ b)
                = a' ++ m ++ b').
      { destruct (IH 0 (Some x) (Nat.le_0_l _)) as (a' & b' & ->).
        now exists (x :: a'), b'. }
      destruct (match_here (plain r) prev (x :: a ++ m ++ b))
        as [[g [|n]]|] eqn:M; try exact Keep.
      cbn [app]. apply IH.
      apply match_here_consumed in M as (w & rest & E & Hl & Dw).
      pose proof (denotes_within _ _ r_within _ Dw) as Hw.
      change (x :: a ++ m ++ b) with ((x :: a) ++ m ++ b) in E.
      apply app_eq_app in E. destruct E as (l & [[E1 E2]|[E1 E2]]).
      * apply (f_equal (@length ascii)) in E1.
        rewrite length_app in E1. cbn [length] in E1. lia.
      * destruct l as [|y l].
        -- rewrite app_nil_r in E1. subst w. cbn [length] in Hl. lia.
        -- exfalso. rewrite Em in E2. cbn [app] in E2.
           injection E2 as <- _. rewrite E1, forallb_app in Hw.
           apply andb_true_iff in Hw as [_ Hw]. cbn [forallb] in Hw.
           apply andb_true_iff in Hw as [Hw _]. rewrite Hc0 in Hw.
           discriminate Hw.
    + apply IH. cbn [length] in Hs. lia.
Qed.

Lemma sub_keeps (s : str) : occurs mk s -> occurs mk (sub r [] s).
Proof.
  intros (a & m & b & -> & D). unfold sub.
  destruct (sub_from_keeps m b D a 0 None (Nat.le_0_l _)) as (a' & b' & ->).
  now exists a', m, b'.
Qed.

End Removal.

(** *** The classes of the markers and of the patterns removed before them *)

Lemma ci_same (x y c : ascii) : ci x c = true -> ci y c = ci y x.
Proof.
  unfold ci, ascii_eqb. intros H. apply Ascii.eqb_eq in H. now rewrite H.
Qed.

Lemma space_not_lt (c : ascii) :
  py_isspace c = true -> negb (lt_sign c) = true.
Proof.
  destruct c as [[] [] [] [] [] [] [] []]; vm_compute; intros H;
    first [reflexivity | discriminate H].
Qed.

Lemma mark_shown (c : ascii) :
  lt_sign c || ci ">" c || ci "t" c = true -> shown c = true.
Proof.
  destruct c as [[] [] [] [] [] [] [] []]; vm_compute; intros H;
    first [reflexivity | discriminate H].
Qed.

Lemma lt_sign_shown (c : ascii) : lt_sign c = true -> shown c = true.
Proof. intros H. apply mark_shown. now rewrite H. Qed.

Lemma starts_with_weaken (F F' : ascii -> bool) (r : re) :
  (forall c, F c = true -> F' c = true) ->
  starts_with F r -> starts_with F' r.
Proof.
  intros HF. induction r; cbn [starts_with]; intuition auto.
Qed.

(** A goal about the characters a literal admits, settled on the literal
    itself. *)
Ltac by_letter :=
  let c := fresh "c" in
  let Hc := fresh "Hc" in
  intros c Hc; cbv beta;
  first
    [ apply space_not_lt; exact Hc
    | apply mark_shown; unfold lt_sign;
      rewrite !(ci_same _ _ c Hc); reflexivity
    | unfold lt_sign, opener; rewrite !(ci_same _ _ c Hc); reflexivity ].

Ltac by_letters :=
  cbv [lit lit_i seq alts list_ascii_of_string
       context_free starts_with ends_with classes_within];
  repeat split; by_letter.

Lemma marker_system_prompt_open : marker system_prompt_open.
Proof. unfold marker, system_prompt_open. by_letters. Qed.

Lemma marker_system_prompt_close : marker system_prompt_close.
Proof. unfold marker, system_prompt_close. by_letters. Qed.

Lemma marker_script_tag : marker script_tag.
Proof. unfold marker, script_tag. by_letters. Qed.

(** Every pattern before the script tag is removable or has a fatal
    issue of its own. *)
Lemma early_patterns :
  Forall (fun pd => removable (fst pd)
                    \/ In ("Contains " ++ snd pd) fatal_issues)
    (firstn 7 SUSPICIOUS_PATTERNS).
Proof.
  cbv [firstn SUSPICIOUS_PATTERNS].
  repeat (apply Forall_cons; [cbn [fst snd]|]); try apply Forall_nil.
  - right. left. reflexivity.
  - left. unfold removable. by_letters.
  - left. unfold removable. by_letters.
  - right. right. left. reflexivity.
  - right. right. left. reflexivity.
  - left. unfold removable. by_letters.
  - left. unfold removable. by_letters.
Qed.

(** *** The scan records a marker that the text holds *)

Lemma step_keeps (i : str) (acc : list str * str) (pd : re * str) :
  In i (fst acc) -> In i (fst (suspicious_step acc pd)).
Proof.
  destruct acc as [iss cl]. unfold suspicious_step. cbn [fst].
  destruct (search (fst pd) cl); cbn [fst]; [|auto].
  intros H. apply in_or_app. now left.
Qed.

Lemma fold_keeps (i : str) (table : list (re * str)) :
  forall acc : list str * str,
  In i (fst acc) -> In i (fst (fold_left suspicious_step table acc)).
Proof.
  induction table as [|pd table IH]; intros acc H; cbn [fold_left];
    [exact H|]. apply IH. now apply step_keeps.
Qed.

Lemma scan_prefix_keeps (mk : re) (prefix : list (re * str)) :
  starts_with lt_sign mk ->
  classes_within (fun c => negb (opener c)) mk ->
  Forall (fun pd => removable (fst pd)
                    \/ In ("Contains " ++ snd pd) fatal_issues) prefix ->
  forall acc : list str * str,
  (exists i, In i (fst acc) /\ In i fatal_issues) \/ occurs mk (snd acc) ->
  (exists i, In i (fst (fold_left suspicious_step prefix acc))
             /\ In i fatal_issues)
  \/ occurs mk (snd (fold_left suspicious_step prefix acc)).
Proof.
  intros Hs Hw. induction 1 as [|pd prefix Hpd _ IH]; intros acc H;
    cbn [fold_left]; [exact H|].
  apply IH. destruct H as [(i & Hi & Hf)|Ho].
  - left. exists i. split; [now apply step_keeps|exact Hf].
  - destruct acc as [iss cl]. unfold suspicious_step. cbn [snd] in Ho.
    destruct (search _ cl) eqn:E; cbn [fst snd]; [|now right].
    destruct Hpd as [[Rs Rw]|Hf].
    + right. now apply sub_keeps.
    + left. exists ("Contains " ++ snd pd).
      split; [apply in_or_app; right; now left|exact Hf].
Qed.

Lemma scan_records_marker (mk : re) (d : str)
  (prefix rest : list (re * str)) (s : str) :
  marker mk ->
  SUSPICIOUS_PATTERNS = prefix ++ (mk, d) :: rest ->
  Forall (fun pd => removable (fst pd)
                    \/ In ("Contains " ++ snd pd) fatal_issues) prefix ->
  In ("Contains " ++ d) fatal_issues ->
  occurs mk s ->
  exists i, In i (fst (scan_suspicious s)) /\ In i fatal_issues.
Proof.
  intros (Hc & Hs & _ & Hw) E Hp Hd Ho. unfold scan_suspicious.
  rewrite E, fold_left_app. cbn [fold_left].
  destruct (scan_prefix_keeps mk prefix Hs Hw Hp ([], s) (or_intror Ho))
    as [(i & Hi & Hf)|Ho'].
  - exists i. split; [|exact Hf]. apply fold_keeps. now apply step_keeps.
  - exists ("Contains " ++ d). split; [|exact Hd]. apply fold_keeps.
    destruct (fold_left suspicious_step prefix ([], s)) as [iss cl].
    cbn [snd] in Ho'. unfold suspicious_step. cbn [fst snd].
    rewrite (occurs_search mk cl Hc Ho'). cbn [fst].
    apply in_or_app. right. now left.
Qed.

Lemma occurs_nonempty (F : ascii -> bool) (r : re) (s : str) :
  starts_with F r -> occurs r s -> s <> [].
Proof.
  intros Hs (a & m & b & -> & D).
  destruct (denotes_starts _ _ Hs _ D) as (c & m' & -> & _).
  destruct a; discriminate.
Qed.

(** A fatal issue of the scan makes the response invalid. *)
Lemma fatal_scan_invalid (response i : str) :
  response <> [] ->
  In i (fst (scan_suspicious (strip response))) -> In i fatal_issues ->
  valid (validate_atc_response response) = false.
Proof.
  intros Hne Hi Hf.
  pose proof (valid_iff_no_critical response) as V.
  pose proof (issues_nonempty response Hne) as N.
  set (res := validate_atc_response response) in *. clearbody res.
  destruct (valid res) eqn:E; [|reflexivity].
  assert (Hin : In i (issues res)).
  { rewrite N. apply in_or_app. left. unfold content_issues.
    repeat (apply in_or_app; left). exact Hi. }
  pose proof (proj1 V eq_refl i Hin) as Hc.
  rewrite (fatal_is_critical i Hf) in Hc. discriminate Hc.
Qed.

Lemma marker_invalid (mk : re) (d : str) (prefix rest : list (re * str))
  (response : str) :
  marker mk ->
  SUSPICIOUS_PATTERNS = prefix ++ (mk, d) :: rest ->
  Forall (fun pd => removable (fst pd)
                    \/ In ("Contains " ++ snd pd) fatal_issues) prefix ->
  In ("Contains " ++ d) fatal_issues ->
  search mk response = true ->
  valid (validate_atc_response response) = false.
Proof.
  intros Hm E Hp Hd H. apply search_occurs in H.
  pose proof Hm as (Hc & Hs & He & Hw).
  pose proof (starts_with_weaken _ _ _ lt_sign_shown Hs) as Hs'.
  destruct (scan_records_marker mk d prefix rest (strip response) Hm E Hp Hd
              (occurs_strip mk response Hs' He H)) as (i & Hi & Hf).
  apply (fatal_scan_invalid response i); try assumption.
  exact (occurs_nonempty _ _ _ Hs H).
Qed.

Lemma control_token_invalid (response : str) :
  search llm_control_token response = true ->
  valid (validate_atc_response response) = false.
Proof.
  intros H. apply search_occurs in H.
  assert (Hc : context_free llm_control_token)
    by (unfold llm_control_token; cbv [lit lit_i seq list_ascii_of_string
                                       context_free]; tauto).
  assert (Hs : starts_with shown llm_control_token).
  { apply (starts_with_weaken lt_sign); [exact lt_sign_shown|].
    unfold llm_control_token. by_letters. }
  assert (He : ends_with shown llm_control_token)
    by (unfold llm_control_token; by_letters).
  apply (fatal_scan_invalid response
           (list_ascii_of_string "Contains LLM control token")).
  - exact (occurs_nonempty _ _ _ Hs H).
  - apply scan_finds_control_token. apply (occurs_search _ _ Hc).
    now apply occurs_strip.
  - left. reflexivity.
Qed.

Lemma system_prompt_open_invalid (response : str) :
  search system_prompt_open response = true ->
  valid (validate_atc_response response) = false.
Proof.
  apply (marker_invalid system_prompt_open
           (list_ascii_of_string "System prompt marker")
           (firstn 3 SUSPICIOUS_PATTERNS) (skipn 4 SUSPICIOUS_PATTERNS)).
  - exact marker_system_prompt_open.
  - reflexivity.
  - pose proof early_patterns as H.
    change (firstn 7 SUSPICIOUS_PATTERNS)
      with (firstn 3 SUSPICIOUS_PATTERNS
            ++ skipn 3 (firstn 7 SUSPICIOUS_PATTERNS)) in H.
    apply Forall_app in H. exact (proj1 H).
  - right. left. reflexivity.
Qed.

Lemma system_prompt_close_invalid (response : str) :
  search system_prompt_close response = true ->
  valid (validate_atc_response response) = false.
Proof.
  apply (marker_invalid system_prompt_close
           (list_ascii_of_string "System prompt marker")
           (firstn 4 SUSPICIOUS_PATTERNS) (skipn 5 SUSPICIOUS_PATTERNS)).
  - exact marker_system_prompt_close.
  - reflexivity.
  - pose proof early_patterns as H.
    change (firstn 7 SUSPICIOUS_PATTERNS)
      with (firstn 4 SUSPICIOUS_PATTERNS
            ++ skipn 4 (firstn 7 SUSPICIOUS_PATTERNS)) in H.
    apply Forall_app in H. exact (proj1 H).
  - right. left. reflexivity.
Qed.

Lemma script_tag_invalid (response : str) :
  search script_tag response = true ->
  valid (validate_atc_response response) = false.
Proof.
  apply (marker_invalid script_tag (list_ascii_of_string "Script tag")
           (firstn 7 SUSPICIOUS_PATTERNS) (skipn 8 SUSPICIOUS_PATTERNS)).
  - exact marker_script_tag.
  - reflexivity.
  - exact early_patterns.
  - right. right. left. reflexivity.
Qed.

(** C1 (as amended).  For every input, [valid] is true if and only if no
    recorded issue is one of "Contains LLM control token", "Contains System
    prompt marker", "Contains Script tag", "Empty response" and "Response
    too short".  The issues about altitudes, flight levels and squawk codes
    (and frequencies, were one recorded) are never among these, nor are the
    issues for instruction markers, chat role markers and code fences:
    recorded, they do not by themselves make [valid] false.  For every
    input containing an LLM control token, a system-prompt marker
    ([<<SYS>>] or [<</SYS>>]) or a script tag, [valid] is false: the
    marker is found by [re.search] in the input itself, whatever else the
    input holds and whatever the scan removes before it reaches the
    marker.  The same holds when the token is found in the stripped text,
    or the issue of a system-prompt marker or script tag is recorded. *)
Theorem validity_decided_by_fatal_issues (response : str) :
  (valid (validate_atc_response response) = true <->
   forall i, In i (issues (validate_atc_response response)) ->
             ~ In i fatal_issues)
  /\ (forall i,
      In i (altitude_issues (scanned_text response)
            ++ flight_level_issues (scanned_text response)
            ++ frequency_issues (scanned_text response)
            ++ squawk_issues (scanned_text response)) ->
      ~ In i fatal_issues)
  /\ (~ In (list_ascii_of_string "Contains Instruction marker") fatal_issues
      /\ ~ In (list_ascii_of_string "Contains Chat role marker") fatal_issues
      /\ ~ In (list_ascii_of_string "Contains Code block") fatal_issues)
  /\ (response <> [] ->
      search llm_control_token (strip response) = true ->
      valid (validate_atc_response response) = false)
  /\ (In (list_ascii_of_string "Contains System prompt marker")
         (issues (validate_atc_response response))
      \/ In (list_ascii_of_string "Contains Script tag")
           (issues (validate_atc_response response)) ->
      valid (validate_atc_response response) = false)
  /\ (search llm_control_token response = true
      \/ search system_prompt_open response = true
      \/ search system_prompt_close response = true
      \/ search script_tag response = true ->
      valid (validate_atc_response response) = false).
Proof.
  pose proof (control_token_invalid response) as M0.
  pose proof (system_prompt_open_invalid response) as M1.
  pose proof (system_prompt_close_invalid response) as M2.
  pose proof (script_tag_invalid response) as M3.
  pose proof (valid_iff_no_critical response) as V.
  pose proof (recorded_issue_fatal response) as R.
  pose proof (issues_nonempty response) as N.
  pose proof (numeric_issue_not_fatal response) as Num.
  pose proof (scan_finds_control_token (strip response)) as Tok.
  set (res := validate_atc_response response) in *. clearbody res.
  assert (Hiff : valid res = true <->
                 forall i, In i (issues res) -> ~ In i fatal_issues).
  { split.
    - intros Hv i Hi Hf. apply fatal_is_critical in Hf.
      pose proof (proj1 V Hv i Hi) as Hc. congruence.
    - intros H. apply (proj2 V). intros i Hi.
      destruct (is_critical i) eqn:Hc; [|reflexivity].
      exfalso. exact (H i Hi (R i Hi Hc)). }
  assert (Hfatal : forall i, In i (issues res) -> In i fatal_issues ->
                             valid res = false).
  { intros i Hi Hf. destruct (valid res) eqn:E; [|reflexivity].
    exfalso. exact (proj1 Hiff eq_refl i Hi Hf). }
  split; [exact Hiff|]. split; [|split; [|split; [|split]]].
  - intros i Hi Hf. apply fatal_is_marked in Hf.
    pose proof (Num i Hi) as Hm. congruence.
  - repeat split; intros H; apply fatal_is_critical in H;
      vm_compute in H; discriminate H.
  - intros Hne Hs.
    apply (Hfatal (list_ascii_of_string "Contains LLM control token")).
    + rewrite (N Hne). apply in_or_app. left.
      unfold content_issues. repeat (apply in_or_app; left).
      exact (Tok Hs).
    + left. reflexivity.
  - intros [H|H].
    + apply (Hfatal _ H). right. left. reflexivity.
    + apply (Hfatal _ H). right. right. left. reflexivity.
  - intros [H|[H|[H|H]]];
      [exact (M0 H)|exact (M1 H)|exact (M2 H)|exact (M3 H)].
Qed.

Lemma validity_decided_by_fatal_issues_witness :
  valid (validate_atc_response "[INST] <<SYS>> Cessna 12345, radar contact")
  = false.
Proof.
  apply (proj2 (proj2 (proj2 (proj2 (proj2
           (validity_decided_by_fatal_issues
              "[INST] <<SYS>> Cessna 12345, radar contact")))))).
  right. left. vm_compute. reflexivity.
Defined.

(** C1 as stated fails: a response containing the instruction marker
    [[INST]] has the issue recorded and is valid. *)
Lemma instruction_marker_stays_valid :
  search instruction_marker "[INST] Cessna 12345, radar contact" = true
  /\ issues (validate_atc_response "[INST] Cessna 12345, radar contact")
     = [list_ascii_of_string "Contains Instruction marker"]
  /\ valid (validate_atc_response "[INST] Cessna 12345, radar contact")
     = true.
Proof. split; [|split]; vm_compute; reflexivity. Qed.

(** C5 (as amended).  On the test vectors: ["Squawk 8521"] is recorded with
    the issue "Invalid squawk code (contains 8 or 9): 8521" and stays
    valid; the empty response is invalid with the issue "Empty response";
    ["Cessna 12345, squawk 4521, radar contact"] is valid with no issue. *)
Theorem validator_vectors :
  validate_atc_response "Squawk 8521"
  = {| valid := true;
       cleaned_response := "Squawk 8521";
       issues := [list_ascii_of_string
                    "Invalid squawk code (contains 8 or 9): 8521"];
       original_response := "Squawk 8521";
       warnings := [] |}
  /\ validate_atc_response ""
     = {| valid := false;
          cleaned_response := [];
          issues := [list_ascii_of_string "Empty response"];
          original_response := [];
          warnings := [] |}
  /\ validate_atc_response "Cessna 12345, squawk 4521, radar contact"
     = {| valid := true;
          cleaned_response := "Cessna 12345, squawk 4521, radar contact";
          issues := [];
          original_response := "Cessna 12345, squawk 4521, radar contact";
          warnings := [] |}.
Proof. split; [|split]; vm_compute; reflexivity. Qed.

(** C5 as stated fails: the response "Squawk 8521" is valid. *)
Lemma squawk_8521_is_valid :
  valid (validate_atc_response "Squawk 8521") = true.
Proof. vm_compute. reflexivity. Qed.

(** C10 (as amended).  For every non-empty input the returned
    [cleaned_response] is not empty: it is the cleaned text, or the fixed
    text "Say again" when removing suspicious patterns, quotes and
    whitespace leaves nothing, in which case "Response too short" is
    recorded and the result is invalid. *)
Theorem cleaned_response_nonempty (response : str) :
  response <> [] ->
  cleaned_response (validate_atc_response response) <> []
  /\ (cleaned_text response = [] ->
      cleaned_response (validate_atc_response response)
      = list_ascii_of_string "Say again"
      /\ In (list_ascii_of_string "Response too short")
           (issues (validate_atc_response response))
      /\ valid (validate_atc_response response) = false)
  /\ (cleaned_text response <> [] ->
      cleaned_response (validate_atc_response response)
      = cleaned_text response).
Proof.
  intros Hne.
  pose proof (cleaned_response_of_nonempty response Hne) as C.
  pose proof (issues_nonempty response Hne) as N.
  pose proof (valid_iff_no_critical response) as V.
  set (res := validate_atc_response response) in *. clearbody res.
  set (cleaned := cleaned_text response) in *. clearbody cleaned.
  rewrite C. split; [|split].
  - destruct cleaned; discriminate.
  - intros ->. split; [reflexivity|].
    assert (Hin : In (list_ascii_of_string "Response too short") (issues res)).
    { rewrite N. apply in_or_app. right. left. reflexivity. }
    split; [exact Hin|].
    destruct (valid res) eqn:E; [|reflexivity].
    pose proof (proj1 V eq_refl _ Hin) as Hc.
    vm_compute in Hc. discriminate Hc.
  - intros E. destruct cleaned; [contradiction|reflexivity].
Qed.

Lemma cleaned_response_nonempty_witness :
  cleaned_response (validate_atc_response "```")
  = list_ascii_of_string "Say again"
  /\ In (list_ascii_of_string "Response too short")
       (issues (validate_atc_response "```"))
  /\ valid (validate_atc_response "```") = false.
Proof.
  assert (Hne : list_ascii_of_string "```" <> []) by discriminate.
  apply (proj1 (proj2 (cleaned_response_nonempty "```" Hne))).
  reflexivity.
Defined.

(** C10 as stated fails: the empty input is answered with an empty
    [cleaned_response]. *)
Lemma empty_input_empty_cleaned_response :
  cleaned_response (validate_atc_response "") = [].
Proof. reflexivity. Qed.

End ValidationProperties.

(** ** More of squawk.py *)

Section SquawkMore.
Import Squawk.

Lemma lstrip_nonspace (c : ascii) (s : str) :
  py_isspace c = false -> lstrip (c :: s) = c :: s.
Proof. intros H. cbn [lstrip]. now rewrite H. Qed.

Lemma octal_not_space (c : ascii) :
  in_range 48 55 c = true -> py_isspace c = false.
Proof.
  destruct c as [[] [] [] [] [] [] [] []];
    intros H; try discriminate H; reflexivity.
Qed.

Lemma octal_is_digit (c : ascii) :
  in_range 48 55 c = true ->
  py_isdigit_char c = true /\ c <> "8"%char /\ c <> "9"%char.
Proof.
  destruct c as [[] [] [] [] [] [] [] []];
    intros H; try discriminate H; repeat split; discriminate.
Qed.

(** A text of four octal digits is left alone by [strip]. *)
Lemma four_octal_strip (c : str) : four_octal c -> strip c = c.
Proof.
  intros [Hlen Hall].
  destruct c as [|a [|b [|x [|y [|z r]]]]]; try discriminate Hlen.
  cbn [forallb] in Hall.
  repeat (apply andb_true_iff in Hall as [?H Hall]).
  unfold strip, rstrip.
  rewrite (lstrip_nonspace a) by now apply octal_not_space.
  cbn [rev app].
  rewrite (lstrip_nonspace y) by now apply octal_not_space.
  reflexivity.
Qed.

Lemma four_octal_valid (c : str) :
  four_octal c -> fst (validate_code c) = true.
Proof.
  intros H. apply validate_code_true. rewrite (four_octal_strip c H).
  destruct H as [Hlen Hall]. split; [assumption|].
  rewrite forallb_forall in Hall.
  split; [|split].
  - apply Forall_forall. intros x Hx. now apply octal_is_digit, Hall.
  - intros Hin. destruct (octal_is_digit _ (Hall _ Hin)) as (_ & N8 & _).
    now apply N8.
  - intros Hin. destruct (octal_is_digit _ (Hall _ Hin)) as (_ & _ & N9).
    now apply N9.
Qed.

Lemma filter_all {A : Type} (f : A -> bool) (l : list A) :
  forallb f l = true -> filter f l = l.
Proof.
  induction l as [|x l IH]; cbn [forallb filter]; [reflexivity|].
  intros H. apply andb_true_iff in H as [Hx Hl]. now rewrite Hx, IH.
Qed.

Lemma forallb_filter {A : Type} (f : A -> bool) (l : list A) :
  forallb f (filter f l) = true.
Proof.
  induction l as [|x l IH]; cbn [filter]; [reflexivity|].
  destruct (f x) eqn:E; [|assumption]. cbn [forallb]. now rewrite E.
Qed.

Lemma forallb_firstn {A : Type} (f : A -> bool) (n : nat) (l : list A) :
  forallb f l = true -> forallb f (firstn n l) = true.
Proof.
  revert l. induction n as [|n IH]; intros [|x l]; cbn; try reflexivity.
  intros H. apply andb_true_iff in H as [Hx Hl]. now rewrite Hx, IH.
Qed.

Lemma forallb_repeat {A : Type} (f : A -> bool) (x : A) (n : nat) :
  f x = true -> forallb f (repeat x n) = true.
Proof. intros H. induction n; cbn; [reflexivity|now rewrite H]. Qed.

Lemma normalize_four_octal (code : str) : four_octal (_normalize_code code).
Proof.
  unfold _normalize_code, zfill, four_octal.
  set (digits := filter (in_range 48 55) code).
  split.
  - rewrite length_firstn, length_app, repeat_length. lia.
  - apply forallb_firstn. rewrite forallb_app.
    rewrite forallb_repeat by reflexivity.
    apply forallb_filter.
Qed.

(** X1.  [_normalize_code] turns any text into four octal digits, leaves
    such a text as it is, and its result is accepted by [validate_code]. *)
Theorem normalize_code_canonical (code : str) :
  four_octal (_normalize_code code)
  /\ _normalize_code (_normalize_code code) = _normalize_code code
  /\ fst (validate_code (_normalize_code code)) = true.
Proof.
  pose proof (normalize_four_octal code) as H.
  split; [exact H|]. split; [|now apply four_octal_valid].
  destruct H as [Hlen Hall].
  set (c := _normalize_code code) in *. clearbody c.
  unfold _normalize_code, zfill.
  rewrite (filter_all _ _ Hall), Hlen. cbn [Nat.sub repeat app].
  rewrite <- Hlen. apply firstn_all.
Qed.

(** [strip] removes whitespace at both ends and nothing else. *)
Lemma lstrip_decompose (s : str) :
  exists pre, s = pre ++ lstrip s /\ forallb py_isspace pre = true.
Proof.
  induction s as [|c s (pre & E & Hp)]; [now exists []|].
  cbn [lstrip]. destruct (py_isspace c) eqn:Hc.
  - exists (c :: pre). cbn [app forallb]. rewrite Hc, Hp. now rewrite <- E.
  - now exists [].
Qed.

Lemma strip_decompose (s : str) :
  exists pre post,
    s = pre ++ strip s ++ post
    /\ forallb py_isspace pre = true /\ forallb py_isspace post = true.
Proof.
  destruct (lstrip_decompose s) as (pre & E & Hpre).
  destruct (lstrip_decompose (rev (lstrip s))) as (q & Eq & Hq).
  exists pre, (rev q). unfold strip, rstrip. split; [|split].
  - rewrite E at 1. f_equal.
    rewrite <- (rev_involutive (lstrip s)) at 1.
    rewrite Eq at 1. now rewrite rev_app_distr.
  - assumption.
  - rewrite forallb_forall in *. intros x Hx. apply Hq.
    now apply in_rev.
Qed.

Lemma space_not_octal (c : ascii) :
  py_isspace c = true -> in_range 48 55 c = false.
Proof.
  destruct c as [[] [] [] [] [] [] [] []];
    intros H; try discriminate H; reflexivity.
Qed.

Lemma filter_none {A : Type} (f g : A -> bool) (l : list A) :
  (forall x, g x = true -> f x = false) ->
  forallb g l = true -> filter f l = [].
Proof.
  intros Hfg. induction l as [|x l IH]; cbn [forallb filter]; [reflexivity|].
  intros H. apply andb_true_iff in H as [Hx Hl].
  now rewrite (Hfg x Hx), IH.
Qed.

Lemma update_current (h : SquawkHandler) (code : str) :
  _current_code (fst (update h code)) = _normalize_code code.
Proof.
  unfold update.
  destruct (str_eqb (_normalize_code code) (_current_code h)) eqn:E.
  - apply str_eqb_eq in E. now rewrite E.
  - now destruct (EMERGENCY_CODES (_normalize_code code)).
Qed.

Lemma update_assigned (h : SquawkHandler) (code : str) :
  _assigned_code (fst (update h code)) = _assigned_code h.
Proof.
  unfold update.
  destruct (str_eqb (_normalize_code code) (_current_code h));
    [reflexivity|].
  now destruct (EMERGENCY_CODES (_normalize_code code)).
Qed.

Lemma update_last_emergency (h : SquawkHandler) (code : str) :
  _last_emergency (fst (update h code))
  = if str_eqb (_normalize_code code) (_current_code h)
    then _last_emergency h
    else match EMERGENCY_CODES (_normalize_code code) with
         | Some info => Some info
         | None => _last_emergency h
         end.
Proof.
  unfold update.
  destruct (str_eqb (_normalize_code code) (_current_code h));
    [reflexivity|].
  now destruct (EMERGENCY_CODES (_normalize_code code)).
Qed.

(** What holds of a handler reached from [init]: when the current code is
    an emergency code, [_last_emergency] is its entry. *)
Lemma emergency_recorded_step (h : SquawkHandler) (code : str) :
  (handler_is_emergency h = true ->
   _last_emergency h = EMERGENCY_CODES (_current_code h)) ->
  handler_is_emergency (fst (update h code)) = true ->
  _last_emergency (fst (update h code))
  = EMERGENCY_CODES (_current_code (fst (update h code))).
Proof.
  intros Hinv. unfold handler_is_emergency in *.
  rewrite update_last_emergency, update_current.
  destruct (str_eqb (_normalize_code code) (_current_code h)) eqn:E.
  - apply str_eqb_eq in E. rewrite E. exact Hinv.
  - destruct (EMERGENCY_CODES (_normalize_code code)); [reflexivity|].
    discriminate.
Qed.

(** X2.  Over any sequence of [update] calls: the assigned code is never
    touched; a recorded emergency is never cleared; the current code is the
    normalised last argument; and, starting from a new handler, the current
    code is always four octal digits and, whenever it is an emergency code,
    [_last_emergency] holds the entry of that very code. *)
Theorem updates_invariants (h : SquawkHandler) (codes : list str) :
  _assigned_code (updates h codes) = _assigned_code h
  /\ (_last_emergency h <> None -> _last_emergency (updates h codes) <> None)
  /\ (codes <> [] ->
      _current_code (updates h codes) = _normalize_code (last codes []))
  /\ four_octal (_current_code (updates init codes))
  /\ (handler_is_emergency (updates init codes) = true ->
      _last_emergency (updates init codes)
      = EMERGENCY_CODES (_current_code (updates init codes))).
Proof.
  unfold updates. split; [|split; [|split; [|split]]].
  - revert h. induction codes as [|c codes IH]; intros h; [reflexivity|].
    cbn [fold_left]. rewrite IH. apply update_assigned.
  - revert h. induction codes as [|c codes IH]; intros h Hl; [assumption|].
    cbn [fold_left]. apply IH. rewrite update_last_emergency.
    destruct (str_eqb (_normalize_code c) (_current_code h)); [assumption|].
    destruct (EMERGENCY_CODES (_normalize_code c)); [discriminate|assumption].
  - revert h. induction codes as [|c codes IH]; intros h Hne; [contradiction|].
    cbn [fold_left]. destruct codes as [|c' codes].
    + cbn [fold_left last]. apply update_current.
    + rewrite IH by discriminate. reflexivity.
  - assert (G : forall h, four_octal (_current_code h) ->
                four_octal (_current_code
                  (fold_left (fun h c => fst (update h c)) codes h))).
    { induction codes as [|c codes IH]; intros h0 H0; [assumption|].
      cbn [fold_left]. apply IH. rewrite update_current.
      apply normalize_four_octal. }
    apply G. split; reflexivity.
  - assert (G : forall h,
                (handler_is_emergency h = true ->
                 _last_emergency h = EMERGENCY_CODES (_current_code h)) ->
                let h' := fold_left (fun h c => fst (update h c)) codes h in
                handler_is_emergency h' = true ->
                _last_emergency h' = EMERGENCY_CODES (_current_code h')).
    { induction codes as [|c codes IH]; intros h0 H0; [exact H0|].
      cbn [fold_left]. apply IH. now apply emergency_recorded_step. }
    apply G. discriminate.
Qed.

Lemma updates_invariants_witness :
  _last_emergency (updates init ["7700" : str; "1200" : str]) <> None.
Proof.
  assert (H : _last_emergency (updates init ["7700" : str]) <> None)
    by discriminate.
  exact (proj1 (proj2 (updates_invariants (updates init ["7700" : str])
                          ["1200" : str])) H).
Defined.

(** X3.  [generate_atc_response] answers exactly when [is_emergency] holds
    of the handler, and a repeated [update] with the same code changes
    nothing and returns nothing. *)
Theorem emergency_response_and_repeat (h : SquawkHandler)
  (callsign code : str) :
  (generate_atc_response h callsign <> None
   <-> handler_is_emergency h = true)
  /\ update (fst (update h code)) code = (fst (update h code), None).
Proof.
  split.
  - unfold generate_atc_response, handler_is_emergency, EMERGENCY_CODES.
    destruct (str_eqb (_current_code h) "7700") eqn:E1;
      destruct (str_eqb (_current_code h) "7600") eqn:E2;
      destruct (str_eqb (_current_code h) "7500") eqn:E3;
      split; intros H; try reflexivity; try discriminate;
      try (exfalso; now apply H).
  - unfold update at 1. rewrite update_current. now rewrite str_eqb_refl.
Qed.

(** X4.  When [validate_code] accepts its argument, [set_assigned_code]
    stores four octal digits, which [validate_code] accepts again; they are
    the stripped argument whenever that consists of decimal digits. *)
Theorem assigned_code_is_valid (h : SquawkHandler) (code : str) :
  fst (validate_code code) = true ->
  exists a,
    get_assigned_code (fst (fst (set_assigned_code h code))) = Some a
    /\ four_octal a /\ fst (validate_code a) = true
    /\ (forallb re_digit (strip code) = true -> a = strip code).
Proof.
  intros Hv. exists (_normalize_code code).
  split.
  { unfold set_assigned_code.
    destruct (validate_code code) as [v e]. cbn [fst] in Hv. now subst v. } split; [apply normalize_four_octal|].
  split; [apply four_octal_valid, normalize_four_octal|].
  intros Hd. apply validate_code_true in Hv.
  destruct Hv as (Hlen & _ & N8 & N9).
  destruct (strip_decompose code) as (pre & post & E' & Hpre & Hpost).
  assert (Hoct : forallb (in_range 48 55) (strip code) = true).
  { apply forallb_forall. intros x Hx.
    rewrite forallb_forall in Hd. specialize (Hd x Hx).
    destruct x as [[] [] [] [] [] [] [] []]; try discriminate Hd;
      try reflexivity; exfalso; [now apply N8|now apply N9]. }
  unfold _normalize_code, zfill. rewrite E' at 1 2.
  rewrite !filter_app.
  rewrite (filter_none _ _ pre space_not_octal Hpre).
  rewrite (filter_none _ _ post space_not_octal Hpost).
  rewrite (filter_all _ _ Hoct), app_nil_r. cbn [app].
  rewrite Hlen. cbn [Nat.sub repeat app]. rewrite <- Hlen. apply firstn_all.
Qed.

Lemma assigned_code_is_valid_witness :
  exists a,
    get_assigned_code (fst (fst (set_assigned_code init " 4521 "))) = Some a
    /\ four_octal a /\ fst (validate_code a) = true
    /\ (forallb re_digit (strip " 4521 ") = true -> a = strip " 4521 ").
Proof.
  apply (assigned_code_is_valid init " 4521 "). reflexivity.
Defined.

End SquawkMore.

(** ** More of flight_phase.py *)

Section FlightPhaseMore.
Import FlightPhase FlightPhaseSpec.

(** The detector answers a pre-flight phase only on the ground before the
    first lift-off, [TAXI_IN] or [LANDING] only on the ground after it, and
    an airborne phase only off the ground. *)
Lemma detect_partition (self : FlightPhaseTracker) (t : Telemetry) :
  match _detect_phase self t with
  | PARKED | TAXI_OUT | TAKEOFF =>
    on_ground t = true /\ _was_airborne self = false
  | TAXI_IN | LANDING => on_ground t = true /\ _was_airborne self = true
  | DEPARTURE | CRUISE | DESCENT | APPROACH => on_ground t = false
  | UNKNOWN => False
  end.
Proof.
  unfold _detect_phase.
  destruct (on_ground t), (_was_airborne self);
    repeat match goal with
           | |- context [if ?b then _ else _] => destruct b
           end; auto.
Qed.

(** [_was_airborne] only ever goes from false to true in [update]. *)
Lemma update_was_airborne (self : FlightPhaseTracker) (t : Telemetry)
  (now : Q) :
  connected t = true ->
  _was_airborne (fst (fst (update self (Some t) now)))
  = _was_airborne self || negb (on_ground t).
Proof.
  intros Hc. pose proof (detect_partition self t) as Hd.
  unfold update. rewrite Hc. cbn [negb]. cbv zeta.
  set (d := _detect_phase self t) in *.
  destruct (phase_eqb d (_current_phase (set_tracking self _ _))) eqn:E1;
    cbn [negb].
  - cbn. destruct (on_ground t), (_was_airborne self); reflexivity.
  - destruct (is_pending d (_pending_phase (set_tracking self _ _))) eqn:E2.
    + destruct (Qleb _ _).
      * unfold _transition_to. cbn.
        destruct d; cbn; try (destruct (on_ground t), (_was_airborne self);
                               reflexivity).
        destruct Hd as [-> ->]. reflexivity.
      * cbn. destruct (on_ground t), (_was_airborne self); reflexivity.
    + cbn. destruct (on_ground t), (_was_airborne self); reflexivity.
Qed.

Lemma run_was_airborne (calls : list Call) :
  forall self : FlightPhaseTracker,
  _was_airborne self = true -> _was_airborne (run self calls) = true.
Proof.
  induction calls as [|[now tel] rest IH]; intros self H; [assumption|].
  cbn [run]. apply IH.
  destruct (disconnected tel) eqn:Hd.
  - now rewrite (update_disconnected self tel now Hd).
  - destruct tel as [t|]; [|discriminate]. cbn in Hd.
    apply negb_false_iff in Hd.
    rewrite (update_was_airborne self t now Hd), H. reflexivity.
Qed.

(** X5.  Once the aircraft has been airborne the flag [_was_airborne] is
    never cleared by [update], and no transition into [PARKED], [TAXI_OUT]
    or [TAKEOFF] is committed any more; in every run a commit into
    [PARKED] finds the flag already false. *)
Theorem airborne_latch (self : FlightPhaseTracker) (calls : list Call)
  (c : Commit) :
  (_was_airborne self = true -> _was_airborne (run self calls) = true)
  /\ (_was_airborne self = true -> In c (commits self calls) ->
      pre_flight (snd (transition c)) = false)
  /\ (In c (commits self calls) -> snd (transition c) = PARKED ->
      _was_airborne (before c) = false).
Proof.
  split; [apply run_was_airborne|]. split.
  - revert self. induction calls as [|[now tel] rest IH];
      intros self Ha Hin; [destruct Hin|].
    cbn [commits] in Hin. apply in_app_or in Hin. destruct Hin as [Hin|Hin].
    + apply observed_call in Hin. destruct Hin as (t & _ & _ & -> & _).
      cbn [transition snd]. pose proof (detect_partition self t) as Hd.
      destruct (_detect_phase self t); try reflexivity;
        destruct Hd as [_ Hd]; congruence.
    + apply (IH _ (run_was_airborne [(now, tel)] self Ha) Hin).
  - revert self. induction calls as [|[now tel] rest IH];
      intros self Hin Hp; [destruct Hin|].
    cbn [commits] in Hin. apply in_app_or in Hin. destruct Hin as [Hin|Hin].
    + apply observed_call in Hin. destruct Hin as (t & _ & _ & -> & _).
      cbn [transition snd before] in *.
      pose proof (detect_partition self t) as Hd. rewrite Hp in Hd.
      now destruct Hd.
    + now apply (IH _ Hin).
Qed.

Lemma airborne_latch_witness :
  _was_airborne
    (run (init None)
       [(0%Q, Some {| connected := true; on_ground := false; ias := 90;
                      vertical_speed := 500; altitude_msl := 1500;
                      altitude_agl := None |});
        (9%Q, Some (on_the_ground 0)); (20%Q, Some (on_the_ground 0))])
  = true.
Proof.
  apply (proj1 (airborne_latch
                  (run (init None)
                     [(0%Q, Some {| connected := true; on_ground := false;
                                    ias := 90; vertical_speed := 500;
                                    altitude_msl := 1500;
                                    altitude_agl := None |})])
                  [(9%Q, Some (on_the_ground 0));
                   (20%Q, Some (on_the_ground 0))]
                  sample_commit)).
  reflexivity.
Defined.

(** X6.  A call of [update] on a tracker with no pending phase, as after
    [__init__] or [reset], never commits, whatever [phase_confirm_time] is:
    it returns the current phase (or [UNKNOWN] when disconnected).  In
    every run a commit confirms the phase that was pending and replaces a
    different current phase. *)
Theorem commit_needs_pending (self : FlightPhaseTracker)
  (tel : option Telemetry) (now : Q) (calls : list Call) (c : Commit) :
  (_pending_phase self = None ->
   snd (update self tel now) = []
   /\ snd (fst (update self tel now))
      = if disconnected tel then UNKNOWN else _current_phase self)
  /\ (In c (commits self calls) ->
      _pending_phase (before c) = Some (snd (transition c))
      /\ fst (transition c) = _current_phase (before c)
      /\ fst (transition c) <> snd (transition c)).
Proof.
  split.
  - intros Hp. destruct (disconnected tel) eqn:Hd.
    + now rewrite (update_disconnected self tel now Hd).
    + destruct tel as [t|]; [|discriminate]. cbn in Hd.
      apply negb_false_iff in Hd.
      destruct (update_connected self t now Hd) as (Ho & _ & ->).
      destruct Ho as [s' ? Hc ?|s' ? ? Hc ? ?|s' ? Hq ? Hc ? ?|s' ? Hq ? ? ?];
        try (split; [reflexivity|exact Hc]); congruence.
  - revert self. induction calls as [|[now' tel'] rest IH];
      intros self Hin; [destruct Hin|].
    cbn [commits] in Hin. apply in_app_or in Hin. destruct Hin as [Hin|Hin].
    + destruct tel' as [t|]; [|destruct Hin].
      destruct (connected t) eqn:Hc.
      * destruct (update_connected self t now' Hc) as (Ho & _ & _).
        unfold observed in Hin.
        destruct Ho as [s' ? ? ?|s' ? ? ? ? ?|s' ? ? ? ? ? ?|s' Hne Hq ? ? ?];
          cbn [map In] in Hin;
          [destruct Hin|destruct Hin|destruct Hin|].
        destruct Hin as [<-|[]]. cbn [before transition fst snd].
        split; [assumption|]. split; [reflexivity|]. congruence.
      * rewrite (update_disconnected self (Some t) now') in Hin
          by (cbn; now rewrite Hc).
        destruct Hin.
    + now apply (IH _ Hin).
Qed.

Lemma commit_needs_pending_witness :
  snd (update (init None) (Some (on_the_ground 0)) 100) = []
  /\ snd (fst (update (init None) (Some (on_the_ground 0)) 100)) = UNKNOWN.
Proof.
  apply (proj1 (commit_needs_pending (init None) (Some (on_the_ground 0))
                  100 [] sample_commit)).
  reflexivity.
Defined.

(** Trackers of the same flight answer a call alike and stay so. *)
Lemma update_same_flight (a b : FlightPhaseTracker) (tel : option Telemetry)
  (now : Q) :
  same_flight a b ->
  same_flight (fst (fst (update a tel now))) (fst (fst (update b tel now)))
  /\ snd (fst (update a tel now)) = snd (fst (update b tel now))
  /\ snd (update a tel now) = snd (update b tel now).
Proof.
  intros (Ht & Hc & Hp & Hm & Hw & Hs).
  destruct a as [th1 cur1 pend1 st1 lu1 mx1 air1].
  destruct b as [th2 cur2 pend2 st2 lu2 mx2 air2].
  cbn in Ht, Hc, Hp, Hm, Hw, Hs. subst th2 cur2 pend2 mx2 air2.
  destruct tel as [t|]; [|cbn; unfold same_flight; cbn; tauto].
  unfold update. destruct (connected t);
    [|cbn; unfold same_flight; cbn; tauto].
  cbn [negb]. cbv zeta. unfold _detect_phase, set_tracking. cbn -[Qleb Qltb].
  match goal with
  | |- context [phase_eqb ?d cur1] => set (dd := d)
  end.
  destruct (phase_eqb dd cur1); cbn -[Qleb Qltb];
    [unfold same_flight; cbn; tauto|].
  destruct Hs as [-> | ->].
  - cbn. unfold same_flight; cbn; tauto.
  - destruct (is_pending dd pend1); [|cbn; unfold same_flight; cbn; tauto].
    destruct (Qleb (phase_confirm_time th1) (now - st2));
      cbn; unfold same_flight; cbn; tauto.
Qed.

Lemma run_same_flight (calls : list Call) :
  forall a b : FlightPhaseTracker,
  same_flight a b ->
  returned a calls = returned b calls
  /\ map shown_commit (commits a calls) = map shown_commit (commits b calls).
Proof.
  induction calls as [|[now tel] rest IH]; intros a b H; [now split|].
  destruct (update_same_flight a b tel now H) as (H' & Hr & Hl).
  destruct (IH _ _ H') as [IHr IHc].
  cbn [returned commits]. rewrite !map_app, Hr, IHr, IHc, Hl.
  split; [reflexivity|]. f_equal.
  destruct tel as [t|]; [|reflexivity].
  unfold observed. rewrite !map_map. reflexivity.
Qed.

(** X7.  After [reset] a tracker answers every sequence of calls as a new
    tracker with the same thresholds does: the same returned phases and the
    same commits at the same clock readings. *)
Theorem reset_is_fresh_start (self : FlightPhaseTracker) (calls : list Call) :
  returned (reset self) calls
  = returned (init (Some (_thresholds self))) calls
  /\ map shown_commit (commits (reset self) calls)
     = map shown_commit (commits (init (Some (_thresholds self))) calls).
Proof.
  apply run_same_flight. unfold same_flight, reset, init. cbn. tauto.
Qed.

End FlightPhaseMore.

(** ** More of handoff.py *)

Section HandoffMore.
Import Handoff HandoffSpec.

Lemma type_eqb_refl (t : FacilityType) : type_eqb t t = true.
Proof. now destruct t. Qed.

Lemma type_eqb_eq (a b : FacilityType) : type_eqb a b = true <-> a = b.
Proof. destruct a, b; cbn; split; congruence. Qed.

(** The three ways [update] can end. *)
Lemma update_cases (m : HandoffManager) (tel : option Telemetry)
  (phase : str) :
  update m tel phase = (m, None)
  \/ exists t f,
       tel = Some t /\ connected t = true
       /\ _determine_expected_facility m phase (altitude_msl t) (on_ground t)
          = Some f
       /\ needs_handoff m f = true
       /\ update m tel phase
          = ({| _current_facility := Some f;
                _departure_airport := _departure_airport m;
                _arrival_airport := _arrival_airport m;
                _last_handoff_altitude := altitude_msl t;
                _handoff_history :=
                  _handoff_history m
                  ++ [(match _current_facility m with
                       | Some c => name c
                       | None => list_ascii_of_string "frequency"
                       end, name f)] |},
             Some ("Contact " ++ name f ++ " on " ++ frequency f)).
Proof.
  unfold update. destruct tel as [t|]; [|now left].
  destruct (connected t) eqn:Hc; [|now left]. cbn [negb].
  destruct (_determine_expected_facility m phase (altitude_msl t)
              (on_ground t)) as [f|] eqn:He; [|now left].
  destruct (needs_handoff m f) eqn:Hn; [|now left].
  right. exists t, f. repeat split; try assumption.
Qed.

(** The expected facility depends on the manager through the departure
    airport only. *)
Lemma expected_depends_on_departure (m m' : HandoffManager) (phase : str)
  (alt : float) (g : bool) :
  _departure_airport m' = _departure_airport m ->
  _determine_expected_facility m' phase alt g
  = _determine_expected_facility m phase alt g.
Proof. intros E. unfold _determine_expected_facility. now rewrite E. Qed.

(** X8.  A call of [update] returns phraseology exactly when it changes
    the manager, and then the history grows by one entry; the same call
    made again at once returns nothing and changes nothing. *)
Theorem update_hands_off_once (m : HandoffManager) (tel : option Telemetry)
  (phase : str) :
  (snd (update m tel phase) = None <-> fst (update m tel phase) = m)
  /\ length (_handoff_history (fst (update m tel phase)))
     = length (_handoff_history m)
       + match snd (update m tel phase) with
         | Some _ => 1
         | None => 0
         end
  /\ update (fst (update m tel phase)) tel phase
     = (fst (update m tel phase), None).
Proof.
  destruct (update_cases m tel phase)
    as [E|(t & f & -> & Hc & He & Hn & E)]; rewrite E; cbn [fst snd].
  - split; [tauto|]. split; [lia|exact E].
  - split; [|split].
    + split; [discriminate|]. intros H.
      apply (f_equal (fun x => length (_handoff_history x))) in H.
      cbn in H. rewrite length_app in H. cbn in H. lia.
    + cbn. rewrite length_app. reflexivity.
    + unfold update. rewrite Hc. cbn [negb].
      rewrite (expected_depends_on_departure m) by reflexivity.
      cbn [altitude_msl]. rewrite He.
      unfold needs_handoff. cbn. now rewrite type_eqb_refl.
Qed.

Lemma linked_app (start : str) (h : list (str * str)) (a b : str) :
  linked start (h ++ [(a, b)]) <-> linked start h /\ a = tip start h.
Proof.
  revert start. induction h as [|[x y] h IH]; intros start; cbn.
  - unfold tip. cbn. tauto.
  - rewrite IH. unfold tip. cbn. tauto.
Qed.

Lemma tip_app (start : str) (h : list (str * str)) (a b : str) :
  tip start (h ++ [(a, b)]) = b.
Proof. unfold tip. now rewrite fold_left_app. Qed.

(** Appending the entry of a handoff keeps the chain. *)
Lemma chained_handoff (m : HandoffManager) (f : Facility) (alt : float)
  (dep arr : option str) :
  chained m ->
  chained
    {| _current_facility := Some f;
       _departure_airport := dep;
       _arrival_airport := arr;
       _last_handoff_altitude := alt;
       _handoff_history :=
         _handoff_history m
         ++ [(match _current_facility m with
              | Some c => name c
              | None => list_ascii_of_string "frequency"
              end, name f)] |}.
Proof.
  intros [Hl Hc]. unfold chained.
  cbn [_current_facility _handoff_history].
  split.
  - apply linked_app. split; [assumption|].
    destruct (_current_facility m) as [c|].
    + now destruct Hc.
    + now rewrite Hc.
  - split.
    + intros E. now apply app_eq_nil in E as [_ E].
    + now rewrite tip_app.
Qed.

Lemma chained_op (m : HandoffManager) (op : Op) :
  chained m -> chained (apply_op m op).
Proof.
  intros H. destruct op as [tel phase|t i f|icao|icao|]; cbn [apply_op].
  - destruct (update_cases m tel phase)
      as [E|(t & f & _ & _ & _ & _ & E)]; rewrite E; cbn [fst];
      [assumption|now apply chained_handoff].
  - unfold force_handoff_to, _generate_handoff. cbn [fst].
    now apply (chained_handoff m).
  - exact H.
  - exact H.
  - unfold chained. cbn. tauto.
Qed.

(** X9.  Whatever calls are made on a new manager (updates, forced
    handoffs, airport settings, resets), the handoff history is a chain:
    the first entry starts from "frequency", every entry starts where the
    previous one ended, the last one ends at the name of the current
    facility, and the history is empty exactly when there is no current
    facility. *)
Theorem history_is_a_chain (ops : list Op) :
  chained (apply_ops init ops)
  /\ (_current_facility (apply_ops init ops) = None
      <-> _handoff_history (apply_ops init ops) = []).
Proof.
  assert (G : forall m, chained m -> chained (apply_ops m ops)).
  { unfold apply_ops. induction ops as [|op ops IH]; intros m H;
      [assumption|].
    cbn [fold_left]. apply IH. now apply chained_op. }
  assert (H : chained (apply_ops init ops)).
  { apply G. unfold chained. cbn. tauto. }
  split; [exact H|].
  destruct H as [_ H].
  destruct (_current_facility (apply_ops init ops)) as [f|].
  - destruct H as [Hne _]. split; [discriminate|]. intros E. contradiction.
  - tauto.
Qed.

Lemma flt_num (a b : Q) : flt a b = true <-> (a < b)%Q.
Proof. cbn [flt]. apply Qltb_lt. Qed.

Lemma flt_num_ge (a b : Q) : flt a b = false <-> (b <= a)%Q.
Proof. cbn [flt]. apply Qltb_ge. Qed.

(** The bands as the comparisons of the code answer them. *)
Lemma expected_facility_tests (m : HandoffManager) (phase : str)
  (alt : float) (g : bool) (f : Facility) :
  _determine_expected_facility m phase alt g = Some f ->
  match type f with
  | GROUND => g = true /\ names phase ["parked"; "taxi"] = true
  | TOWER =>
    names phase ["takeoff"; "departure"] = true /\ flt alt 3000 = true
  | DEPARTURE =>
    names phase ["takeoff"; "departure"] = true
    /\ flt alt 3000 = false /\ flt alt 10000 = true
  | CENTER =>
    names phase ["cruise"] = true \/ fgt alt 18000 = true
    \/ (names phase ["descent"; "approach"] = true /\ fgt alt 10000 = true)
  | APPROACH =>
    names phase ["descent"; "approach"] = true
    /\ fgt alt 10000 = false /\ fgt alt 18000 = false
    /\ names phase ["cruise"] = false
  | CLEARANCE | UNICOM | FLIGHT_SERVICE | UNKNOWN => False
  end.
Proof.
  unfold _determine_expected_facility, names. cbn [existsb].
  rewrite !orb_false_r.
  set (p := py_lower phase).
  destruct g, (str_in "parked" p || str_in "taxi" p),
    (str_in "takeoff" p || str_in "departure" p),
    (flt alt 3000), (flt alt 10000), (str_in "cruise" p),
    (fgt alt 18000), (str_in "descent" p || str_in "approach" p),
    (fgt alt 10000);
    cbn [or_else orb]; intros H; try discriminate H;
    injection H as <-; cbn [type]; auto.
Qed.

(** X10.  The facility [update] expects is never Clearance, Unicom, Flight
    Service or Unknown.  It is Ground only on the ground in a parked or
    taxi phase; Tower only in a takeoff or departure phase when the test
    [altitude < 3000] holds, and Departure only in such a phase when that
    test fails and [altitude < 10000] holds; Center only in a cruise
    phase, or when [altitude > 18000] holds, or in a descent or approach
    phase when [altitude > 10000] holds; Approach only in a descent or
    approach phase that is no cruise phase when both [altitude > 10000]
    and [altitude > 18000] fail, as they do for an altitude that is NaN.
    For an altitude that is a number the tests are the order of the
    numbers: Tower below 3000 ft, Departure from 3000 ft and below 10000
    ft, Approach at or below 10000 ft. *)
Theorem expected_facility_bands (m : HandoffManager) (phase : str)
  (alt : float) (g : bool) (f : Facility) :
  _determine_expected_facility m phase alt g = Some f ->
  match type f with
  | GROUND => g = true /\ names phase ["parked"; "taxi"] = true
  | TOWER =>
    names phase ["takeoff"; "departure"] = true /\ flt alt 3000 = true
  | DEPARTURE =>
    names phase ["takeoff"; "departure"] = true
    /\ flt alt 3000 = false /\ flt alt 10000 = true
  | CENTER =>
    names phase ["cruise"] = true \/ fgt alt 18000 = true
    \/ (names phase ["descent"; "approach"] = true /\ fgt alt 10000 = true)
  | APPROACH =>
    names phase ["descent"; "approach"] = true
    /\ fgt alt 10000 = false /\ fgt alt 18000 = false
    /\ names phase ["cruise"] = false
  | CLEARANCE | UNICOM | FLIGHT_SERVICE | UNKNOWN => False
  end
  /\ forall q : Q, alt = Num q ->
     match type f with
     | TOWER => (q < 3000)%Q
     | DEPARTURE => (3000 <= q)%Q /\ (q < 10000)%Q
     | CENTER =>
       names phase ["cruise"] = true \/ (18000 < q)%Q
       \/ (names phase ["descent"; "approach"] = true /\ (10000 < q)%Q)
     | APPROACH => (q <= 10000)%Q
     | _ => True
     end.
Proof.
  intros H. pose proof (expected_facility_tests m phase alt g f H) as T.
  split; [exact T|]. intros q ->. unfold fgt in T.
  destruct (type f); try exact I.
  - destruct T as [_ T]. now apply flt_num.
  - destruct T as (_ & T1 & T2). split; [now apply flt_num_ge|].
    now apply flt_num.
  - destruct T as (_ & T & _). now apply flt_num_ge.
  - destruct T as [T|[T|[T1 T2]]]; [now left|right; left|right; right].
    + now apply flt_num.
    + split; [exact T1|now apply flt_num].
Qed.

Lemma expected_facility_bands_witness :
  names "TAKEOFF" ["takeoff"; "departure"] = true /\ flt 1200 3000 = true.
Proof.
  apply (expected_facility_bands init "TAKEOFF" 1200 false
           {| type := TOWER; identifier := []; frequency := "118.300" |}).
  reflexivity.
Defined.

End HandoffMore.

(** ** More of response_cache.py *)

Section CacheMore.
Import Cache CacheSpec.

Lemma dict_get_del_other {V : Type} (k k' : str) (d : list (str * V)) :
  k' <> k -> dict_get k' (dict_del k d) = dict_get k' d.
Proof.
  intros Hne. unfold dict_del.
  induction d as [|[x v] d IH]; [reflexivity|]. cbn [filter fst].
  destruct (str_eqb k x) eqn:E; cbn [negb dict_get].
  - apply str_eqb_eq in E. subst x.
    apply str_eqb_neq in Hne. now rewrite Hne.
  - now rewrite IH.
Qed.

Lemma dict_get_set_other {V : Type} (k k' : str) (v : V)
  (d : list (str * V)) :
  k' <> k -> dict_get k' (dict_set k v d) = dict_get k' d.
Proof.
  intros Hne. apply str_eqb_neq in Hne.
  induction d as [|[x w] d IH]; cbn [dict_set dict_get].
  - now rewrite Hne.
  - destruct (str_eqb k x) eqn:E; cbn [dict_get].
    + apply str_eqb_eq in E. subst x. now rewrite Hne.
    + now rewrite IH.
Qed.

Lemma dict_get_set_same {V : Type} (k : str) (v : V) (d : list (str * V)) :
  dict_get k (dict_set k v d) = Some v.
Proof.
  induction d as [|[x w] d IH]; cbn [dict_set dict_get].
  - now rewrite str_eqb_refl.
  - destruct (str_eqb k x) eqn:E; cbn [dict_get].
    + now rewrite str_eqb_refl.
    + now rewrite E.
Qed.

(** X11.  Every [get] counts exactly one hit or one miss, a hit exactly
    when it returns a text; it leaves the other counters, the settings,
    the fingerprint and the queue alone, and it never changes the entry
    stored for another intent. *)
Theorem get_accounting_and_frame (self : SpeculativeCache) (now : Q)
  (key other : str) :
  let self' := fst (get self now key) in
  (hits (_stats self') + misses (_stats self')
   = hits (_stats self) + misses (_stats self) + 1)%Z
  /\ (hits (_stats self') = (hits (_stats self) + 1)%Z
      <-> snd (get self now key) <> None)
  /\ generations (_stats self') = generations (_stats self)
  /\ invalidations (_stats self') = invalidations (_stats self)
  /\ _current_context_hash self' = _current_context_hash self
  /\ _generation_queue self' = _generation_queue self
  /\ ttl_seconds self' = ttl_seconds self
  /\ max_cache_size self' = max_cache_size self
  /\ (other <> key ->
      dict_get other (_cache self') = dict_get other (_cache self)).
Proof.
  cbv zeta.
  destruct (get_cases self now key)
    as [[Hn ->]|[(e & He & Hage & ->)|(e & He & Hage & [[Hh ->]|[Hh ->]])]];
    cbn; repeat split; try lia; try discriminate; try tauto;
    try (intros H _; lia); try (intros H; exfalso; now apply H).
  - intros Hne. now apply dict_get_del_other.
  - intros Hne. now apply dict_get_set_other.
Qed.

Lemma get_accounting_and_frame_witness :
  dict_get "radio_check"
    (_cache (fst (get (sample_cache "aaaaaaaa") 400 "ready_for_departure")))
  = dict_get "radio_check" (_cache (sample_cache "aaaaaaaa")).
Proof.
  apply (get_accounting_and_frame (sample_cache "aaaaaaaa") 400
           "ready_for_departure" "radio_check").
  discriminate.
Defined.

(** *** Capacity *)

Lemma keys_filter {V : Type} (f : str * V -> bool) (d : list (str * V)) :
  NoDup (map fst d) -> NoDup (map fst (filter f d)).
Proof.
  induction d as [|[k v] d IH]; cbn [filter map]; [constructor|].
  intros H. inversion H as [|? ? Hk Hd]; subst.
  destruct (f (k, v)); [|now apply IH].
  cbn [map fst]. constructor; [|now apply IH].
  intros Hin. apply Hk. apply in_map_iff in Hin.
  destruct Hin as (x & <- & Hx). apply filter_In in Hx.
  now apply in_map.
Qed.

Lemma keys_del {V : Type} (k k' : str) (d : list (str * V)) :
  In k' (map fst (dict_del k d)) <-> In k' (map fst d) /\ k' <> k.
Proof.
  unfold dict_del. rewrite !in_map_iff. split.
  - intros ([x v] & <- & Hx). apply filter_In in Hx as [Hx Hf].
    cbn [fst] in *. split; [now exists (x, v)|].
    apply negb_true_iff, str_eqb_neq in Hf. congruence.
  - intros [([x v] & <- & Hx) Hne]. exists (x, v). split; [reflexivity|].
    apply filter_In. split; [assumption|]. cbn [fst] in *.
    apply negb_true_iff, str_eqb_neq. congruence.
Qed.

Lemma length_del {V : Type} (k : str) (d : list (str * V)) :
  NoDup (map fst d) -> In k (map fst d) ->
  S (length (dict_del k d)) = length d.
Proof.
  unfold dict_del. induction d as [|[x v] d IH]; [intros _ []|].
  cbn [map fst filter]. intros H Hin.
  inversion H as [|? ? Hx Hd]; subst.
  destruct (str_eqb k x) eqn:E; cbn [negb length].
  - apply str_eqb_eq in E. subst x. f_equal.
    assert (F : filter (fun kv : str * V => negb (str_eqb k (fst kv))) d = d).
    { apply filter_all. apply forallb_forall. intros [y w] Hy. cbn [fst].
      apply negb_true_iff, str_eqb_neq. intros ->.
      apply Hx. now apply (in_map fst) in Hy. }
    now rewrite F.
  - f_equal. apply IH; [assumption|].
    destruct Hin as [->|Hin]; [|assumption].
    now rewrite str_eqb_refl in E.
Qed.

Lemma length_del_le {V : Type} (k : str) (d : list (str * V)) :
  length (dict_del k d) <= length d.
Proof. apply filter_length_le. Qed.

Lemma keys_set {V : Type} (k : str) (v : V) (d : list (str * V)) :
  map fst (dict_set k v d)
  = if existsb (str_eqb k) (map fst d) then map fst d else map fst d ++ [k].
Proof.
  induction d as [|[x w] d IH]; [reflexivity|].
  cbn [dict_set map fst existsb].
  destruct (str_eqb k x) eqn:E; cbn [orb map fst].
  - apply str_eqb_eq in E. now subst x.
  - rewrite IH. now destruct (existsb (str_eqb k) (map fst d)).
Qed.

Lemma nodup_set {V : Type} (k : str) (v : V) (d : list (str * V)) :
  NoDup (map fst d) -> NoDup (map fst (dict_set k v d)).
Proof.
  intros H. rewrite keys_set.
  destruct (existsb (str_eqb k) (map fst d)) eqn:E; [assumption|].
  apply NoDup_app; [assumption|repeat constructor; intros []|].
  intros x Hx [E'|[]]. subst x.
  assert (T : existsb (str_eqb k) (map fst d) = true).
  { apply existsb_exists. exists k. split; [assumption|apply str_eqb_refl]. }
  congruence.
Qed.

Lemma length_set {V : Type} (k : str) (v : V) (d : list (str * V)) :
  length (dict_set k v d) <= S (length d).
Proof.
  rewrite <- (length_map fst (dict_set k v d)), keys_set.
  destruct (existsb (str_eqb k) (map fst d));
    rewrite ?length_app, length_map; cbn; lia.
Qed.

Lemma length_set_present {V : Type} (k : str) (v w : V)
  (d : list (str * V)) :
  dict_get k d = Some w -> length (dict_set k v d) = length d.
Proof.
  induction d as [|[x u] d IH]; [discriminate|].
  cbn [dict_get dict_set]. destruct (str_eqb k x); [reflexivity|].
  intros H. cbn [length]. f_equal. now apply IH.
Qed.

Lemma insert_by_age_perm (x : str * CachedResponse)
  (l : list (str * CachedResponse)) :
  Permutation (insert_by_age x l) (x :: l).
Proof.
  induction l as [|y l IH]; cbn [insert_by_age]; [reflexivity|].
  destruct (Qltb _ _); [|reflexivity].
  rewrite IH. apply perm_swap.
Qed.

Lemma sorted_by_age_perm (l : list (str * CachedResponse)) :
  Permutation (sorted_by_age l) l.
Proof.
  unfold sorted_by_age. induction l as [|x l IH]; cbn [fold_right];
    [reflexivity|].
  rewrite insert_by_age_perm. now constructor.
Qed.

(** Deleting keys that are in the dictionary and pairwise different
    removes as many entries. *)
Lemma length_del_all {V : Type} (es : list (str * V)) :
  forall d : list (str * V),
  NoDup (map fst es) -> incl (map fst es) (map fst d) ->
  NoDup (map fst d) ->
  length (fold_left (fun c e => dict_del (fst e) c) es d) + length es
  = length d
  /\ NoDup (map fst (fold_left (fun c e => dict_del (fst e) c) es d)).
Proof.
  induction es as [|[k v] es IH]; intros d Hes Hin Hd; cbn [fold_left].
  - cbn. split; [lia|assumption].
  - cbn [map fst] in Hes, Hin. inversion Hes as [|? ? Hk Hes']; subst.
    assert (Hkd : In k (map fst d)) by (apply Hin; now left).
    pose proof (length_del k d Hd Hkd) as Hlen.
    destruct (IH (dict_del k d) Hes') as [IHl IHn].
    + intros x Hx. apply keys_del. split.
      * apply Hin. now right.
      * intros ->. contradiction.
    + now apply keys_filter.
    + cbn [fst length]. split; [lia|assumption].
Qed.

Lemma trim_within_capacity (self : SpeculativeCache) :
  (0 <= max_cache_size self)%Z ->
  NoDup (map fst (_cache self)) ->
  within_capacity (_trim_cache self)
  /\ max_cache_size (_trim_cache self) = max_cache_size self.
Proof.
  intros Hmax Hd. unfold _trim_cache.
  destruct (Z.of_nat (length (_cache self)) <=? max_cache_size self)%Z eqn:E.
  - apply Z.leb_le in E. split; [|reflexivity]. now split.
  - apply Z.leb_gt in E.
    set (n := Z.to_nat (Z.of_nat (length (_cache self)) - max_cache_size self)).
    set (es := firstn n (sorted_by_age (_cache self))).
    pose proof (sorted_by_age_perm (_cache self)) as P.
    assert (Hn : n <= length (sorted_by_age (_cache self))).
    { rewrite (Permutation_length P). unfold n. lia. }
    assert (Hes : NoDup (map fst es)).
    { unfold es. rewrite <- firstn_map.
      assert (Hs : NoDup (map fst (sorted_by_age (_cache self)))).
      { apply (Permutation_NoDup (l := map fst (_cache self)));
          [|assumption].
        apply Permutation_map. now symmetry. }
      rewrite <- (firstn_skipn n (map fst (sorted_by_age (_cache self))))
        in Hs.
      now apply NoDup_app_remove_r in Hs. }
    assert (Hin : incl (map fst es) (map fst (_cache self))).
    { intros x Hx. apply in_map_iff in Hx. destruct Hx as (e & <- & He).
      apply in_map. apply (Permutation_in _ P).
      unfold es in He.
      rewrite <- (firstn_skipn n (sorted_by_age (_cache self))).
      apply in_or_app. now left. }
    destruct (length_del_all es (_cache self) Hes Hin Hd) as [Hl Hnd].
    assert (Hles : length es = n) by (unfold es; now apply firstn_length_le).
    split; [|reflexivity].
    unfold within_capacity, with_cache. cbn [_cache max_cache_size].
    fold n. fold es. split; [assumption|].
    rewrite Hles in Hl. unfold n in Hl. lia.
Qed.

Lemma get_within_capacity (self : SpeculativeCache) (now : Q) (key : str) :
  within_capacity self ->
  within_capacity (fst (get self now key))
  /\ max_cache_size (fst (get self now key)) = max_cache_size self.
Proof.
  intros [Hd Hl]. unfold within_capacity.
  destruct (get_cases self now key)
    as [[Hn ->]|[(e & He & Hage & ->)|(e & He & Hage & [[Hh ->]|[Hh ->]])]];
    cbn [fst with_cache _cache max_cache_size]; try tauto.
  - split; [|reflexivity]. split; [now apply keys_filter|].
    pose proof (length_del_le key (_cache self)). lia.
  - split; [|reflexivity]. split; [now apply nodup_set|].
    now rewrite (length_set_present _ _ _ _ He).
Qed.

Lemma fuzzy_within_capacity (now_of : str -> Q) (msg : str)
  (entries : list (str * list str)) :
  forall self : SpeculativeCache,
  within_capacity self ->
  within_capacity (fst (fuzzy_loop self now_of msg entries))
  /\ max_cache_size (fst (fuzzy_loop self now_of msg entries))
     = max_cache_size self.
Proof.
  induction entries as [|[k kws] rest IH]; intros self H; cbn [fuzzy_loop].
  - now split.
  - destruct (existsb (fun kw => str_in kw msg) kws); [|now apply IH].
    destruct (get_within_capacity self (now_of k) k H) as [H1 M1].
    destruct (get self (now_of k) k) as [self1 [[|c r]|]]; cbn [fst] in *;
      try now split.
    + destruct (IH self1 H1) as [H2 M2]. split; [assumption|congruence].
    + destruct (IH self1 H1) as [H2 M2]. split; [assumption|congruence].
Qed.

Lemma generate_within_capacity (self : SpeculativeCache) (now : Q)
  (key prompt : str) (phase : FlightPhase) :
  (0 <= max_cache_size self)%Z -> within_capacity self ->
  within_capacity (_generate_and_cache self now key prompt phase)
  /\ max_cache_size (_generate_and_cache self now key prompt phase)
     = max_cache_size self.
Proof.
  intros Hmax [Hd Hl]. unfold _generate_and_cache.
  destruct (generate_func self prompt) as [[|c r]|]; try (now repeat split).
  match goal with
  | |- context [_trim_cache ?x] =>
    destruct (trim_within_capacity x) as [H1 H2]
  end.
  - exact Hmax.
  - cbn [with_cache _cache]. now apply nodup_set.
  - split; [exact H1|exact H2].
Qed.

Lemma update_context_within_capacity (md5_hexdigest : str -> str)
  (self : SpeculativeCache) (phase : FlightPhase)
  (airport runway callsign frequency : str) :
  (0 <= max_cache_size self)%Z -> within_capacity self ->
  let self' :=
    update_context md5_hexdigest self phase airport runway callsign
      frequency in
  within_capacity self' /\ max_cache_size self' = max_cache_size self.
Proof.
  intros Hmax H. cbv zeta. unfold update_context.
  destruct (negb _); [|now split].
  split; [|reflexivity]. split; cbn; [constructor|assumption].
Qed.

Lemma generation_step_within_capacity (self : SpeculativeCache) (now : Q) :
  (0 <= max_cache_size self)%Z -> within_capacity self ->
  within_capacity (generation_step self now)
  /\ max_cache_size (generation_step self now) = max_cache_size self.
Proof.
  intros Hmax H. unfold generation_step.
  destruct (_generation_queue self) as [|[[k p] ph] rest]; [now split|].
  match goal with
  | |- context [_generate_and_cache ?x _ _ _ _] =>
    apply (generate_within_capacity x now k p ph)
  end; assumption.
Qed.

Lemma apply_op_within_capacity (md5_hexdigest : str -> str)
  (self : SpeculativeCache) (op : Op) :
  (0 <= max_cache_size self)%Z -> within_capacity self ->
  within_capacity (apply_op md5_hexdigest self op)
  /\ max_cache_size (apply_op md5_hexdigest self op) = max_cache_size self.
Proof.
  intros Hmax H. destruct op; cbn [apply_op].
  - now apply get_within_capacity.
  - now apply fuzzy_within_capacity.
  - now apply update_context_within_capacity.
  - now apply generation_step_within_capacity.
  - now apply generate_within_capacity.
Qed.

(** X12.  A cache built with a capacity that is not negative never holds
    more than [max_cache_size] entries, and never two under one key,
    whatever calls of [get], [fuzzy_match], [update_context],
    [_generate_and_cache] and turns of the generation loop are made on it;
    the capacity itself is never changed. *)
Theorem cache_stays_within_capacity (md5_hexdigest : str -> str)
  (generate : str -> option str) (max : Z) (ttl : Q) (ops : list Op) :
  (0 <= max)%Z ->
  let self :=
    fold_left (apply_op md5_hexdigest) ops (init generate max ttl) in
  max_cache_size self = max
  /\ NoDup (map fst (_cache self))
  /\ (Z.of_nat (length (_cache self)) <= max)%Z.
Proof.
  intros Hmax. cbv zeta.
  assert (G : forall self0,
    max_cache_size self0 = max -> within_capacity self0 ->
    max_cache_size (fold_left (apply_op md5_hexdigest) ops self0) = max
    /\ within_capacity (fold_left (apply_op md5_hexdigest) ops self0)).
  { induction ops as [|op ops IH]; intros self0 M H; cbn [fold_left].
    - now split.
    - destruct (apply_op_within_capacity md5_hexdigest self0 op) as [H1 M1];
        [lia|assumption|].
      apply IH; [congruence|assumption]. }
  destruct (G (init generate max ttl)) as [M [Hd Hl]].
  - reflexivity.
  - split; cbn; [constructor|assumption].
  - rewrite M in Hl. auto.
Qed.

Lemma cache_stays_within_capacity_witness :
  let self :=
    fold_left (apply_op (fun s => s))
      [GenerateAndCache 1 "request_taxi" "p" PARKED;
       GenerateAndCache 2 "atis_check" "q" PARKED;
       Get 3 "request_taxi"]
      (init (fun p => Some ("Roger, " ++ p)) 1 300) in
  max_cache_size self = 1%Z
  /\ NoDup (map fst (_cache self))
  /\ (Z.of_nat (length (_cache self)) <= 1)%Z.
Proof.
  apply (cache_stays_within_capacity (fun s => s)
           (fun p => Some ("Roger, " ++ p)) 1 300).
  lia.
Defined.

(** *** Eviction order *)

Lemma insert_by_age_sorted (x : str * CachedResponse)
  (l : list (str * CachedResponse)) :
  StronglySorted older l -> StronglySorted older (insert_by_age x l).
Proof.
  induction l as [|y l IH]; intros H; cbn [insert_by_age].
  - repeat constructor.
  - inversion H as [|? ? Hs Hf]; subst.
    destruct (Qltb (generated_at (snd y)) (generated_at (snd x))) eqn:E.
    + apply Qltb_lt in E. constructor; [now apply IH|].
      apply Forall_forall. intros z Hz.
      apply (Permutation_in _ (insert_by_age_perm x l)) in Hz.
      destruct Hz as [<-|Hz].
      * now apply Qlt_le_weak.
      * rewrite Forall_forall in Hf. now apply Hf.
    + apply Qltb_ge in E. constructor; [assumption|].
      constructor; [exact E|].
      rewrite Forall_forall in Hf |- *. intros z Hz.
      unfold older in *. apply Qle_trans with (generated_at (snd y));
        [assumption|now apply Hf].
Qed.

Lemma sorted_by_age_sorted (l : list (str * CachedResponse)) :
  StronglySorted older (sorted_by_age l).
Proof.
  unfold sorted_by_age. induction l as [|x l IH]; cbn [fold_right].
  - constructor.
  - now apply insert_by_age_sorted.
Qed.

Lemma sorted_prefix_older (l : list (str * CachedResponse)) :
  StronglySorted older l ->
  forall n x y, In x (firstn n l) -> In y (skipn n l) -> older x y.
Proof.
  induction 1 as [|a l Hs IH Hf]; intros n x y Hx Hy.
  - now destruct n.
  - destruct n as [|n]; [destruct Hx|]. cbn [firstn skipn] in Hx, Hy.
    destruct Hx as [<-|Hx].
    + rewrite Forall_forall in Hf. apply Hf.
      rewrite <- (firstn_skipn n l). apply in_or_app. now right.
    + now apply (IH n).
Qed.

Lemma dict_get_In {V : Type} (k : str) (v : V) (d : list (str * V)) :
  dict_get k d = Some v -> In (k, v) d.
Proof.
  induction d as [|[x w] d IH]; [discriminate|]. cbn [dict_get].
  destruct (str_eqb k x) eqn:E.
  - apply str_eqb_eq in E. subst x. intros [= ->]. now left.
  - intros H. right. now apply IH.
Qed.

Lemma In_dict_get {V : Type} (k : str) (v : V) (d : list (str * V)) :
  NoDup (map fst d) -> In (k, v) d -> dict_get k d = Some v.
Proof.
  induction d as [|[x w] d IH]; [intros _ []|]. cbn [map fst dict_get].
  intros H Hin. inversion H as [|? ? Hx Hd]; subst.
  destruct Hin as [[= -> ->]|Hin].
  - now rewrite str_eqb_refl.
  - destruct (str_eqb k x) eqn:E; [|now apply IH].
    apply str_eqb_eq in E. subst x. exfalso. apply Hx.
    now apply (in_map fst) in Hin.
Qed.

Lemma dict_get_del_all {V : Type} (k : str) (es : list (str * V)) :
  forall d : list (str * V),
  dict_get k (fold_left (fun c e => dict_del (fst e) c) es d)
  = if existsb (str_eqb k) (map fst es) then None else dict_get k d.
Proof.
  induction es as [|[x w] es IH]; intros d; cbn [fold_left map fst existsb];
    [reflexivity|].
  rewrite IH. destruct (str_eqb k x) eqn:E; cbn [orb].
  - apply str_eqb_eq in E. subst x. rewrite dict_get_del.
    now destruct (existsb _ _).
  - apply str_eqb_neq in E. rewrite dict_get_del_other by assumption.
    reflexivity.
Qed.

Lemma trim_length (self : SpeculativeCache) :
  (0 <= max_cache_size self)%Z ->
  NoDup (map fst (_cache self)) ->
  Z.of_nat (length (_cache (_trim_cache self)))
  = Z.min (Z.of_nat (length (_cache self))) (max_cache_size self).
Proof.
  intros Hmax Hd. unfold _trim_cache.
  destruct (Z.of_nat (length (_cache self)) <=? max_cache_size self)%Z eqn:E.
  - apply Z.leb_le in E. lia.
  - apply Z.leb_gt in E.
    set (n := Z.to_nat (Z.of_nat (length (_cache self)) - max_cache_size self)).
    set (es := firstn n (sorted_by_age (_cache self))).
    pose proof (sorted_by_age_perm (_cache self)) as P.
    assert (Hn : n <= length (sorted_by_age (_cache self))).
    { rewrite (Permutation_length P). unfold n. lia. }
    assert (Hes : NoDup (map fst es)).
    { unfold es. rewrite <- firstn_map.
      assert (Hs : NoDup (map fst (sorted_by_age (_cache self)))).
      { apply (Permutation_NoDup (l := map fst (_cache self)));
          [|assumption].
        apply Permutation_map. now symmetry. }
      rewrite <- (firstn_skipn n (map fst (sorted_by_age (_cache self))))
        in Hs.
      now apply NoDup_app_remove_r in Hs. }
    assert (Hin : incl (map fst es) (map fst (_cache self))).
    { intros x Hx. apply in_map_iff in Hx. destruct Hx as (e & <- & He).
      apply in_map. apply (Permutation_in _ P).
      unfold es in He.
      rewrite <- (firstn_skipn n (sorted_by_age (_cache self))).
      apply in_or_app. now left. }
    destruct (length_del_all es (_cache self) Hes Hin Hd) as [Hl Hnd].
    assert (Hles : length es = n) by (unfold es; now apply firstn_length_le).
    unfold with_cache. cbn [_cache max_cache_size].
    fold n. fold es. rewrite Hles in Hl. unfold n in Hl. lia.
Qed.

(** X13.  [_trim_cache] only deletes: an entry it keeps is the one that
    was stored.  An entry it deletes was generated no later than every
    entry it keeps, so eviction is oldest first.  With a capacity that is
    not negative it leaves exactly [max_cache_size] entries when there
    were more, and all of them otherwise. *)
Theorem trim_evicts_oldest (self : SpeculativeCache) :
  NoDup (map fst (_cache self)) ->
  let self' := _trim_cache self in
  (forall k e, dict_get k (_cache self') = Some e ->
     dict_get k (_cache self) = Some e)
  /\ (forall k e, dict_get k (_cache self) = Some e ->
      dict_get k (_cache self') = None ->
      forall k' e', dict_get k' (_cache self') = Some e' ->
      (generated_at e <= generated_at e')%Q)
  /\ ((0 <= max_cache_size self)%Z ->
      Z.of_nat (length (_cache self'))
      = Z.min (Z.of_nat (length (_cache self))) (max_cache_size self)).
Proof.
  intros Hd. cbv zeta. split; [|split]; [| |intros H; now apply trim_length].
  - intros k e. unfold _trim_cache.
    destruct (_ <=? _)%Z; [auto|].
    unfold with_cache. cbn [_cache]. rewrite dict_get_del_all.
    now destruct (existsb _ _).
  - intros k e He Hgone k' e'. unfold _trim_cache in *.
    destruct (_ <=? _)%Z; [congruence|].
    unfold with_cache in *. cbn [_cache] in *.
    set (n := Z.to_nat (Z.of_nat (length (_cache self)) - max_cache_size self))
      in *.
    rewrite dict_get_del_all in Hgone. rewrite dict_get_del_all.
    destruct (existsb (str_eqb k) _) eqn:Ek; [|congruence].
    destruct (existsb (str_eqb k') _) eqn:Ek'; [discriminate|].
    intros He'.
    pose proof (sorted_by_age_perm (_cache self)) as P.
    apply existsb_exists in Ek. destruct Ek as (x & Hx & Ex).
    apply str_eqb_eq in Ex. subst x.
    apply in_map_iff in Hx. destruct Hx as ([k0 e0] & E0 & H0).
    cbn [fst] in E0. subst k0.
    assert (e0 = e).
    { assert (In (k, e0) (_cache self)).
      { apply (Permutation_in _ P).
        rewrite <- (firstn_skipn n (sorted_by_age (_cache self))).
        apply in_or_app. now left. }
      apply (In_dict_get _ _ _ Hd) in H. congruence. }
    subst e0.
    assert (H1 : In (k', e') (skipn n (sorted_by_age (_cache self)))).
    { apply dict_get_In in He'.
      apply (Permutation_in _ (Permutation_sym P)) in He'.
      rewrite <- (firstn_skipn n (sorted_by_age (_cache self))) in He'.
      apply in_app_or in He'. destruct He' as [Hf|Hs]; [|assumption].
      exfalso.
      assert (T : existsb (str_eqb k')
                    (map fst (firstn n (sorted_by_age (_cache self))))
                  = true).
      { apply existsb_exists. exists k'. split; [|apply str_eqb_refl].
        now apply (in_map fst) in Hf. }
      congruence. }
    exact (sorted_prefix_older _ (sorted_by_age_sorted _) n _ _ H0 H1).
Qed.

Lemma trim_evicts_oldest_witness :
  Z.of_nat (length (_cache (_trim_cache crowded_cache)))
  = Z.min (Z.of_nat (length (_cache crowded_cache)))
      (max_cache_size crowded_cache).
Proof.
  apply (trim_evicts_oldest crowded_cache).
  - repeat constructor; cbn; intuition discriminate.
  - cbn. lia.
Defined.

(** *** Generation, then lookup *)

Lemma trim_room (self : SpeculativeCache) :
  (Z.of_nat (length (_cache self)) <= max_cache_size self)%Z ->
  _trim_cache self = self.
Proof.
  intros H. unfold _trim_cache. apply Z.leb_le in H. now rewrite H.
Qed.

Lemma generate_and_cache_settings (self : SpeculativeCache) (now : Q)
  (key prompt : str) (phase : FlightPhase) :
  let self' := _generate_and_cache self now key prompt phase in
  generate_func self' = generate_func self
  /\ max_cache_size self' = max_cache_size self
  /\ ttl_seconds self' = ttl_seconds self
  /\ _current_context_hash self' = _current_context_hash self
  /\ _generation_queue self' = _generation_queue self.
Proof.
  cbv zeta. unfold _generate_and_cache.
  destruct (generate_func self prompt) as [[|c r]|]; try tauto.
  unfold _trim_cache. destruct (_ <=? _)%Z; cbn; tauto.
Qed.

Lemma generate_and_cache_stores (self : SpeculativeCache) (now : Q)
  (key prompt : str) (phase : FlightPhase) (txt : str) :
  (Z.of_nat (length (_cache self)) < max_cache_size self)%Z ->
  generate_func self prompt = Some txt -> txt <> [] ->
  let self' := _generate_and_cache self now key prompt phase in
  (exists e, _cache self' = dict_set key e (_cache self)
     /\ response_text e = txt
     /\ context_hash e = _current_context_hash self
     /\ generated_at e = now)
  /\ generations (_stats self') = (generations (_stats self) + 1)%Z.
Proof.
  intros Hroom Hg Hne. cbv zeta. unfold _generate_and_cache. rewrite Hg.
  destruct txt as [|c r]; [contradiction|].
  rewrite trim_room.
  - cbn [with_cache _cache _stats generations]. split; [|reflexivity].
    eexists. split; [reflexivity|]. cbn. auto.
  - cbn [with_cache _cache max_cache_size].
    match goal with
    | |- context [dict_set key ?e _] =>
      pose proof (length_set key e (_cache self))
    end. lia.
Qed.

Lemma generate_and_cache_frame (self : SpeculativeCache) (now : Q)
  (key prompt : str) (phase : FlightPhase) :
  (Z.of_nat (length (_cache self)) < max_cache_size self)%Z ->
  let self' := _generate_and_cache self now key prompt phase in
  length (_cache self') <= S (length (_cache self))
  /\ forall other, other <> key ->
     dict_get other (_cache self') = dict_get other (_cache self).
Proof.
  intros Hroom. cbv zeta.
  destruct (generate_func self prompt) as [[|c r]|] eqn:Hg.
  1, 3: unfold _generate_and_cache; rewrite Hg; split; [lia|reflexivity].
  destruct (generate_and_cache_stores self now key prompt phase (c :: r)
              Hroom Hg) as [(e & -> & _) _]; [discriminate|].
  split; [apply length_set|].
  intros other Hne. now apply dict_get_set_other.
Qed.

Lemma get_servable (self : SpeculativeCache) (now : Q) (key txt : str) :
  snd (get self now key) = Some txt <-> servable self now key txt.
Proof.
  unfold servable.
  destruct (get_cases self now key)
    as [[Hn ->]|[(e & He & Hage & ->)|(e & He & Hage & [[Hh ->]|[Hh ->]])]];
    cbn [snd]; split; try discriminate.
  - intros (e & He & _). congruence.
  - intros (e' & He' & _ & _ & Hfresh).
    assert (e' = e) by congruence. subst e'.
    exfalso. revert Hfresh. now apply Qlt_not_le.
  - intros (e' & He' & _ & Hsame & _).
    assert (e' = e) by congruence. subst e'. contradiction.
  - intros [= <-]. exists e. auto.
  - intros (e' & He' & <- & _). congruence.
Qed.

(** X14.  Insert, then look up: when [generate_func] returns a text that
    is not empty and the cache has room for one more entry, the text
    stored by [_generate_and_cache] is what [get] returns for that intent
    at any time within [ttl_seconds] of the generation.  The generation is
    counted, and the entries of the other intents are not touched. *)
Theorem generate_then_get (self : SpeculativeCache) (now now' : Q)
  (key prompt : str) (phase : FlightPhase) (txt : str) :
  generate_func self prompt = Some txt -> txt <> [] ->
  (Z.of_nat (length (_cache self)) < max_cache_size self)%Z ->
  (now' - now <= ttl_seconds self)%Q ->
  let self' := _generate_and_cache self now key prompt phase in
  snd (get self' now' key) = Some txt
  /\ generations (_stats self') = (generations (_stats self) + 1)%Z
  /\ (forall other, other <> key ->
      dict_get other (_cache self') = dict_get other (_cache self)).
Proof.
  intros Hg Hne Hroom Hage. cbv zeta.
  destruct (generate_and_cache_stores self now key prompt phase txt
              Hroom Hg Hne) as [(e & Hc & Ht & Hh & Hat) Hgen].
  destruct (generate_and_cache_settings self now key prompt phase)
    as (_ & _ & Httl & Hhash & _).
  split; [|split; [exact Hgen|]].
  - apply get_servable. exists e. rewrite Hc, dict_get_set_same.
    rewrite Httl, Hhash, Hat. auto.
  - apply (generate_and_cache_frame self now key prompt phase Hroom).
Qed.

Lemma generate_then_get_witness :
  snd (get (_generate_and_cache
              (init (fun p => Some ("Roger, " ++ p)) 20 300)
              100 "radio_check" "radio check" CRUISE)
         250 "radio_check")
  = Some (list_ascii_of_string "Roger, radio check").
Proof.
  apply (generate_then_get (init (fun p => Some ("Roger, " ++ p)) 20 300)
           100 250 "radio_check" "radio check" CRUISE).
  - reflexivity.
  - discriminate.
  - cbn. lia.
  - cbn. apply Qle_bool_iff. reflexivity.
Defined.

(** *** [fuzzy_match] *)

Lemma get_settings (self : SpeculativeCache) (now : Q) (key : str) :
  let self' := fst (get self now key) in
  ttl_seconds self' = ttl_seconds self
  /\ _current_context_hash self' = _current_context_hash self
  /\ forall other, other <> key ->
     dict_get other (_cache self') = dict_get other (_cache self).
Proof.
  cbv zeta.
  destruct (get_cases self now key)
    as [[Hn ->]|[(e & He & Hage & ->)|(e & He & Hage & [[Hh ->]|[Hh ->]])]];
    cbn [fst with_cache _cache ttl_seconds _current_context_hash];
    repeat split; try reflexivity.
  - intros other Hne. now apply dict_get_del_other.
  - intros other Hne. now apply dict_get_set_other.
Qed.

Lemma servable_after_get (self : SpeculativeCache) (now now' : Q)
  (key other txt : str) :
  other <> key ->
  servable (fst (get self now key)) now' other txt
  <-> servable self now' other txt.
Proof.
  intros Hne. unfold servable.
  destruct (get_settings self now key) as (-> & -> & Hf).
  rewrite (Hf other Hne). reflexivity.
Qed.

Lemma servable_one_text (self : SpeculativeCache) (now : Q)
  (key t t' : str) :
  servable self now key t -> servable self now key t' -> t = t'.
Proof.
  intros (e & He & <- & _) (e' & He' & <- & _). congruence.
Qed.

Lemma fuzzy_loop_sound (now_of : str -> Q) (msg : str)
  (entries : list (str * list str)) :
  NoDup (map fst entries) ->
  forall self self' k t,
  fuzzy_loop self now_of msg entries = (self', Some (k, t)) ->
  t <> []
  /\ (exists kws, In (k, kws) entries
        /\ existsb (fun kw => str_in kw msg) kws = true)
  /\ servable self (now_of k) k t.
Proof.
  induction entries as [|[k0 kws0] rest IH]; intros Hd self self' k t H;
    cbn [fuzzy_loop] in H; [discriminate|].
  cbn [map fst] in Hd. inversion Hd as [|? ? Hk0 Hd']; subst.
  assert (Later : forall self1,
    (self1 = self \/ self1 = fst (get self (now_of k0) k0)) ->
    fuzzy_loop self1 now_of msg rest = (self', Some (k, t)) ->
    t <> []
    /\ (exists kws, In (k, kws) ((k0, kws0) :: rest)
          /\ existsb (fun kw => str_in kw msg) kws = true)
    /\ servable self (now_of k) k t).
  { intros self1 Hs H1. destruct (IH Hd' _ _ _ _ H1) as (Ht & (kws & Hin & Hkw) & Hsv).
    split; [assumption|]. split; [exists kws; split; [now right|assumption]|].
    destruct Hs as [->| ->]; [assumption|].
    apply servable_after_get in Hsv; [assumption|].
    intros ->. apply Hk0. now apply (in_map fst) in Hin. }
  destruct (existsb (fun kw => str_in kw msg) kws0) eqn:Ex.
  - destruct (get self (now_of k0) k0) as [self1 o] eqn:G.
    assert (S1 : self1 = fst (get self (now_of k0) k0)) by now rewrite G.
    destruct o as [[|c r]|].
    + apply (Later self1); auto.
    + injection H as <- <- <-. split; [discriminate|].
      split; [exists kws0; split; [now left|assumption]|].
      apply get_servable. now rewrite G.
    + apply (Later self1); auto.
  - apply (Later self); auto.
Qed.

Lemma fuzzy_loop_complete (now_of : str -> Q) (msg : str)
  (entries : list (str * list str)) :
  NoDup (map fst entries) ->
  forall self self',
  fuzzy_loop self now_of msg entries = (self', None) ->
  forall k kws t, In (k, kws) entries ->
  existsb (fun kw => str_in kw msg) kws = true ->
  servable self (now_of k) k t -> t = [].
Proof.
  induction entries as [|[k0 kws0] rest IH]; intros Hd self self' H k kws t
    Hin Hkw Hsv; [destruct Hin|].
  cbn [fuzzy_loop] in H.
  cbn [map fst] in Hd. inversion Hd as [|? ? Hk0 Hd']; subst.
  destruct Hin as [[= -> ->]|Hin].
  - rewrite Hkw in H.
    destruct (get self (now_of k) k) as [self1 o] eqn:G.
    apply get_servable in Hsv. rewrite G in Hsv. cbn [snd] in Hsv.
    subst o. destruct t as [|c r]; [reflexivity|discriminate].
  - assert (Hne : k <> k0).
    { intros ->. apply Hk0. now apply (in_map fst) in Hin. }
    destruct (existsb (fun kw => str_in kw msg) kws0).
    + destruct (get self (now_of k0) k0) as [self1 o] eqn:G.
      assert (S1 : self1 = fst (get self (now_of k0) k0)) by now rewrite G.
      assert (Hsv1 : servable self1 (now_of k) k t).
      { rewrite S1. now apply servable_after_get. }
      destruct o as [[|c r]|]; [|discriminate|];
        exact (IH Hd' _ _ H _ _ _ Hin Hkw Hsv1).
    + exact (IH Hd' _ _ H _ _ _ Hin Hkw Hsv).
Qed.

Lemma keywords_map_keys : NoDup (map fst keywords_map).
Proof.
  repeat constructor; cbn; intuition discriminate.
Qed.

(** X15.  When [fuzzy_match] returns an intent and a text, the text is not
    empty, one of the keywords listed for the intent occurs in the
    lower-cased message, and the entry stored for the intent when
    [fuzzy_match] was called is served: same fingerprint, age within
    [ttl_seconds] at the moment it is read.  When [fuzzy_match] returns
    nothing, no intent whose keyword occurs in the message had a text
    that is not empty to serve. *)
Theorem fuzzy_match_sound_and_complete (self : SpeculativeCache)
  (now_of : str -> Q) (pilot_message : str) :
  (forall self' k t,
     fuzzy_match self now_of pilot_message = (self', Some (k, t)) ->
     t <> []
     /\ (exists kws kw, In (k, kws) keywords_map /\ In kw kws
           /\ str_in kw (py_lower pilot_message) = true)
     /\ servable self (now_of k) k t)
  /\ (forall self',
      fuzzy_match self now_of pilot_message = (self', None) ->
      forall k kws kw t, In (k, kws) keywords_map -> In kw kws ->
      str_in kw (py_lower pilot_message) = true ->
      servable self (now_of k) k t -> t = []).
Proof.
  unfold fuzzy_match. split.
  - intros self' k t H.
    destruct (fuzzy_loop_sound _ _ _ keywords_map_keys _ _ _ _ H)
      as (Ht & (kws & Hin & Hkw) & Hsv).
    split; [assumption|]. split; [|assumption].
    apply existsb_exists in Hkw. destruct Hkw as (kw & Hkw1 & Hkw2).
    exists kws, kw. split; [exact Hin|]. split; [exact Hkw1|exact Hkw2].
  - intros self' H k kws kw t Hin Hkw Hs Hsv.
    apply (fuzzy_loop_complete _ _ _ keywords_map_keys _ _ H k kws t Hin);
      [|assumption].
    apply existsb_exists. exists kw. split; [exact Hkw|exact Hs].
Qed.

(** *** From a context change to a hit *)

Lemma generation_step_settings (self : SpeculativeCache) (now : Q) :
  let self' := generation_step self now in
  generate_func self' = generate_func self
  /\ max_cache_size self' = max_cache_size self
  /\ ttl_seconds self' = ttl_seconds self
  /\ _current_context_hash self' = _current_context_hash self
  /\ _generation_queue self' = tl (_generation_queue self).
Proof.
  cbv zeta. unfold generation_step.
  destruct (_generation_queue self) as [|[[k p] ph] rest] eqn:Hq;
    [repeat split; try reflexivity; exact Hq|].
  match goal with
  | |- context [_generate_and_cache ?x _ _ _ _] =>
    destruct (generate_and_cache_settings x now k p ph)
      as (-> & -> & -> & -> & ->)
  end.
  repeat split; reflexivity.
Qed.

Lemma generation_step_frame (self : SpeculativeCache) (now : Q) :
  (Z.of_nat (length (_cache self)) < max_cache_size self)%Z ->
  let self' := generation_step self now in
  length (_cache self') <= S (length (_cache self))
  /\ forall other,
     ~ In other (map (fun i => fst (fst i)) (firstn 1 (_generation_queue self))) ->
     dict_get other (_cache self') = dict_get other (_cache self).
Proof.
  intros Hroom. cbv zeta. unfold generation_step.
  destruct (_generation_queue self) as [|[[k p] ph] rest];
    [split; [lia|reflexivity]|].
  match goal with
  | |- context [_generate_and_cache ?x _ _ _ _] =>
    destruct (generate_and_cache_frame x now k p ph Hroom) as [Hl Hf]
  end.
  cbn [_cache] in *. split; [exact Hl|].
  intros other Hn. apply Hf. intros ->. apply Hn. now left.
Qed.

Lemma generation_step_stores (self : SpeculativeCache) (now : Q)
  (k p : str) (ph : FlightPhase) (rest : list (str * str * FlightPhase))
  (txt : str) :
  (Z.of_nat (length (_cache self)) < max_cache_size self)%Z ->
  _generation_queue self = (k, p, ph) :: rest ->
  generate_func self p = Some txt -> txt <> [] ->
  exists e, dict_get k (_cache (generation_step self now)) = Some e
    /\ response_text e = txt
    /\ context_hash e = _current_context_hash self
    /\ generated_at e = now.
Proof.
  intros Hroom Hq Hg Hne. unfold generation_step. rewrite Hq.
  match goal with
  | |- context [_generate_and_cache ?x _ _ _ _] =>
    destruct (generate_and_cache_stores x now k p ph txt Hroom Hg Hne)
      as [(e & -> & H) _]
  end.
  exists e. split; [apply dict_get_set_same|exact H].
Qed.

Lemma drain_settings (nows : list Q) :
  forall self : SpeculativeCache,
  let self' := fold_left generation_step nows self in
  generate_func self' = generate_func self
  /\ max_cache_size self' = max_cache_size self
  /\ ttl_seconds self' = ttl_seconds self
  /\ _current_context_hash self' = _current_context_hash self
  /\ _generation_queue self' = skipn (length nows) (_generation_queue self).
Proof.
  induction nows as [|t nows IH]; intros self; cbn [fold_left length].
  - cbn. tauto.
  - destruct (IH (generation_step self t)) as (-> & -> & -> & -> & ->).
    destruct (generation_step_settings self t) as (-> & -> & -> & -> & ->).
    repeat split; try reflexivity.
    destruct (_generation_queue self); cbn [tl skipn];
      [apply skipn_nil|reflexivity].
Qed.

Lemma drain_frame (nows : list Q) :
  forall self : SpeculativeCache,
  (Z.of_nat (length (_cache self) + length nows) <= max_cache_size self)%Z ->
  forall other,
  ~ In other (map (fun i => fst (fst i)) (_generation_queue self)) ->
  dict_get other (_cache (fold_left generation_step nows self))
  = dict_get other (_cache self).
Proof.
  induction nows as [|t nows IH]; intros self Hroom other Hn;
    cbn [fold_left]; [reflexivity|].
  cbn [length] in Hroom.
  destruct (generation_step_settings self t) as (_ & Hm & _ & _ & Hq).
  destruct (generation_step_frame self t) as [Hl Hf]; [lia|].
  rewrite IH.
  - apply Hf. intros Hin. apply Hn.
    destruct (_generation_queue self); [destruct Hin|].
    cbn [firstn map In] in *. tauto.
  - rewrite Hm. lia.
  - rewrite Hq. intros Hin. apply Hn.
    destruct (_generation_queue self); [destruct Hin|]. now right.
Qed.

Lemma drain_stores (nows : list Q) :
  forall self : SpeculativeCache,
  length nows = length (_generation_queue self) ->
  NoDup (map (fun i => fst (fst i)) (_generation_queue self)) ->
  (Z.of_nat (length (_cache self) + length nows) <= max_cache_size self)%Z ->
  forall k p ph txt, In (k, p, ph) (_generation_queue self) ->
  generate_func self p = Some txt -> txt <> [] ->
  exists e,
    dict_get k (_cache (fold_left generation_step nows self)) = Some e
    /\ response_text e = txt
    /\ context_hash e = _current_context_hash self
    /\ In (generated_at e) nows.
Proof.
  induction nows as [|t nows IH]; intros self Hlen Hd Hroom k p ph txt Hin
    Hg Hne.
  - destruct (_generation_queue self); [destruct Hin|discriminate].
  - destruct (_generation_queue self) as [|[[k0 p0] ph0] rest] eqn:Hq;
      [destruct Hin|].
    cbn [length] in Hlen, Hroom. cbn [fold_left].
    cbn [map fst] in Hd. inversion Hd as [|? ? Hk0 Hd']; subst.
    destruct (generation_step_settings self t) as (Hgf & Hm & _ & Hh & Hq').
    rewrite Hq in Hq'. cbn [tl] in Hq'.
    destruct (generation_step_frame self t) as [Hl _]; [lia|].
    destruct Hin as [[= -> -> ->]|Hin].
    + destruct (generation_step_stores self t k p ph rest txt)
        as (e & He & Ht & Hc & Hat); try assumption; [lia|].
      exists e. rewrite drain_frame.
      * split; [assumption|]. split; [assumption|].
        split; [assumption|]. left. now symmetry.
      * rewrite Hm. lia.
      * now rewrite Hq'.
    + destruct (IH (generation_step self t)) with (k := k) (p := p)
        (ph := ph) (txt := txt) as (e & He & Ht & Hc & Hat).
      * rewrite Hq'. lia.
      * now rewrite Hq'.
      * rewrite Hm. lia.
      * now rewrite Hq'.
      * now rewrite Hgf.
      * assumption.
      * exists e. split; [assumption|]. split; [assumption|].
        split; [congruence|now right].
Qed.

Lemma phase_intents_keys (p : FlightPhase) : NoDup (map fst (PHASE_INTENTS p)).
Proof.
  destruct p; repeat constructor; cbn; intuition discriminate.
Qed.

(** X16.  From a context change to a hit.  On a cache with an empty
    generation queue and room for the intents of the phase, let
    [update_context] see a new fingerprint and let the generation loop
    take one turn per queued intent.  Then the queue is empty again, and
    for every intent of [PHASE_INTENTS] for that phase whose prompt
    [generate_func] answers with a text that is not empty, [get] returns
    that text at any time within [ttl_seconds] of the generations. *)
Theorem pregenerated_intents_are_served (md5_hexdigest : str -> str)
  (self : SpeculativeCache) (phase : FlightPhase)
  (airport runway callsign frequency : str) (nows : list Q) (now' : Q) :
  fingerprint md5_hexdigest phase airport runway callsign frequency
  <> _current_context_hash self ->
  _generation_queue self = [] ->
  length nows = length (PHASE_INTENTS phase) ->
  (Z.of_nat (length (PHASE_INTENTS phase)) <= max_cache_size self)%Z ->
  (forall t, In t nows -> (now' - t <= ttl_seconds self)%Q) ->
  let self' :=
    fold_left generation_step nows
      (update_context md5_hexdigest self phase airport runway callsign
         frequency) in
  _generation_queue self' = []
  /\ forall k description txt,
     In (k, description) (PHASE_INTENTS phase) ->
     generate_func self
       (_build_prompt description airport runway callsign frequency)
     = Some txt ->
     txt <> [] ->
     snd (get self' now' k) = Some txt.
Proof.
  intros Hfp Hq Hlen Hmax Hfresh. cbv zeta.
  set (self1 := update_context md5_hexdigest self phase airport runway
                  callsign frequency).
  assert (H1 : _cache self1 = []
    /\ generate_func self1 = generate_func self
    /\ max_cache_size self1 = max_cache_size self
    /\ ttl_seconds self1 = ttl_seconds self
    /\ _generation_queue self1
       = map (fun i => (fst i,
                        _build_prompt (snd i) airport runway callsign
                          frequency, phase)) (PHASE_INTENTS phase)).
  { unfold self1, update_context. apply str_eqb_neq in Hfp. rewrite Hfp.
    cbn. rewrite Hq. repeat split; reflexivity. }
  destruct H1 as (Hc1 & Hg1 & Hm1 & Ht1 & Hq1).
  destruct (drain_settings nows self1) as (_ & _ & Httl & Hhash & Hqueue).
  split.
  - rewrite Hqueue, Hq1, Hlen, <- (length_map
      (fun i : str * str =>
         (fst i, _build_prompt (snd i) airport runway callsign frequency,
          phase))).
    apply skipn_all.
  - intros k d txt Hin Hg Hne.
    destruct (drain_stores nows self1) with (k := k)
      (p := _build_prompt d airport runway callsign frequency)
      (ph := phase) (txt := txt) as (e & He & Htxt & Hctx & Hat).
    + now rewrite Hq1, length_map.
    + rewrite Hq1, map_map. cbn [fst]. apply phase_intents_keys.
    + rewrite Hc1, Hm1, Hlen. cbn [length plus]. exact Hmax.
    + rewrite Hq1. apply in_map_iff. exists (k, d). now split.
    + now rewrite Hg1.
    + assumption.
    + apply get_servable. exists e. split; [exact He|].
      split; [exact Htxt|]. rewrite Hhash, Httl, Ht1.
      split; [exact Hctx|]. now apply Hfresh.
Qed.

Lemma pregenerated_intents_are_served_witness :
  snd (get (fold_left generation_step [1%Q]
              (update_context (fun s => s)
                 (init (fun p => Some (firstn 5 p)) 20 300)
                 TAXI_IN "KSFO" "28L" "N123AB" "121.8"))
         100 "at_gate")
  = Some (list_ascii_of_string "You a").
Proof.
  apply (pregenerated_intents_are_served (fun s => s)
           (init (fun p => Some (firstn 5 p)) 20 300)
           TAXI_IN "KSFO" "28L" "N123AB" "121.8" [1%Q] 100
           ltac:(discriminate) eq_refl eq_refl ltac:(cbn; lia))
    with (description := list_ascii_of_string "Pilot reports at gate/parking").
  - intros t [<-|[]]. apply Qle_bool_iff. reflexivity.
  - now left.
  - reflexivity.
  - discriminate.
Defined.

(** *** Statistics *)

Lemma stats_le_refl (a : CacheStats) : stats_le a a.
Proof. unfold stats_le. lia. Qed.

Lemma stats_le_trans (a b c : CacheStats) :
  stats_le a b -> stats_le b c -> stats_le a c.
Proof. unfold stats_le. lia. Qed.

Lemma get_stats_grow (self : SpeculativeCache) (now : Q) (key : str) :
  stats_le (_stats self) (_stats (fst (get self now key))).
Proof.
  destruct (get_cases self now key)
    as [[Hn ->]|[(e & He & Hage & ->)|(e & He & Hage & [[Hh ->]|[Hh ->]])]];
    unfold stats_le; cbn; lia.
Qed.

Lemma fuzzy_stats_grow (now_of : str -> Q) (msg : str)
  (entries : list (str * list str)) :
  forall self : SpeculativeCache,
  stats_le (_stats self) (_stats (fst (fuzzy_loop self now_of msg entries))).
Proof.
  induction entries as [|[k kws] rest IH]; intros self; cbn [fuzzy_loop].
  - apply stats_le_refl.
  - destruct (existsb (fun kw => str_in kw msg) kws); [|apply IH].
    pose proof (get_stats_grow self (now_of k) k) as H.
    destruct (get self (now_of k) k) as [self1 [[|c r]|]]; cbn [fst] in *;
      try exact H; exact (stats_le_trans _ _ _ H (IH self1)).
Qed.

Lemma generate_stats_grow (self : SpeculativeCache) (now : Q)
  (key prompt : str) (phase : FlightPhase) :
  stats_le (_stats self)
    (_stats (_generate_and_cache self now key prompt phase)).
Proof.
  unfold _generate_and_cache.
  destruct (generate_func self prompt) as [[|c r]|];
    try apply stats_le_refl.
  unfold _trim_cache. destruct (_ <=? _)%Z; unfold stats_le; cbn; lia.
Qed.

Lemma apply_op_stats_grow (md5_hexdigest : str -> str)
  (self : SpeculativeCache) (op : Op) :
  stats_le (_stats self) (_stats (apply_op md5_hexdigest self op)).
Proof.
  destruct op; cbn [apply_op].
  - apply get_stats_grow.
  - apply fuzzy_stats_grow.
  - unfold update_context. destruct (negb _); [|apply stats_le_refl].
    unfold stats_le. cbn. lia.
  - unfold generation_step.
    destruct (_generation_queue self) as [|[[k p] ph] rest];
      [apply stats_le_refl|].
    match goal with
    | |- context [_generate_and_cache ?x _ _ _ _] =>
      exact (generate_stats_grow x now k p ph)
    end.
  - apply generate_stats_grow.
Qed.

Lemma hit_rate_bounds (st : CacheStats) :
  (0 <= hits st)%Z -> (0 <= misses st)%Z ->
  (0 <= hit_rate st)%Q /\ (hit_rate st <= 1)%Q.
Proof.
  intros Hh Hm. unfold hit_rate. cbv zeta.
  destruct (0 <? hits st + misses st)%Z eqn:E.
  - apply Z.ltb_lt in E.
    assert (Ht : (0 < inject_Z (hits st + misses st))%Q).
    { rewrite <- (Zlt_Qlt 0). exact E. }
    split.
    + apply Qle_shift_div_l; [exact Ht|]. rewrite Qmult_0_l.
      rewrite <- (Zle_Qle 0). exact Hh.
    + apply Qle_shift_div_r; [exact Ht|]. rewrite Qmult_1_l.
      rewrite <- Zle_Qle. lia.
  - split; [apply Qle_refl|]. discriminate.
Qed.

(** X26.  The statistics only grow: no call of [get], [fuzzy_match],
    [update_context], [_generate_and_cache] or turn of the generation
    loop lowers a counter.  On a cache used from its construction all
    counters are non-negative and [hit_rate] lies between 0 and 1. *)
Theorem stats_only_grow (md5_hexdigest : str -> str)
  (generate : str -> option str) (max : Z) (ttl : Q) (ops : list Op) :
  (forall self op,
     stats_le (get_stats self)
       (get_stats (apply_op md5_hexdigest self op)))
  /\ let st :=
       get_stats (fold_left (apply_op md5_hexdigest) ops
                    (init generate max ttl)) in
     (0 <= hits st)%Z /\ (0 <= misses st)%Z /\ (0 <= generations st)%Z
     /\ (0 <= invalidations st)%Z
     /\ (0 <= hit_rate st)%Q /\ (hit_rate st <= 1)%Q.
Proof.
  split; [intros self op; apply apply_op_stats_grow|]. cbv zeta.
  assert (G : forall self0,
    stats_le (_stats self0)
      (_stats (fold_left (apply_op md5_hexdigest) ops self0))).
  { induction ops as [|op ops IH]; intros self0; cbn [fold_left].
    - apply stats_le_refl.
    - exact (stats_le_trans _ _ _
               (apply_op_stats_grow md5_hexdigest self0 op) (IH _)). }
  specialize (G (init generate max ttl)). unfold get_stats.
  destruct G as (H1 & H2 & H3 & H4). cbn in H1, H2, H3, H4.
  repeat (split; [assumption|]). now apply hit_rate_bounds.
Qed.

End CacheMore.

(** ** More of streaming_llm.py *)

Section StreamingMore.
Import Streaming StreamingSpec.

Lemma lstrip_head (s : str) (c : ascii) (r : str) :
  lstrip s = c :: r -> py_isspace c = false.
Proof.
  induction s as [|x s IH]; [discriminate|]. cbn [lstrip].
  destruct (py_isspace x) eqn:E; [assumption|].
  intros [= -> ->]. exact E.
Qed.

Lemma lstrip_fixed (s : str) :
  match s with [] => True | c :: _ => py_isspace c = false end ->
  lstrip s = s.
Proof.
  destruct s as [|c s]; [reflexivity|]. cbn [lstrip]. now intros ->.
Qed.

Lemma strip_strip (s : str) : strip (strip s) = strip s.
Proof.
  unfold strip, rstrip.
  set (t := lstrip s). set (u := lstrip (rev t)).
  assert (Hu : lstrip u = u).
  { apply lstrip_fixed. destruct u as [|c r] eqn:E; [exact I|].
    now apply (lstrip_head (rev t) c r). }
  assert (Hr : lstrip (rev u) = rev u).
  { apply lstrip_fixed. destruct (rev u) as [|c r] eqn:E; [exact I|].
    destruct (lstrip_decompose (rev t)) as (pre & Ep & _). fold u in Ep.
    assert (Et : t = (c :: r) ++ rev pre).
    { rewrite <- E, <- rev_app_distr, <- Ep. now rewrite rev_involutive. }
    apply (lstrip_head s c (r ++ rev pre)). exact Et. }
  rewrite Hr, rev_involutive, Hu. reflexivity.
Qed.

Lemma visible_app (a b : str) : visible (a ++ b) = visible a ++ visible b.
Proof. apply filter_app. Qed.

Lemma visible_spaces (s : str) :
  forallb py_isspace s = true -> visible s = [].
Proof.
  induction s as [|c s IH]; [reflexivity|]. cbn [forallb visible filter].
  intros H. apply andb_true_iff in H as [-> H]. cbn [negb]. now apply IH.
Qed.

Lemma visible_strip (s : str) : visible (strip s) = visible s.
Proof.
  destruct (strip_decompose s) as (pre & post & E & Hpre & Hpost).
  rewrite E at 2. rewrite !visible_app.
  rewrite (visible_spaces _ Hpre), (visible_spaces _ Hpost).
  now rewrite app_nil_r.
Qed.

Lemma visible_join (parts : list str) :
  visible (join_space (filter nonempty parts)) = visible (concat parts).
Proof.
  induction parts as [|p parts IH]; [reflexivity|].
  cbn [filter concat]. rewrite visible_app, <- IH.
  destruct p as [|c p]; [reflexivity|]. cbn [nonempty join_space].
  destruct (filter nonempty parts) as [|q qs].
  - cbn [join_space]. now rewrite app_nil_r.
  - rewrite !visible_app. reflexivity.
Qed.

Lemma consume_final_last (self : StreamingLLM) (start : Q)
  (lines : list Arrival) :
  forall buffer,
  Forall (fun c => is_final c = false)
    (removelast (consume self start buffer lines)).
Proof.
  induction lines as [|a rest IH]; intros buffer; cbn [consume];
    [constructor|].
  destruct (stop_set a); [constructor|].
  destruct (line a) as [| |token done]; try apply IH.
  destruct (nonempty token).
  - destruct (_should_emit_chunk self (buffer ++ token) done) eqn:Em.
    + destruct done.
      * cbn. constructor.
      * cbn [app]. specialize (IH []).
        destruct (consume self start [] rest) as [|c l] eqn:Ec;
          [constructor|].
        cbn [removelast] in *. constructor; [reflexivity|exact IH].
    + destruct done; [|apply IH].
      unfold _should_emit_chunk in Em. discriminate Em.
  - destruct done; [|apply IH]. cbn [app].
    destruct (nonempty (strip buffer)); constructor.
Qed.

Lemma consume_stripped (self : StreamingLLM) (start : Q)
  (lines : list Arrival) :
  forall buffer c, In c (consume self start buffer lines) ->
  strip (text c) = text c.
Proof.
  induction lines as [|a rest IH]; intros buffer c; cbn [consume];
    [intros []|].
  destruct (stop_set a); [intros []|].
  destruct (line a) as [| |token done]; try apply IH.
  assert (Hfin : forall b,
    In c (if nonempty (strip b)
          then [{| text := strip b; is_final := true;
                   latency_ms := ((now a - start) * 1000)%Q |}]
          else []) -> strip (text c) = text c).
  { intros b. destruct (nonempty (strip b)); [|intros []].
    intros [<-|[]]. apply strip_strip. }
  destruct (nonempty token).
  - destruct (_should_emit_chunk self (buffer ++ token) done).
    + destruct done; cbn [app].
      * intros [<-|H]; [apply strip_strip|now apply (Hfin [])].
      * intros [<-|H]; [apply strip_strip|now apply (IH [])].
    + destruct done; cbn [app]; [apply Hfin|apply IH].
  - destruct done; cbn [app]; [apply Hfin|apply IH].
Qed.

Lemma until_final_all (l : list StreamChunk) :
  Forall (fun c => is_final c = false) (removelast l) -> until_final l = l.
Proof.
  induction l as [|c l IH]; [reflexivity|]. cbn [until_final].
  destruct l as [|d l].
  - now destruct (is_final c).
  - intros H. inversion H as [|? ? Hc Hl]; subst. rewrite Hc.
    f_equal. now apply IH.
Qed.

Lemma generate_stream_final_last (self : StreamingLLM) (start : Q)
  (backend : Backend) :
  Forall (fun c => is_final c = false)
    (removelast (generate_stream self start backend)).
Proof.
  destruct backend; cbn; try constructor. apply consume_final_last.
Qed.

(** X17.  In what [generate_stream] yields, for every outcome of the
    request and every sequence of lines, a chunk that is followed by
    another one is never final, so a final chunk is the last one and there
    is at most one; a consumer that leaves at the first final chunk misses
    nothing.  The text of every chunk is stripped: stripping it again
    changes nothing. *)
Theorem final_chunk_is_last (self : StreamingLLM) (start : Q)
  (backend : Backend) :
  let chunks := generate_stream self start backend in
  (forall pre c post, chunks = pre ++ c :: post -> post <> [] ->
     is_final c = false)
  /\ until_final chunks = chunks
  /\ (forall c, In c chunks -> strip (text c) = text c).
Proof.
  cbv zeta. pose proof (generate_stream_final_last self start backend) as H.
  split; [|split].
  - intros pre c post E Hpost. rewrite E in H.
    rewrite removelast_app in H by discriminate.
    apply Forall_app in H as [_ H]. cbn [removelast] in H.
    destruct post as [|d post]; [contradiction|].
    now inversion H.
  - now apply until_final_all.
  - destruct backend; cbn [generate_stream].
    1-3: intros c [<-|[]]; reflexivity.
    intros c. apply consume_stripped.
Qed.

Lemma consume_keeps_visible (self : StreamingLLM) (start : Q)
  (lines : list Arrival) :
  forall buffer, completes lines = true ->
  visible (concat (map text (consume self start buffer lines)))
  = visible (buffer ++ received lines).
Proof.
  induction lines as [|a rest IH]; intros buffer; cbn [completes consume received];
    [discriminate|].
  destruct (stop_set a); [discriminate|].
  destruct (line a) as [| |token done]; try apply IH.
  assert (Hfin : forall b,
    visible (concat (map text
      (if nonempty (strip b)
       then [{| text := strip b; is_final := true;
                latency_ms := ((now a - start) * 1000)%Q |}]
       else []))) = visible b).
  { intros b. destruct (strip b) as [|x r] eqn:E; cbn [nonempty map concat text].
    - rewrite <- (visible_strip b), E. reflexivity.
    - rewrite app_nil_r, <- E. apply visible_strip. }
  destruct (nonempty token) eqn:Ht.
  - destruct (_should_emit_chunk self (buffer ++ token) done) eqn:Em.
    + destruct done; intros Hc; cbn [app map concat text _extract_chunk].
      * cbn. rewrite app_nil_r. apply visible_strip.
      * rewrite visible_app, visible_strip, (IH [] Hc).
        cbn [app]. now rewrite <- visible_app, app_assoc.
    + destruct done; intros Hc; cbn [app].
      * unfold _should_emit_chunk in Em. discriminate Em.
      * rewrite (IH _ Hc). now rewrite app_assoc.
  - destruct token; [|discriminate Ht].
    destruct done; intros Hc; cbn [app].
    + rewrite Hfin, app_nil_r. reflexivity.
    + apply (IH _ Hc).
Qed.

(** X18.  Nothing is lost and nothing is made up.  When the completion
    flag arrives before the stream is stopped or ends, the texts that
    [process_request] passes to [speak_func] are not empty, and the text
    it computes for [on_complete], like the chunks [generate_stream]
    yields, has exactly the characters of the received tokens that are
    not whitespace, in their order. *)
Theorem streamed_text_is_the_tokens (llm : StreamingLLM) (start : Q)
  (lines : list Arrival) :
  completes lines = true ->
  let chunks := generate_stream llm start (Streamed lines) in
  let done := process_request llm true start (Streamed lines) in
  visible (concat (map text chunks)) = visible (received lines)
  /\ started done = true
  /\ Forall (fun t => t <> []) (spoken done)
  /\ exists full, complete_text done = Some full
       /\ visible full = visible (received lines).
Proof.
  intros Hc. cbv zeta.
  pose proof (consume_keeps_visible llm start lines [] Hc) as V.
  cbn [app] in V. unfold process_request. cbn [negb generate_stream].
  rewrite (until_final_all _ (consume_final_last llm start lines [])).
  cbn [started spoken complete_text].
  split; [exact V|]. split; [reflexivity|]. split.
  - apply Forall_forall. intros t Ht. apply filter_In in Ht as [_ Ht].
    now destruct t.
  - eexists. split; [reflexivity|]. now rewrite visible_join.
Qed.

Lemma streamed_text_is_the_tokens_witness :
  visible (concat (map text
    (generate_stream sample_llm 0 (Streamed (token_lines 1 sample_tokens)))))
  = visible (received (token_lines 1 sample_tokens)).
Proof.
  apply (streamed_text_is_the_tokens sample_llm 0
           (token_lines 1 sample_tokens)).
  reflexivity.
Defined.

Lemma strip_length (s : str) : length (strip s) <= length s.
Proof.
  destruct (strip_decompose s) as (pre & post & E & _).
  rewrite E at 2. rewrite !length_app. lia.
Qed.

Lemma consume_bounded (self : StreamingLLM) (start : Q) (T : nat)
  (lines : list Arrival) :
  (forall a token done, In a lines -> line a = Data token done ->
     length token <= T) ->
  forall buffer,
  (Z.of_nat (length buffer) <= Z.max 0 (max_chunk_chars self - 1))%Z ->
  forall c, In c (consume self start buffer lines) ->
  (Z.of_nat (length (text c))
   <= Z.max 0 (max_chunk_chars self - 1) + Z.of_nat T)%Z.
Proof.
  induction lines as [|a rest IH]; intros Htok buffer Hb c;
    cbn [consume]; [intros []|].
  assert (Hrest : forall a token done, In a rest ->
            line a = Data token done -> length token <= T).
  { intros a' token done Hin. apply Htok. now right. }
  destruct (stop_set a); [intros []|].
  destruct (line a) as [| |token done] eqn:La; try now apply IH.
  assert (Ht : length token <= T)
    by (apply (Htok a token done); [now left|exact La]).
  assert (Hfin : forall b,
    (Z.of_nat (length b) <= Z.max 0 (max_chunk_chars self - 1))%Z ->
    In c (if nonempty (strip b)
          then [{| text := strip b; is_final := true;
                   latency_ms := ((now a - start) * 1000)%Q |}]
          else []) ->
    (Z.of_nat (length (text c))
     <= Z.max 0 (max_chunk_chars self - 1) + Z.of_nat T)%Z).
  { intros b Hlb. destruct (nonempty (strip b)); [|intros []].
    intros [<-|[]]. cbn [text]. pose proof (strip_length b). lia. }
  assert (Hnew : (Z.of_nat (length (strip (buffer ++ token)))
                  <= Z.max 0 (max_chunk_chars self - 1) + Z.of_nat T)%Z).
  { pose proof (strip_length (buffer ++ token)) as Hs.
    rewrite length_app in Hs. lia. }
  assert (Hnil : (Z.of_nat (length (@nil ascii))
                  <= Z.max 0 (max_chunk_chars self - 1))%Z)
    by (cbn [length]; lia).
  destruct (nonempty token).
  - destruct (_should_emit_chunk self (buffer ++ token) done) eqn:Em.
    + destruct done; cbn [app].
      * intros [<-|H]; [exact Hnew|exact (Hfin [] Hnil H)].
      * intros [<-|H]; [exact Hnew|exact (IH Hrest [] Hnil c H)].
    + destruct done; [unfold _should_emit_chunk in Em; discriminate Em|].
      cbn [app]. apply (IH Hrest).
      unfold _should_emit_chunk in Em.
      destruct (max_chunk_chars self <=? Z.of_nat (length (buffer ++ token)))%Z
        eqn:E; [discriminate Em|].
      apply Z.leb_gt in E. lia.
  - destruct done; cbn [app]; [exact (Hfin buffer Hb)|].
    exact (IH Hrest buffer Hb c).
Qed.

(** X27.  No chunk is much longer than [max_chunk_chars]: when no token
    of the stream has more than [T] characters, the text of every chunk
    [generate_stream] yields has at most [max_chunk_chars - 1 + T]
    characters, and at most [T] when [max_chunk_chars] is not positive. *)
Theorem chunk_length_bounded (self : StreamingLLM) (start : Q)
  (backend : Backend) (T : nat) :
  (forall lines a token done, backend = Streamed lines -> In a lines ->
     line a = Data token done -> length token <= T) ->
  forall c, In c (generate_stream self start backend) ->
  (Z.of_nat (length (text c))
   <= Z.max 0 (max_chunk_chars self - 1) + Z.of_nat T)%Z.
Proof.
  intros Htok c. destruct backend as [clock| | |lines]; cbn [generate_stream].
  1-3: intros [<-|[]]; cbn [text length]; lia.
  apply (consume_bounded self start T lines).
  - intros a token done. now apply (Htok lines).
  - cbn [length]. lia.
Qed.

Lemma chunk_length_bounded_witness :
  (Z.of_nat
     (length
        (text
           (hd {| text := []; is_final := true; latency_ms := 0 |}
              (generate_stream sample_llm 0
                 (Streamed (token_lines 1 sample_tokens))))))
   <= 99 + 7)%Z.
Proof.
  apply (chunk_length_bounded sample_llm 0
           (Streamed (token_lines 1 sample_tokens)) 7).
  - intros lines a token done [= <-] Hin Hl.
    cbn in Hin.
    repeat (destruct Hin as [<-|Hin];
            [cbn in Hl; injection Hl as <- _; cbn; lia|]).
    destruct Hin.
  - left. reflexivity.
Defined.

End StreamingMore.

(** ** More of validation.py *)

Section ValidationMore.
Import Re Validation ValidationSpec.

(** *** [re.sub] on a character class and on [\s+] *)

Lemma match_here_chr (f : ascii -> bool) (prev : option ascii) (c : ascii)
  (s : str) :
  match_here (plain (Chr f)) prev (c :: s)
  = if f c then Some ([], 1) else None.
Proof.
  unfold match_here, plain. cbn [before group after exec].
  destruct (f c); [|reflexivity].
  rewrite Nat.sub_diag. cbn [firstn length].
  replace (S (length s) - length s) with 1 by lia. reflexivity.
Qed.

Lemma sub_chr (f : ascii -> bool) (s : str) :
  forall prev,
  sub_from (plain (Chr f)) [] 0 prev s = filter (fun c => negb (f c)) s.
Proof.
  induction s as [|c s IH]; intros prev; [reflexivity|].
  cbn [sub_from filter]. rewrite match_here_chr.
  destruct (f c); cbn [negb app]; now rewrite IH.
Qed.

Lemma star_greedy_run {A : Type} (p : ascii -> bool) (g : str -> A)
  (k : option ascii -> str -> option A) :
  (forall pr s, k pr s = Some (g s)) ->
  forall s prev,
  exists rest, star_greedy p prev s k = Some (g rest)
    /\ rest = (fix drop (s : str) : str :=
                 match s with
                 | c :: s' => if p c then drop s' else s
                 | [] => []
                 end) s.
Proof.
  intros Hk. induction s as [|c s IH]; intros prev; cbn [star_greedy].
  - exists []. now rewrite Hk.
  - destruct (p c).
    + destruct (IH (Some c)) as (rest & -> & E). exists rest. now split.
    + exists (c :: s). now rewrite Hk.
Qed.

Lemma lstrip_length (s : str) : length (lstrip s) <= length s.
Proof.
  induction s as [|c s IH]; [reflexivity|]. cbn [lstrip].
  destruct (py_isspace c); cbn [length]; lia.
Qed.

Lemma match_here_spaces (prev : option ascii) (c : ascii) (s : str) :
  match_here (plain (plus sp)) prev (c :: s)
  = if py_isspace c
    then Some ([], S (length s - length (lstrip s)))
    else None.
Proof.
  unfold match_here, plain, plus, sp. cbn [before group after exec].
  destruct (py_isspace c); [|reflexivity].
  destruct (star_greedy_run py_isspace
              (fun s2 => (firstn (length s2 - length s2) s2,
                          length (c :: s) - length s2))
              (fun p1 s1 => Some (firstn (length s1 - length s1) s1,
                                  length (c :: s) - length s1))
              (fun _ _ => eq_refl) s (Some c)) as (rest & -> & E).
  change (rest = lstrip s) in E. subst rest.
  rewrite Nat.sub_diag. cbn [firstn length].
  pose proof (lstrip_length s).
  replace (S (length s) - length (lstrip s))
    with (S (length s - length (lstrip s))) by lia.
  reflexivity.
Qed.

Lemma sub_spaces_squeeze (s : str) :
  forall prev,
  sub_from (plain (plus sp)) " " 0 prev s = squeeze_from false s
  /\ sub_from (plain (plus sp)) " " (length s - length (lstrip s)) prev s
     = squeeze_from true s.
Proof.
  induction s as [|c s IH]; intros prev; [now split|].
  assert (H0 : sub_from (plain (plus sp)) " " 0 prev (c :: s)
               = squeeze_from false (c :: s)).
  { cbn [sub_from squeeze_from]. rewrite match_here_spaces.
    destruct (py_isspace c).
    - destruct (IH (Some c)) as [_ ->]. reflexivity.
    - destruct (IH (Some c)) as [-> _]. reflexivity. }
  split; [exact H0|].
  cbn [lstrip squeeze_from]. destruct (py_isspace c) eqn:Hc.
  - pose proof (lstrip_length s).
    replace (length (c :: s) - length (lstrip s))
      with (S (length s - length (lstrip s))) by (cbn [length]; lia).
    cbn [sub_from]. now destruct (IH (Some c)) as [_ ->].
  - rewrite Nat.sub_diag, H0. cbn [squeeze_from]. now rewrite Hc.
Qed.

Lemma sub_spaces (s : str) : sub (plus sp) " " s = squeeze_from false s.
Proof. apply sub_spaces_squeeze. Qed.

(** *** Texts with single spaces *)

Lemma squeeze_single_spaced (s : str) :
  forall b, single_spaced b (squeeze_from b s) = true.
Proof.
  induction s as [|c s IH]; intros b; [reflexivity|]. cbn [squeeze_from].
  destruct (py_isspace c) eqn:Hc.
  - destruct b; [apply IH|]. cbn. apply IH.
  - cbn [single_spaced]. rewrite Hc. apply IH.
Qed.

Lemma single_spaced_weaken (s : str) :
  single_spaced true s = true -> single_spaced false s = true.
Proof.
  destruct s as [|c s]; [reflexivity|]. cbn [single_spaced].
  destruct (py_isspace c); [discriminate|auto].
Qed.

Lemma single_spaced_prefix (u v : str) :
  forall b, single_spaced b (u ++ v) = true -> single_spaced b u = true.
Proof.
  induction u as [|c u IH]; intros b; [reflexivity|].
  cbn [app single_spaced]. destruct (py_isspace c); [|apply IH].
  intros H. apply andb_true_iff in H as [H1 H2]. rewrite H1.
  now apply IH.
Qed.

Lemma single_spaced_suffix (u v : str) :
  forall b, single_spaced b (u ++ v) = true -> single_spaced false v = true.
Proof.
  induction u as [|c u IH]; intros b; cbn [app].
  - destruct b; [apply single_spaced_weaken|auto].
  - cbn [single_spaced]. destruct (py_isspace c); [|apply IH].
    intros H. apply andb_true_iff in H as [_ H]. now apply (IH true).
Qed.

Lemma single_spaced_strip (s : str) :
  single_spaced false s = true -> single_spaced false (strip s) = true.
Proof.
  destruct (strip_decompose s) as (pre & post & E & _).
  intros H. rewrite E in H. apply single_spaced_suffix in H.
  now apply single_spaced_prefix in H.
Qed.

Lemma single_spaced_fixed (s : str) :
  forall b, single_spaced b s = true -> squeeze_from b s = s.
Proof.
  induction s as [|c s IH]; intros b; [reflexivity|].
  cbn [single_spaced squeeze_from]. destruct (py_isspace c).
  - intros H. apply andb_true_iff in H as [H H2].
    apply andb_true_iff in H as [H0 H1].
    destruct b; [discriminate|].
    apply Ascii.eqb_eq in H1. subst c. f_equal. now apply IH.
  - intros H. f_equal. now apply IH.
Qed.

Lemma single_spaced_space (s : str) (c : ascii) :
  forall b, single_spaced b s = true -> In c s -> py_isspace c = true ->
  c = " "%char.
Proof.
  induction s as [|x s IH]; intros b H Hin Hc; [destruct Hin|].
  destruct Hin as [<-|Hin]; cbn [single_spaced] in H.
  - rewrite Hc in H. apply andb_true_iff in H as [H _].
    apply andb_true_iff in H as [_ H]. now apply Ascii.eqb_eq in H.
  - destruct (py_isspace x).
    + apply andb_true_iff in H as [_ H]. exact (IH true H Hin Hc).
    + exact (IH false H Hin Hc).
Qed.

Lemma single_spaced_no_double (s : str) :
  forall b, single_spaced b s = true -> str_in "  " s = false.
Proof.
  induction s as [|x s IH]; intros b H; [reflexivity|].
  cbn [single_spaced] in H.
  change (str_in "  " (x :: s))
    with (startswith (x :: s) "  " || str_in "  " s).
  assert (Hs : str_in "  " s = false).
  { destruct (py_isspace x).
    - apply andb_true_iff in H as [_ H]. exact (IH true H).
    - exact (IH false H). }
  rewrite Hs, orb_false_r. clear Hs IH.
  destruct s as [|y s]; cbn [list_ascii_of_string startswith];
    [apply andb_false_r|].
  destruct (ascii_eqb " " x) eqn:Ex; [|reflexivity].
  apply Ascii.eqb_eq in Ex. subst x.
  destruct (ascii_eqb " " y) eqn:Ey; [|reflexivity].
  apply Ascii.eqb_eq in Ey. subst y.
  change (py_isspace " ") with true in H. cbv iota in H.
  apply andb_true_iff in H as [_ H]. cbn [single_spaced] in H.
  change (py_isspace " ") with true in H. cbv iota in H.
  cbn [negb andb] in H. discriminate H.
Qed.

Lemma In_squeeze (s : str) (c : ascii) :
  forall b, In c (squeeze_from b s) -> c = " "%char \/ In c s.
Proof.
  induction s as [|x s IH]; intros b; [intros []|]. cbn [squeeze_from].
  destruct (py_isspace x).
  - destruct b.
    + intros H. destruct (IH _ H); [now left|right; now right].
    + intros [<-|H]; [now left|].
      destruct (IH _ H); [now left|right; now right].
  - intros [<-|H]; [right; now left|].
    destruct (IH _ H); [now left|right; now right].
Qed.

Lemma In_strip (s : str) (c : ascii) : In c (strip s) -> In c s.
Proof.
  destruct (strip_decompose s) as (pre & post & E & _).
  intros H. rewrite E. apply in_or_app. right. apply in_or_app. now left.
Qed.

Lemma visible_squeeze (s : str) :
  forall b, visible (squeeze_from b s) = visible s.
Proof.
  induction s as [|c s IH]; intros b; [reflexivity|].
  cbn [squeeze_from]. unfold visible in *. cbn [filter].
  destruct (py_isspace c) eqn:Hc; cbn [negb].
  - destruct b; [apply IH|]. cbn [filter].
    change (py_isspace " ") with true. cbn [negb]. apply IH.
  - cbn [filter]. rewrite Hc. cbn [negb]. f_equal. apply IH.
Qed.

(** The text [sanitize_for_tts] returns, without the regular expressions. *)
Lemma sanitize_for_tts_plain (text : str) :
  sanitize_for_tts text
  = strip (squeeze_from false
             (filter (fun c => negb (tts_dropped c)) text)).
Proof.
  unfold sanitize_for_tts. cbv zeta. rewrite sub_spaces.
  unfold sub, remove_char. rewrite sub_chr. do 2 f_equal.
  induction text as [|c text IH]; [reflexivity|].
  cbn [filter]. unfold tts_dropped at 1.
  destruct (tts_unsafe c); cbn [negb orb]; [exact IH|].
  cbn [filter].
  destruct (ascii_eqb c (ascii_of_nat 34)); cbn [negb orb]; [exact IH|].
  cbn [filter].
  destruct (ascii_eqb c (ascii_of_nat 39)); cbn [negb]; [exact IH|].
  now rewrite IH.
Qed.

(** X20.  The text [sanitize_for_tts] returns holds none of the characters
    [< > { } [ ] | \ ^ ~ `] and no quote; it neither starts nor ends with
    whitespace; its only whitespace is the space character and no two
    spaces are adjacent; apart from whitespace it has exactly the
    characters of the input that are not removed, in their order; and
    sanitizing it again changes nothing. *)
Theorem sanitize_for_tts_clean (text : str) :
  let out := sanitize_for_tts text in
  (forall c, In c out -> tts_dropped c = false)
  /\ strip out = out
  /\ (forall c, In c out -> py_isspace c = true -> c = " "%char)
  /\ str_in "  " out = false
  /\ visible out = filter (fun c => negb (tts_dropped c)) (visible text)
  /\ sanitize_for_tts out = out.
Proof.
  cbv zeta. rewrite sanitize_for_tts_plain.
  set (kept := filter (fun c => negb (tts_dropped c)) text).
  set (out := strip (squeeze_from false kept)).
  assert (Hk : forall c, In c out -> tts_dropped c = false).
  { intros c H. apply In_strip, In_squeeze in H. destruct H as [->|H].
    - reflexivity.
    - apply filter_In in H as [_ H]. now apply negb_true_iff in H. }
  assert (Hs : single_spaced false out = true).
  { apply single_spaced_strip, squeeze_single_spaced. }
  split; [exact Hk|]. split; [apply strip_strip|].
  split; [intros c; apply (single_spaced_space out c false Hs)|].
  split; [exact (single_spaced_no_double out false Hs)|].
  split.
  - unfold out. rewrite visible_strip, visible_squeeze. unfold kept, visible.
    clear. induction text as [|c text IH]; [reflexivity|]. cbn [filter].
    destruct (tts_dropped c) eqn:Hd, (py_isspace c) eqn:Hc; cbn [negb filter];
      rewrite ?Hd, ?Hc; cbn [negb]; now rewrite IH.
  - rewrite sanitize_for_tts_plain.
    assert (F : filter (fun c => negb (tts_dropped c)) out = out).
    { apply filter_all. apply forallb_forall. intros c H.
      now rewrite (Hk c H). }
    rewrite F, (single_spaced_fixed out false Hs). apply strip_strip.
Qed.

(** *** What [validate_atc_response] reports and returns *)

Lemma flat_map_prefix (f : str -> list str) (q : str) (l : list str)
  (i : str) :
  (forall x j, In j (f x) -> startswith j q = false) ->
  In i (flat_map f l) -> startswith i q = false.
Proof.
  intros H Hi. apply in_flat_map in Hi. destruct Hi as (x & _ & Hx).
  exact (H x i Hx).
Qed.

(** X19.  The frequency check of [validate_atc_response] never fires: no
    text makes it record an issue, because every number the pattern
    captures lies between 0 and 7777.  Hence no result has an issue that
    starts with "Invalid frequency". *)
Theorem frequency_never_reported (response : str) :
  frequency_issues response = []
  /\ forall i, In i (issues (validate_atc_response response)) ->
     startswith i "Invalid frequency" = false.
Proof.
  split; [apply frequency_issue_never_recorded|].
  intros i. destruct (empty_or_not response) as [->|Hne].
  - rewrite issues_empty. intros [<-|[]]. reflexivity.
  - rewrite (issues_nonempty response Hne). unfold content_issues.
    rewrite frequency_issue_never_recorded, app_nil_r.
    intros H. repeat (apply in_app_or in H; destruct H as [H|H]).
    + apply scan_suspicious_from_table in H. apply in_map_iff in H.
      destruct H as (pd & <- & _). reflexivity.
    + revert H. apply flat_map_prefix. intros x j.
      destruct (py_int x) as [n|]; [|intros []].
      destruct (altitude_max <? n)%N; [|intros []].
      intros [<-|[]]. reflexivity.
    + revert H. apply flat_map_prefix. intros x j.
      destruct (py_int x) as [n|]; [|intros []]. cbv zeta.
      destruct (altitude_max <? n * 100)%N; [|intros []].
      intros [<-|[]]. reflexivity.
    + revert H. apply flat_map_prefix. intros x j.
      destruct (existsb _ _); [intros [<-|[]]; reflexivity|].
      destruct (py_int x) as [n|]; [|intros []].
      destruct (squawk_max <? n)%N; [|intros []].
      intros [<-|[]]. reflexivity.
    + destruct (length (cleaned_text response) <? 5); [|destruct H].
      destruct H as [<-|[]]. reflexivity.
Qed.

(** X21.  The [cleaned_response] of every result has the space character
    as its only whitespace and no two spaces in a row; in a result that
    is valid it is the tidied text itself and has at least five
    characters; and [original_response] is the stripped input. *)
Theorem cleaned_response_shape (response : str) :
  let res := validate_atc_response response in
  (forall c, In c (cleaned_response res) -> py_isspace c = true ->
     c = " "%char)
  /\ str_in "  " (cleaned_response res) = false
  /\ (valid res = true ->
      cleaned_response res = cleaned_text response
      /\ 5 <= length (cleaned_response res))
  /\ original_response res = strip response.
Proof.
  cbv zeta. destruct (empty_or_not response) as [->|Hne].
  - split; [intros c []|]. split; [reflexivity|].
    split; [|reflexivity]. rewrite valid_empty. discriminate.
  - assert (Hs : single_spaced false
                   (cleaned_response (validate_atc_response response))
                 = true).
    { rewrite (cleaned_response_of_nonempty response Hne).
      destruct (cleaned_text response) as [|c r] eqn:E; [reflexivity|].
      rewrite <- E. unfold cleaned_text, tidy. rewrite sub_spaces.
      apply squeeze_single_spaced. }
    split; [intros c; apply (single_spaced_space _ c false Hs)|].
    split; [exact (single_spaced_no_double _ false Hs)|].
    split.
    + intros Hv.
      assert (Hlen : (length (cleaned_text response) <? 5) = false).
      { destruct (length (cleaned_text response) <? 5) eqn:E; [|reflexivity].
        pose proof (proj1 (valid_iff_no_critical response) Hv
                      (list_ascii_of_string "Response too short")) as Hc.
        rewrite (issues_nonempty response Hne), E in Hc.
        assert (T : is_critical (list_ascii_of_string "Response too short")
                    = false).
        { apply Hc. apply in_or_app. right. now left. }
        vm_compute in T. discriminate T. }
      apply Nat.ltb_ge in Hlen.
      rewrite (cleaned_response_of_nonempty response Hne).
      destruct (cleaned_text response) as [|c r] eqn:E.
      * cbn [length] in Hlen. lia.
      * split; [reflexivity|exact Hlen].
    + rewrite (validate_nonempty response Hne). reflexivity.
Qed.

Lemma cleaned_response_shape_witness :
  5 <= length (cleaned_response
                 (validate_atc_response "  Taxi   to runway 28,  hold short ")).
Proof.
  apply (cleaned_response_shape "  Taxi   to runway 28,  hold short ").
  vm_compute. reflexivity.
Defined.

(** *** [check_readback_required] *)

Lemma search_group_denotes (p : pattern) (s : str) :
  forall prev g,
  search_group_from p prev s = Some g -> denotes (group p) g.
Proof.
  induction s as [|c s IH]; intros prev g; cbn [search_group_from].
  - destruct (match_here p prev []) as [[g' n]|] eqn:E; [|discriminate].
    intros [= <-]. exact (match_here_denotes p prev [] g' n E).
  - destruct (match_here p prev (c :: s)) as [[g' n]|] eqn:E; [|apply IH].
    intros [= <-]. exact (match_here_denotes p prev (c :: s) g' n E).
Qed.

Lemma runway_letter_ci (c : ascii) :
  ci "L" c || ci "R" c || ci "C" c = true -> runway_letter c = true.
Proof.
  destruct c as [[] [] [] [] [] [] [] []]; vm_compute; intros H;
    first [reflexivity | discriminate H].
Qed.

Lemma digits_then_letter_app (w v : str) :
  forallb re_digit w = true ->
  (v = [] \/ exists l, v = [l] /\ runway_letter l = true) ->
  digits_then_letter (w ++ v) = true.
Proof.
  intros Hw Hv. induction w as [|c w IH].
  - destruct Hv as [->|(l & -> & Hl)]; [reflexivity|].
    cbn [app digits_then_letter]. rewrite Hl. apply orb_true_r.
  - cbn [forallb] in Hw. apply andb_true_iff in Hw as [Hc Hw].
    specialize (IH Hw). cbn [app digits_then_letter].
    destruct (w ++ v) as [|x r]; [now rewrite Hc|].
    now rewrite Hc.
Qed.

Lemma runway_id_shape (g : str) :
  denotes runway_id g -> is_runway_id g = true.
Proof.
  unfold runway_id, plus, opt. cbn [denotes].
  intros (u & v & -> & (u1 & w & -> & (c & -> & Hc) & Hw) & Hv).
  cbn [app is_runway_id]. rewrite Hc. cbn [andb].
  apply (digits_then_letter_app (c :: w) v).
  - cbn [forallb]. now rewrite Hc.
  - destruct Hv as [(l & -> & Hl)| ->]; [right|now left].
    exists l. split; [reflexivity|]. now apply runway_letter_ci.
Qed.

Lemma frequency_shape (g : str) :
  denotes (group contact_pattern) g -> is_frequency g = true.
Proof.
  unfold contact_pattern. cbn [group seq rep upto denotes d].
  intros (u & v & -> & Hu & Hv).
  destruct Hu as (u1 & r1 & -> & (d1 & -> & H1) & Hu).
  destruct Hu as (u2 & r2 & -> & (d2 & -> & H2) & Hu).
  destruct Hu as (u3 & r3 & -> & (d3 & -> & H3) & ->).
  destruct Hv as (w & v' & -> & (p & -> & Hp) & Hv).
  destruct Hv as (w4 & v4 & -> & (d4 & -> & H4) & Hv).
  cbn [app is_frequency]. rewrite H1, H2, H3, Hp. cbn [andb].
  destruct Hv as [(w5 & v5 & -> & (d5 & -> & H5) & Hv)| ->];
    [|cbn; now rewrite H4].
  destruct Hv as [(w6 & v6 & -> & (d6 & -> & H6) & ->)| ->];
    cbn; now rewrite H4, H5, ?H6.
Qed.

Lemma four_digits_shape (g : str) :
  denotes (group squawk_pattern) g -> is_four_digits g = true.
Proof.
  unfold squawk_pattern. cbn [group rep denotes d].
  intros (u1 & r1 & -> & (d1 & -> & H1) & Hu).
  destruct Hu as (u2 & r2 & -> & (d2 & -> & H2) & Hu).
  destruct Hu as (u3 & r3 & -> & (d3 & -> & H3) & Hu).
  destruct Hu as (u4 & r4 & -> & (d4 & -> & H4) & ->).
  cbn. now rewrite H1, H2, H3, H4.
Qed.

(** X22.  What [check_readback_required] lists.  When "hold short" occurs
    in the instruction, in any case, the list starts with a hold-short
    item; otherwise no item is one.  There are at most four items, in the
    order hold short, runway, frequency, squawk, each of one of five
    forms: "Hold short instruction"; "Hold short runway" or "Runway"
    followed by digits and at most one of L, R, C; "Frequency" followed by
    three digits, a point and one to three digits; "Squawk" followed by
    exactly four digits. *)
Theorem readback_items (atc_instruction : str) :
  let items := check_readback_required atc_instruction in
  (search (lit "hold short") atc_instruction = true ->
   exists first rest,
     items = first :: rest /\ startswith first "Hold short" = true)
  /\ (search (lit "hold short") atc_instruction = false ->
      forall i, In i items -> startswith i "Hold short" = false)
  /\ length items <= 4
  /\ exists hold runway frequency squawk,
       items = hold ++ runway ++ frequency ++ squawk
       /\ (forall i, In i hold ->
             i = list_ascii_of_string "Hold short instruction"
             \/ exists g, i = "Hold short runway " ++ g
                  /\ is_runway_id g = true)
       /\ (forall i, In i runway ->
             exists g, i = "Runway " ++ g /\ is_runway_id g = true)
       /\ (forall i, In i frequency ->
             exists g, i = "Frequency " ++ g /\ is_frequency g = true)
       /\ (forall i, In i squawk ->
             exists g, i = "Squawk " ++ g /\ is_four_digits g = true).
Proof.
  cbv zeta. unfold check_readback_required.
  set (hold :=
    if search (lit "hold short") atc_instruction then
      match search_group hold_short_pattern atc_instruction with
      | Some g => ["Hold short runway " ++ g]
      | None => [list_ascii_of_string "Hold short instruction"]
      end
    else []).
  set (runway :=
    if search clearance atc_instruction then
      match search_group runway_pattern atc_instruction with
      | Some g => ["Runway " ++ g]
      | None => []
      end
    else []).
  set (frequency :=
    match search_group contact_pattern atc_instruction with
    | Some g => ["Frequency " ++ g]
    | None => []
    end).
  set (squawk :=
    match search_group squawk_pattern atc_instruction with
    | Some g => ["Squawk " ++ g]
    | None => []
    end).
  assert (Hh : forall i, In i hold ->
            i = list_ascii_of_string "Hold short instruction"
            \/ exists g, i = "Hold short runway " ++ g
                 /\ is_runway_id g = true).
  { unfold hold.
    destruct (search (lit "hold short") atc_instruction); [|intros i []].
    destruct (search_group hold_short_pattern atc_instruction) as [g|] eqn:E;
      intros i [<-|[]]; [right|now left].
    exists g. split; [reflexivity|].
    apply runway_id_shape.
    exact (search_group_denotes hold_short_pattern _ _ _ E). }
  assert (Hr : forall i, In i runway ->
            exists g, i = "Runway " ++ g /\ is_runway_id g = true).
  { unfold runway.
    destruct (search clearance atc_instruction); [|intros i []].
    destruct (search_group runway_pattern atc_instruction) as [g|] eqn:E;
      intros i Hi; [|destruct Hi]. destruct Hi as [<-|[]].
    exists g. split; [reflexivity|].
    apply runway_id_shape.
    exact (search_group_denotes runway_pattern _ _ _ E). }
  assert (Hf : forall i, In i frequency ->
            exists g, i = "Frequency " ++ g /\ is_frequency g = true).
  { unfold frequency.
    destruct (search_group contact_pattern atc_instruction) as [g|] eqn:E;
      intros i Hi; [|destruct Hi]. destruct Hi as [<-|[]].
    exists g. split; [reflexivity|].
    apply frequency_shape.
    exact (search_group_denotes contact_pattern _ _ _ E). }
  assert (Hs : forall i, In i squawk ->
            exists g, i = "Squawk " ++ g /\ is_four_digits g = true).
  { unfold squawk.
    destruct (search_group squawk_pattern atc_instruction) as [g|] eqn:E;
      intros i Hi; [|destruct Hi]. destruct Hi as [<-|[]].
    exists g. split; [reflexivity|].
    apply four_digits_shape.
    exact (search_group_denotes squawk_pattern _ _ _ E). }
  assert (Lh : length hold <= 1).
  { unfold hold.
    destruct (search (lit "hold short") atc_instruction); [|cbn; lia].
    destruct (search_group hold_short_pattern atc_instruction); cbn; lia. }
  assert (Lr : length runway <= 1).
  { unfold runway.
    destruct (search clearance atc_instruction); [|cbn; lia].
    destruct (search_group runway_pattern atc_instruction); cbn; lia. }
  assert (Lf : length frequency <= 1).
  { unfold frequency.
    destruct (search_group contact_pattern atc_instruction); cbn; lia. }
  assert (Ls : length squawk <= 1).
  { unfold squawk.
    destruct (search_group squawk_pattern atc_instruction); cbn; lia. }
  split; [|split; [|split]].
  - intros Hsearch. unfold hold. rewrite Hsearch.
    destruct (search_group hold_short_pattern atc_instruction) as [g|];
      eexists; eexists; (split; [reflexivity|reflexivity]).
  - intros Hsearch i Hi.
    assert (Eh : hold = []) by (unfold hold; now rewrite Hsearch).
    rewrite Eh in Hi. cbn [app] in Hi.
    repeat (apply in_app_or in Hi; destruct Hi as [Hi|Hi]).
    + destruct (Hr i Hi) as (g & -> & _). reflexivity.
    + destruct (Hf i Hi) as (g & -> & _). reflexivity.
    + destruct (Hs i Hi) as (g & -> & _). reflexivity.
  - rewrite !length_app. lia.
  - exists hold, runway, frequency, squawk.
    split; [now rewrite <- !app_assoc|]. auto.
Qed.

(** *** [is_within_scope] and the scope warnings *)

Lemma scan_warnings_map (label : str) (table : list (re * str)) (s : str) :
  scan_warnings label table s
  = map (fun pd => label ++ snd pd)
      (filter (fun pd => search (fst pd) s) table).
Proof.
  unfold scan_warnings, str in *.
  induction table as [|pd table IH]; [reflexivity|].
  cbn [flat_map filter]. destruct (search (fst pd) s); cbn [app map];
    now rewrite IH.
Qed.

Lemma warnings_nonempty (response : str) :
  response <> [] ->
  warnings (validate_atc_response response)
  = (scan_warnings "Prohibited: " PROHIBITED_PHRASES (scanned_text response)
     ++ scan_warnings "SCOPE: " IFR_SCOPE_VIOLATIONS (scanned_text response))
    ++ taxi_warning (scanned_text response).
Proof. intros H. now rewrite (validate_nonempty response H). Qed.

Lemma scanned_text_empty : scanned_text [] = [].
Proof. reflexivity. Qed.

Lemma taxi_warning_not_scope (s w : str) :
  In w (taxi_warning s) -> startswith w "SCOPE: " = false.
Proof.
  unfold taxi_warning. destruct (search _ s); [|intros []].
  destruct (negb _); [|intros []]. intros [<-|[]]. reflexivity.
Qed.

(** X23.  The "SCOPE:" warnings of [validate_atc_response] are the verdict
    of [is_within_scope] on the text left by the scan for suspicious
    patterns: when that text is within scope no warning of the result
    starts with "SCOPE: ", and conversely; when it is not, the reason
    [is_within_scope] gives is among the warnings, prefixed by "SCOPE: ".
    A text within scope has the empty reason. *)
Theorem scope_verdict_is_the_warning (response : str) :
  let text := scanned_text response in
  let res := validate_atc_response response in
  (fst (is_within_scope text) = true <->
   forall w, In w (warnings res) -> startswith w "SCOPE: " = false)
  /\ (fst (is_within_scope text) = false ->
      In ("SCOPE: " ++ snd (is_within_scope text)) (warnings res))
  /\ (fst (is_within_scope text) = true -> snd (is_within_scope text) = []).
Proof.
  cbv zeta. destruct (empty_or_not response) as [->|Hne].
  - rewrite scanned_text_empty.
    split; [split; [intros _ w []|reflexivity]|].
    split; [intros H; discriminate H|reflexivity].
  - rewrite (warnings_nonempty response Hne), !scan_warnings_map.
    unfold is_within_scope.
    set (text := scanned_text response).
    destruct (filter (fun pd => search (fst pd) text) IFR_SCOPE_VIOLATIONS)
      as [|pd hits]; cbn [fst snd map app].
    + split; [|split; [intros H; discriminate H|reflexivity]].
      split; [|reflexivity]. intros _ w Hw. rewrite app_nil_r in Hw.
      apply in_app_or in Hw. destruct Hw as [Hw|Hw].
      * apply in_map_iff in Hw. destruct Hw as (x & <- & _). reflexivity.
      * exact (taxi_warning_not_scope text w Hw).
    + assert (Hin : In ("SCOPE: " ++ snd pd)
                      ((map (fun pd => "Prohibited: " ++ snd pd)
                          (filter (fun pd => search (fst pd) text)
                             PROHIBITED_PHRASES)
                        ++ ("SCOPE: " ++ snd pd)
                           :: map (fun pd => "SCOPE: " ++ snd pd) hits)
                       ++ taxi_warning text)).
      { apply in_or_app. left. apply in_or_app. right. now left. }
      split; [|split; [|intros H; discriminate H]].
      * split; [intros H; discriminate H|]. intros H.
        assert (T : startswith ("SCOPE: " ++ snd pd) "SCOPE: " = true)
          by (destruct (snd pd); reflexivity).
        rewrite (H _ Hin) in T. discriminate T.
      * intros _. exact Hin.
Qed.

End ValidationMore.

(** ** copilot.py and the squawk parser *)

Section CoPilotMore.
Import Re Squawk Validation ValidationSpec CoPilot CoPilotSpec.

Lemma startswith_nil (s : str) : startswith s [] = true.
Proof. now destruct s. Qed.

Lemma exec_lit_s (w : str) :
  forall (A : Type) (prev : option ascii) (s : str)
         (k : option ascii -> str -> option A) (a : A),
  exec (lit_s w) prev s k = Some a -> startswith s w = true.
Proof.
  induction w as [|c w IH]; intros A prev s k a H.
  - apply startswith_nil.
  - assert (Hc : forall x, cs c x = true -> ascii_eqb c x = true).
    { intros x Hx. apply Ascii.eqb_eq in Hx. subst x.
      apply Ascii.eqb_refl. }
    destruct w as [|c2 w].
    + cbn [lit_s exec] in H. destruct s as [|x s]; [discriminate|].
      destruct (cs c x) eqn:E; [|discriminate].
      cbn [startswith]. rewrite (Hc x E). apply startswith_nil.
    + change (lit_s (c :: c2 :: w))
        with (Cat (Chr (cs c)) (lit_s (c2 :: w))) in H.
      cbn [exec] in H. destruct s as [|x s]; [discriminate|].
      destruct (cs c x) eqn:E; [|discriminate].
      change (startswith (x :: s) (c :: c2 :: w))
        with (ascii_eqb c x && startswith s (c2 :: w)).
      rewrite (Hc x E). exact (IH _ _ _ _ _ H).
Qed.

Lemma str_in_here (w s : str) : startswith s w = true -> str_in w s = true.
Proof. intros H. destruct s; cbn [str_in]; now rewrite H. Qed.

Lemma str_in_later (w : str) (c : ascii) (s : str) :
  str_in w s = true -> str_in w (c :: s) = true.
Proof. intros H. cbn [str_in]. rewrite H. apply orb_true_r. Qed.

Lemma numeric_match_starts (prev : option ascii) (s : str) (r : str * nat) :
  match_here numeric_pattern prev s = Some r ->
  startswith s "squawk" = true.
Proof.
  unfold match_here, numeric_pattern. cbn [before exec].
  apply exec_lit_s.
Qed.

Lemma spoken_match_starts (prev : option ascii) (s : str)
  (groups : list str) :
  match_spoken prev s = Some groups -> startswith s "squawk" = true.
Proof.
  unfold match_spoken. cbn [exec]. apply exec_lit_s.
Qed.

Lemma numeric_search_squawk (s : str) :
  forall prev g,
  search_group_from numeric_pattern prev s = Some g ->
  str_in "squawk" s = true.
Proof.
  induction s as [|c s IH]; intros prev g; cbn [search_group_from].
  - destruct (match_here numeric_pattern prev []) as [r|] eqn:E;
      [|discriminate].
    intros _. apply str_in_here. exact (numeric_match_starts _ _ _ E).
  - destruct (match_here numeric_pattern prev (c :: s)) as [r|] eqn:E.
    + intros _. apply str_in_here. exact (numeric_match_starts _ _ _ E).
    + intros H. apply str_in_later. exact (IH _ _ H).
Qed.

Lemma spoken_search_squawk (s : str) :
  forall prev groups,
  search_spoken prev s = Some groups -> str_in "squawk" s = true.
Proof.
  induction s as [|c s IH]; intros prev groups; cbn [search_spoken].
  - destruct (match_spoken prev []) as [r|] eqn:E; [|discriminate].
    intros _. apply str_in_here. exact (spoken_match_starts _ _ _ E).
  - destruct (match_spoken prev (c :: s)) as [r|] eqn:E.
    + intros _. apply str_in_here. exact (spoken_match_starts _ _ _ E).
    + intros H. apply str_in_later. exact (IH _ _ H).
Qed.

Lemma spoken_match_four (prev : option ascii) (s : str)
  (groups : list str) :
  match_spoken prev s = Some groups -> length groups = 4.
Proof.
  unfold match_spoken. intros H.
  repeat (apply exec_denotes in H; destruct H as (? & ? & ? & _ & _ & H)).
  injection H as <-. reflexivity.
Qed.

Lemma spoken_search_four (s : str) :
  forall prev groups,
  search_spoken prev s = Some groups -> length groups = 4.
Proof.
  induction s as [|c s IH]; intros prev groups; cbn [search_spoken].
  - destruct (match_spoken prev []) as [r|] eqn:E; [|discriminate].
    intros [= <-]. exact (spoken_match_four _ _ _ E).
  - destruct (match_spoken prev (c :: s)) as [r|] eqn:E.
    + intros [= <-]. exact (spoken_match_four _ _ _ E).
    + apply IH.
Qed.

Lemma word_to_digit_octal (w : str) :
  in_range 48 55 (word_to_digit w) = true.
Proof.
  unfold word_to_digit.
  repeat match goal with
         | |- context [if ?b then _ else _] => destruct b
         end; reflexivity.
Qed.

Lemma octal_is_decimal (c : ascii) :
  in_range 48 55 c = true -> re_digit c = true.
Proof.
  destruct c as [[] [] [] [] [] [] [] []]; vm_compute; intros H;
    first [reflexivity | discriminate H].
Qed.

Lemma spoken_code_digits (groups : list str) :
  length groups = 4 ->
  is_four_digits (map word_to_digit groups) = true
  /\ forallb (in_range 48 55) (map word_to_digit groups) = true.
Proof.
  destruct groups as [|a [|b [|c [|e [|]]]]]; try discriminate. intros _.
  unfold is_four_digits. cbn [map length Nat.eqb forallb andb].
  rewrite !(octal_is_decimal _ (word_to_digit_octal _)).
  rewrite !word_to_digit_octal. now split.
Qed.

(** X24.  What [parse_squawk_from_atc] returns.  A message holding
    "squawk vfr", in any case, gives "1200" whatever else it holds.  A
    message without the word "squawk" gives nothing.  Every code returned
    has exactly four characters; when it was not captured by the numeric
    pattern (it is "1200" for VFR, or was read from spoken digits) these
    are octal digits. *)
Theorem parsed_squawk_shape (atc_message : str) :
  (str_in "squawk vfr" (py_lower atc_message) = true ->
   parse_squawk_from_atc atc_message = Some (list_ascii_of_string "1200"))
  /\ (str_in "squawk" (py_lower atc_message) = false ->
      parse_squawk_from_atc atc_message = None)
  /\ (forall c, parse_squawk_from_atc atc_message = Some c ->
      length c = 4
      /\ (search_group numeric_pattern (py_lower atc_message) = None ->
          forallb (in_range 48 55) c = true)).
Proof.
  unfold parse_squawk_from_atc. cbv zeta.
  set (m := py_lower atc_message).
  split; [|split].
  - intros H. now rewrite H.
  - intros H.
    destruct (str_in "squawk vfr" m) eqn:V.
    + assert (T : str_in "squawk" m = true); [|congruence].
      clear H. induction m as [|x m IH]; [discriminate V|].
      cbn [str_in] in V. apply orb_true_iff in V as [V|V].
      * apply str_in_here.
        change (list_ascii_of_string "squawk vfr")
          with (list_ascii_of_string "squawk" ++ list_ascii_of_string " vfr")
          in V.
        revert V. generalize (x :: m) as t. clear.
        generalize (list_ascii_of_string "squawk") as w.
        induction w as [|c w IH]; intros t; [intros _; apply startswith_nil|].
        destruct t as [|y t]; [discriminate|]. cbn [app startswith].
        intros H. apply andb_true_iff in H as [-> H]. now apply IH.
      * apply str_in_later. now apply IH.
    + destruct (str_in "squawk ident" m
                && negb (str_in "squawk" (replace "squawk ident" [] m)));
        [reflexivity|].
      destruct (search_group numeric_pattern m) as [g|] eqn:N.
      * apply numeric_search_squawk in N. congruence.
      * destruct (search_spoken None m) as [groups|] eqn:S; [|reflexivity].
        apply spoken_search_squawk in S. congruence.
  - intros c.
    destruct (str_in "squawk vfr" m).
    + intros [= <-]. split; [reflexivity|]. intros _. reflexivity.
    + destruct (str_in "squawk ident" m
                && negb (str_in "squawk" (replace "squawk ident" [] m)));
        [discriminate|].
      destruct (search_group numeric_pattern m) as [g|] eqn:N.
      * intros [= <-]. split; [|discriminate].
        pose proof (four_digits_shape g
                      (search_group_denotes numeric_pattern m None g N))
          as H4.
        unfold is_four_digits in H4. apply andb_true_iff in H4 as [H4 _].
        now apply Nat.eqb_eq in H4.
      * destruct (search_spoken None m) as [groups|] eqn:S; [|discriminate].
        intros [= <-]. apply spoken_search_four in S.
        destruct (spoken_code_digits groups S) as [H1 H2].
        split; [now rewrite length_map|]. intros _. exact H2.
Qed.

Lemma digit_not_space (c : ascii) :
  re_digit c = true -> py_isspace c = false.
Proof.
  destruct c as [[] [] [] [] [] [] [] []]; vm_compute; intros H;
    first [reflexivity | discriminate H].
Qed.

Lemma digits_strip (c : str) : forallb re_digit c = true -> strip c = c.
Proof.
  intros Hd. destruct (strip_decompose c) as (pre & post & E & Hpre & Hpost).
  rewrite forallb_forall in Hd.
  assert (Hno : forall x l, forallb py_isspace (x :: l) = true ->
                In x c -> False).
  { intros x l Hl Hx. cbn [forallb] in Hl.
    apply andb_true_iff in Hl as [Hs _].
    rewrite (digit_not_space x (Hd x Hx)) in Hs. discriminate Hs. }
  destruct pre as [|x pre].
  - destruct post as [|y post].
    + now rewrite app_nil_r in E.
    + exfalso. apply (Hno y post Hpost). rewrite E.
      apply in_or_app. right. apply in_or_app. right. now left.
  - exfalso. apply (Hno x pre Hpre). rewrite E. now left.
Qed.

Lemma digit_octal (x : ascii) :
  re_digit x = true -> x <> "8"%char -> x <> "9"%char ->
  in_range 48 55 x = true.
Proof.
  destruct x as [[] [] [] [] [] [] [] []]; vm_compute; intros H N8 N9;
    first [reflexivity | discriminate H | now elim N8 | now elim N9].
Qed.

Lemma digits_valid_octal (c : str) :
  fst (validate_code c) = true -> forallb re_digit c = true -> four_octal c.
Proof.
  intros Hv Hd.
  apply validate_code_true in Hv. rewrite (digits_strip c Hd) in Hv.
  destruct Hv as (Hl & _ & N8 & N9).
  split; [exact Hl|]. apply forallb_forall. intros x Hx.
  rewrite forallb_forall in Hd. apply digit_octal; [now apply Hd| |];
    intros ->; contradiction.
Qed.

Lemma four_octal_normalized (c : str) : four_octal c -> _normalize_code c = c.
Proof.
  intros [Hl Ho]. unfold _normalize_code, zfill.
  rewrite (filter_all _ _ Ho), Hl. cbn [Nat.sub repeat app].
  rewrite <- Hl. apply firstn_all.
Qed.

Lemma assign_valid (h : SquawkHandler) (c : str) :
  fst (validate_code c) = true ->
  get_assigned_code (fst (fst (set_assigned_code h c)))
  = Some (_normalize_code c).
Proof.
  intros Hv. unfold set_assigned_code.
  destruct (validate_code c) as [v e]. cbn [fst] in Hv. now subst v.
Qed.

Lemma nodup_snoc (l : list str) (a : str) :
  NoDup l -> ~ In a l -> NoDup (l ++ [a]).
Proof.
  intros Hl Ha. apply NoDup_app; [assumption|repeat constructor; intros []|].
  intros x Hx [E|[]]. subst x. contradiction.
Qed.

Lemma tune_step_keeps (acc : list SimCall * list str) (freq_str : str) :
  tuned_only acc -> tuned_only (tune_step acc freq_str).
Proof.
  destruct acc as [calls actions]. intros (Hc & Hn & Ha).
  unfold tune_step.
  destruct (py_float freq_str) as [q|] eqn:Hq; [|now repeat split].
  destruct (Qleb 118 q && Qltb q 137) eqn:Hr; [|now repeat split].
  apply andb_true_iff in Hr as [H1 H2].
  apply Qleb_le in H1. apply Qltb_lt in H2.
  set (action := "Tuned COM1 to " ++ freq_str).
  cbn [fst snd] in *.
  destruct (existsb (str_eqb action) actions) eqn:Ex.
  - apply existsb_exists in Ex. destruct Ex as (a & Hin & Ea).
    apply str_eqb_eq in Ea. subst a.
    unfold tuned_only. cbn [fst snd]. split; [|now split].
    intros x Hx. apply in_app_or in Hx. destruct Hx as [Hx|[<-|[]]].
    + exact (Hc x Hx).
    + exists freq_str. split; [reflexivity|]. split; [now exists q|exact Hin].
  - assert (Hnot : ~ In action actions).
    { intros Hin.
      assert (T : existsb (str_eqb action) actions = true).
      { apply existsb_exists. exists action.
        split; [exact Hin|apply str_eqb_refl]. }
      congruence. }
    unfold tuned_only. cbn [fst snd]. split; [|split].
    + intros x Hx. apply in_app_or in Hx. destruct Hx as [Hx|[<-|[]]].
      * destruct (Hc x Hx) as (f & E & Hok & Hin). exists f.
        split; [exact E|]. split; [exact Hok|].
        apply in_or_app. now left.
      * exists freq_str. split; [reflexivity|]. split; [now exists q|].
        apply in_or_app. right. now left.
    + now apply nodup_snoc.
    + intros a Hin. apply in_app_or in Hin. destruct Hin as [Hin|[<-|[]]].
      * exact (Ha a Hin).
      * now exists freq_str.
Qed.

Lemma tune_all_keeps (matches : list str) :
  forall acc, tuned_only acc -> tuned_only (fold_left tune_step matches acc).
Proof.
  induction matches as [|f matches IH]; intros acc H; cbn [fold_left].
  - exact H.
  - apply IH. now apply tune_step_keeps.
Qed.

(** X25.  What the co-pilot does with an ATC text.  Disabled, it does
    nothing.  Enabled, it sets the transponder at most to the code
    [parse_squawk_from_atc] reads from the text, and only when
    [validate_code] accepts that code; the handler then holds the
    normalised code, four octal digits, as its assigned code (the code
    itself when it is written with the digits 0 to 9), and the action is
    reported.  Without such a call the co-pilot is unchanged.  Every
    frequency it tunes reads as a number from 118 inclusive to 137
    exclusive and is reported, and no action is reported twice. *)
Theorem copilot_acts_on_valid_codes (self : CoPilot) (text : str) :
  let res := process_atc_instruction self text in
  let self' := fst (fst res) in
  let calls := snd (fst res) in
  let actions := snd res in
  (enabled self = false -> res = (self, [], []))
  /\ enabled self' = enabled self
  /\ (forall c, In (set_transponder_code c) calls ->
      parse_squawk_from_atc text = Some c
      /\ fst (validate_code c) = true
      /\ get_assigned_code (squawk_handler self')
         = Some (_normalize_code c)
      /\ four_octal (_normalize_code c)
      /\ (forallb re_digit c = true -> _normalize_code c = c)
      /\ In ("Set Transponder to " ++ c) actions)
  /\ ((forall c, ~ In (set_transponder_code c) calls) -> self' = self)
  /\ (forall f, In (set_com1_active f) calls ->
      com_ok f /\ In ("Tuned COM1 to " ++ f) actions)
  /\ NoDup actions.
Proof.
  cbv zeta. unfold process_atc_instruction.
  destruct (enabled self) eqn:En; cbn [negb].
  2: { cbn [fst snd]. split; [reflexivity|]. split; [exact En|].
       split; [intros c []|]. split; [reflexivity|].
       split; [intros f []|constructor]. }
  assert (T : tuned_only (fold_left tune_step (findall com_pattern text)
                            ([], []))).
  { apply tune_all_keeps. split; [intros x []|].
    split; [constructor|intros a []]. }
  destruct (fold_left tune_step (findall com_pattern text) ([], []))
    as [calls actions].
  destruct T as (Hc & Hn & Ha). cbn [fst snd] in Hc, Hn, Ha.
  assert (Hnt : forall c, ~ In (set_transponder_code c) calls).
  { intros c Hin. destruct (Hc _ Hin) as (f & E & _). discriminate E. }
  assert (Hcom : forall f, In (set_com1_active f) calls ->
                 com_ok f /\ In ("Tuned COM1 to " ++ f) actions).
  { intros f Hin. destruct (Hc _ Hin) as (f' & [= ->] & Hok & Hin').
    now split. }
  destruct (parse_squawk_from_atc text) as [[|c0 r]|] eqn:P.
  1, 3: cbn [fst snd]; split; [discriminate|];
        split; [exact En|]; split; [intros c Hin; now elim (Hnt c)|];
        split; [reflexivity|]; split; [exact Hcom|exact Hn].
  set (code := c0 :: r) in *.
  destruct (fst (validate_code code)) eqn:V.
  2: { cbn [fst snd]. split; [discriminate|].
       split; [exact En|]. split; [intros c Hin; now elim (Hnt c)|].
       split; [reflexivity|]. split; [exact Hcom|exact Hn]. }
  cbn [fst snd enabled squawk_handler].
  split; [discriminate|]. split; [reflexivity|].
  split; [|split; [|split]].
  - intros c Hin. apply in_app_or in Hin.
    destruct Hin as [Hin|[[= <-]|[]]]; [now elim (Hnt c)|].
    split; [reflexivity|]. split; [exact V|].
    split; [exact (assign_valid _ code V)|].
    split; [apply normalize_four_octal|].
    split.
    + intros Hd. apply four_octal_normalized.
      now apply digits_valid_octal.
    + apply in_or_app. right. now left.
  - intros H. exfalso. apply (H code). apply in_or_app. right. now left.
  - intros f Hin. apply in_app_or in Hin.
    destruct Hin as [Hin|[E|[]]]; [|discriminate E].
    destruct (Hcom f Hin) as [Hok Hin']. split; [exact Hok|].
    apply in_or_app. now left.
  - apply nodup_snoc; [exact Hn|]. intros Hin.
    destruct (Ha _ Hin) as (f & E). discriminate E.
Qed.

End CoPilotMore.
